(** * ue-tools: the asset reader of [string_table_tools.py]

    A shallow embedding of the binary parsing core of [string_table_tools.py]
    (class [AssetReader], [parse_meta], [parse_string_table]) and the
    properties of its specification.

    Conventions of the embedding:
    - a Python [bytes] object is a [list byte];
    - a Python [str] is the list of its code points ([list Z]);
    - a Python [int] is a [Z] (the cursor may become negative through
      [skip], and Python slicing gives negative indices a meaning, so the
      slice semantics is written out in full);
    - the reader object is a record with its two attributes, and every method
      is a function from the object to an outcome that carries the object
      back, whether the method returned or raised;
    - [struct] formats ["i"] and ["I"] are 4 bytes wide, little-endian. *)

From Stdlib Require Import ZArith List Lia Bool String.
From Stdlib Require Import Strings.Byte.
Import ListNotations.
Local Open Scope Z_scope.

(** ** Python values *)

Definition bytes := list byte.
Definition str := list Z.

Definition len {A : Type} (l : list A) : Z := Z.of_nat (List.length l).

Definition byte_val (b : byte) : Z := Z.of_N (Byte.to_N b).

Definition byte_of (z : Z) : byte :=
  match Byte.of_N (Z.to_N (z mod 256)) with
  | Some b => b
  | None => x00
  end.

(** [l[start:stop]]: a negative index counts from the end, and both indices
    are clamped to the sequence. *)
Definition clamp_index (i n : Z) : Z :=
  if i <? 0 then Z.max 0 (i + n) else Z.min i n.

Definition slice {A : Type} (l : list A) (start stop : Z) : list A :=
  let a := clamp_index start (len l) in
  let b := clamp_index stop (len l) in
  firstn (Z.to_nat (b - a)) (skipn (Z.to_nat a) l).

(** [data.find(sub, start)]: lowest index at or after [start] where [sub]
    occurs, or [-1]. *)
Fixpoint starts_with (sub l : bytes) : bool :=
  match sub, l with
  | [], _ => true
  | _ :: _, [] => false
  | x :: sub', y :: l' => Byte.eqb x y && starts_with sub' l'
  end.

Fixpoint search (sub l : bytes) : option nat :=
  if starts_with sub l then Some O
  else match l with
       | [] => None
       | _ :: l' => option_map S (search sub l')
       end.

Definition bytes_find (data sub : bytes) (start : Z) : Z :=
  let n := len data in
  let a := if start <? 0 then Z.max 0 (start + n) else start in
  if n - a <? len sub then -1
  else match search sub (skipn (Z.to_nat a) data) with
       | Some i => a + Z.of_nat i
       | None => -1
       end.

(** ** Exceptions *)

Inductive exn : Type :=
| ValueError (msg : string)
| struct_error
| UnicodeDecodeError
| AssetParseException (msg : string)
| AssetParseExceptionFrom (cause : exn).

(** ** The [struct] module *)

Definition le_uint (bs : bytes) : Z :=
  fold_right (fun b acc => byte_val b + 256 * acc) 0 bs.

Fixpoint le_bytes (n : nat) (v : Z) : bytes :=
  match n with
  | O => []
  | S k => byte_of v :: le_bytes k (v / 256)
  end.

(** [struct.unpack("I", bs)[0]] *)
Definition unpack_I (bs : bytes) : option Z :=
  if len bs =? 4 then Some (le_uint bs) else None.

(** [struct.unpack("i", bs)[0]] *)
Definition unpack_i (bs : bytes) : option Z :=
  if len bs =? 4
  then Some (let u := le_uint bs in if u <? 2 ^ 31 then u else u - 2 ^ 32)
  else None.

(** [struct.unpack("%ds" % count, bs)[0]] *)
Definition unpack_s (count : Z) (bs : bytes) : option bytes :=
  if len bs =? count then Some bs else None.

(** [struct.pack("i", v)] *)
Definition pack_i (v : Z) : option bytes :=
  if (- 2 ^ 31 <=? v) && (v <? 2 ^ 31) then Some (le_bytes 4 v) else None.

(** ** The codecs used by [read_string] *)

Inductive encoding : Type := ascii | utf_16.

Definition decode_ascii (bs : bytes) : option str :=
  if forallb (fun b => byte_val b <? 128) bs
  then Some (map byte_val bs)
  else None.

Inductive byteorder : Type := LittleEndian | BigEndian.

Definition code_unit (bo : byteorder) (b0 b1 : byte) : Z :=
  match bo with
  | LittleEndian => byte_val b0 + 256 * byte_val b1
  | BigEndian => byte_val b1 + 256 * byte_val b0
  end.

Fixpoint code_units (bo : byteorder) (bs : bytes) : option (list Z) :=
  match bs with
  | [] => Some []
  | [_] => None
  | b0 :: b1 :: rest => option_map (cons (code_unit bo b0 b1)) (code_units bo rest)
  end.

Definition is_high_surrogate (u : Z) : bool := (0xD800 <=? u) && (u <=? 0xDBFF).
Definition is_low_surrogate (u : Z) : bool := (0xDC00 <=? u) && (u <=? 0xDFFF).

Fixpoint join_surrogates (us : list Z) : option str :=
  match us with
  | [] => Some []
  | u :: rest =>
      if is_high_surrogate u then
        match rest with
        | u2 :: rest2 =>
            if is_low_surrogate u2
            then option_map (cons (0x10000 + (u - 0xD800) * 1024 + (u2 - 0xDC00)))
                            (join_surrogates rest2)
            else None
        | [] => None
        end
      else if is_low_surrogate u then None
      else option_map (cons u) (join_surrogates rest)
  end.

(** [bs.decode('utf-16')]: a leading byte order mark selects the byte order
    and is dropped; without one the order is little-endian. *)
Definition sniff_bom (bs : bytes) : byteorder * bytes :=
  match bs with
  | b0 :: b1 :: rest =>
      if Byte.eqb b0 xff && Byte.eqb b1 xfe then (LittleEndian, rest)
      else if Byte.eqb b0 xfe && Byte.eqb b1 xff then (BigEndian, rest)
      else (LittleEndian, bs)
  | _ => (LittleEndian, bs)
  end.

Definition decode_utf16 (bs : bytes) : option str :=
  let '(bo, body) := sniff_bom bs in
  match code_units bo body with
  | Some us => join_surrogates us
  | None => None
  end.

Definition decode (e : encoding) (bs : bytes) : option str :=
  match e with
  | ascii => decode_ascii bs
  | utf_16 => decode_utf16 bs
  end.

(** Equality of two [str] values. *)
Fixpoint str_eqb (a b : str) : bool :=
  match a, b with
  | [], [] => true
  | x :: a', y :: b' => (x =? y) && str_eqb a' b'
  | _, _ => false
  end.

(** [value.endswith("\x00")] *)
Definition endswith_nul (value : str) : bool :=
  match rev value with
  | c :: _ => c =? 0
  | [] => false
  end.

(** ** The reader object and its methods *)

Record AssetReader : Type := mkAssetReader { __data : bytes; __cursor : Z }.

Record Meta : Type := mkMeta {
  file_version : Z;
  license_version : Z;
  ue_version : Z;
  cook_version : Z;
  asset_type : Z;
  data_offset : Z;
  path : str;
  asset_guid : str
}.

Inductive outcome (A : Type) : Type :=
| Returns (a : A) (self : AssetReader)
| Raises (e : exn) (self : AssetReader).
Arguments Returns {A} a self.
Arguments Raises {A} e self.

Definition method (A : Type) : Type := AssetReader -> outcome A.

Definition ret {A : Type} (a : A) : method A := fun self => Returns a self.

Definition raise {A : Type} (e : exn) : method A := fun self => Raises e self.

Definition bind {A B : Type} (m : method A) (k : A -> method B) : method B :=
  fun self =>
    match m self with
    | Returns a self' => k a self'
    | Raises e self' => Raises e self'
    end.

Notation "x <- m ;; k" := (bind m (fun x => k))
  (at level 61, m at next level, right associativity).
Notation "m ;;; k" := (bind m (fun _ => k))
  (at level 61, right associativity).

Definition this : method AssetReader := fun self => Returns self self.

Definition set_cursor (position : Z) : method unit :=
  fun self => Returns tt (mkAssetReader (__data self) position).

Definition or_raise {A : Type} (o : option A) (e : exn) : method A :=
  match o with
  | Some a => ret a
  | None => raise e
  end.

Definition skip (count : Z) : method unit :=
  self <- this ;;
  set_cursor (__cursor self + count).

Definition reset (position : Z) : method unit :=
  set_cursor position.

Definition read_int : method Z :=
  self <- this ;;
  value <- or_raise (unpack_i (slice (__data self) (__cursor self) (__cursor self + 4)))
                    struct_error ;;
  set_cursor (__cursor self + 4) ;;;
  ret value.

Definition read_uint : method Z :=
  self <- this ;;
  value <- or_raise (unpack_I (slice (__data self) (__cursor self) (__cursor self + 4)))
                    struct_error ;;
  set_cursor (__cursor self + 4) ;;;
  ret value.

Definition read_string : method str :=
  count <- read_int ;;
  let '(count, enc) := if count <? 0 then (- count * 2, utf_16) else (count, ascii) in
  self <- this ;;
  raw <- or_raise (unpack_s count (slice (__data self) (__cursor self) (__cursor self + count)))
                  struct_error ;;
  value <- or_raise (decode enc raw) UnicodeDecodeError ;;
  if endswith_nul value then
    set_cursor (__cursor self + count) ;;;
    ret (removelast value)
  else
    raise (AssetParseException "String not null terminated").

Definition find_int (value : Z) : method Z :=
  pattern <- or_raise (pack_i value) struct_error ;;
  self <- this ;;
  ret (bytes_find (__data self) pattern (__cursor self)).

Definition validate : method unit :=
  magic_number <- read_uint ;;
  if negb (magic_number =? 0x9E2A83C1) then
    raise (ValueError "Not a valid .uasset file")
  else
    reset 0.

Definition get_asset_meta : method Meta :=
  skip 4 ;;;
  file_version <- read_int ;;
  license_version <- read_uint ;;
  ue_version <- read_uint ;;
  cook_version <- read_uint ;;
  (if (cook_version =? 0) && negb (file_version =? -8) then skip (-4) else ret tt) ;;;
  skip 4 ;;;
  asset_type <- read_uint ;;
  find_int <- find_int 40 ;;
  reset (find_int + 4) ;;;
  data_offset <- read_uint ;;
  path <- read_string ;;
  skip 12 ;;;
  v <- read_int ;;
  (if v =? 0 then skip 4 else skip (-4)) ;;;
  asset_guid <- read_string ;;
  reset 0 ;;;
  ret (mkMeta file_version license_version ue_version cook_version
              asset_type data_offset path asset_guid).

(** ** The two entry points *)

Inductive result (A : Type) : Type :=
| Ok (a : A)
| Exception (e : exn).
Arguments Ok {A} a.
Arguments Exception {A} e.

(** [try: ... except Exception as e: raise AssetParseException(e)] around a
    body run on a fresh reader over [data]. *)
Definition try_parse {A : Type} (data : bytes) (body : method A) : result A :=
  match body (mkAssetReader data 0) with
  | Returns a _ => Ok a
  | Raises e _ => Exception (AssetParseExceptionFrom e)
  end.

Definition parse_meta (data : bytes) : result Meta :=
  try_parse data (validate ;;; get_asset_meta).

Definition range (count : Z) : nat := Z.to_nat count.

(** The loop [for _ in range(count)] of [parse_string_table], appending to
    [out]. *)
Fixpoint read_entries (n : nat) (out : list (str * str)) : method (list (str * str)) :=
  match n with
  | O => ret out
  | S n' =>
      key <- read_string ;;
      value <- read_string ;;
      read_entries n' (out ++ [(key, value)])
  end.

Definition parse_string_table (data : bytes) : result (list (str * str)) :=
  try_parse data (
    validate ;;;
    meta <- get_asset_meta ;;
    (if negb (asset_type meta =? 1)
     then raise (AssetParseException "Not a suitable string table")
     else ret tt) ;;;
    reset (data_offset meta) ;;;
    skip 28 ;;;
    asset_guid' <- read_string ;;
    (if negb (str_eqb asset_guid' (asset_guid meta))
     then raise (AssetParseException "Asset code mismatch")
     else ret tt) ;;;
    skip 12 ;;;
    _ <- read_string ;;
    count <- read_int ;;
    read_entries (range count) []).

(** The part of [parse_string_table] before its loop: everything up to and
    including [count = content.read_int()]. *)
Definition table_prologue : method Z :=
  validate ;;;
  meta <- get_asset_meta ;;
  (if negb (asset_type meta =? 1)
   then raise (AssetParseException "Not a suitable string table")
   else ret tt) ;;;
  reset (data_offset meta) ;;;
  skip 28 ;;;
  asset_guid' <- read_string ;;
  (if negb (str_eqb asset_guid' (asset_guid meta))
   then raise (AssetParseException "Asset code mismatch")
   else ret tt) ;;;
  skip 12 ;;;
  _ <- read_string ;;
  read_int.

(** ** Observations on outcomes *)

Definition final_reader {A : Type} (o : outcome A) : AssetReader :=
  match o with
  | Returns _ self => self
  | Raises _ self => self
  end.

(** What a caller sees of a method call: the value and the cursor it left,
    or the exception. *)
Definition observe {A : Type} (o : outcome A) : result (A * Z) :=
  match o with
  | Returns a self => Ok (a, __cursor self)
  | Raises e _ => Exception e
  end.

(** ** The header resolver with its cursor positions written out

    A second reading of [get_asset_meta], following the steps of the
    specification: every field is read at an absolute position computed
    from the position the resolver starts at. *)

Definition int_at (data : bytes) (p : Z) : option Z :=
  unpack_i (slice data p (p + 4)).

Definition uint_at (data : bytes) (p : Z) : option Z :=
  unpack_I (slice data p (p + 4)).

Definition string_at (data : bytes) (p : Z) : result (str * Z) :=
  observe (read_string (mkAssetReader data p)).

(** Cursor after step 3, when the candidate [cook_version] was read from
    [c + 16 .. c + 20]. *)
Definition cursor_after_cook (c file_version cook_version : Z) : Z :=
  if (cook_version =? 0) && negb (file_version =? -8)
  then (c + 20) - 4
  else c + 20.

(** Cursor after step 8, when the probe [v] was read from [p .. p + 4]. *)
Definition cursor_before_guid (p v : Z) : Z :=
  if v =? 0 then (p + 4) + 4 else (p + 4) - 4.

(** Steps 6 to 10, with the cursor at [pos]. *)
Definition resolve_from (data : bytes) (pos : Z)
    (file_version license_version ue_version cook_version asset_type : Z) : result (Meta * Z) :=
  match uint_at data pos with
  | None => Exception struct_error
  | Some data_offset =>
      match string_at data (pos + 4) with
      | Exception e => Exception e
      | Ok (path, p) =>
          match int_at data (p + 12) with
          | None => Exception struct_error
          | Some v =>
              match string_at data (cursor_before_guid (p + 12) v) with
              | Exception e => Exception e
              | Ok (asset_guid, _) =>
                  Ok (mkMeta file_version license_version ue_version cook_version
                             asset_type data_offset path asset_guid, 0)
              end
          end
      end
  end.

(** Position the anchor search of step 5 starts from. *)
Definition anchor_search_start (c file_version cook_version : Z) : Z :=
  cursor_after_cook c file_version cook_version + 8.

Definition anchor_pattern : bytes := le_bytes 4 40.

(** Steps 1 to 10, with the cursor at [c]. *)
Definition resolve_header (data : bytes) (c : Z) : result (Meta * Z) :=
  match int_at data (c + 4), uint_at data (c + 8), uint_at data (c + 12),
        uint_at data (c + 16) with
  | Some file_version, Some license_version, Some ue_version, Some cook_version =>
      match uint_at data (cursor_after_cook c file_version cook_version + 4) with
      | None => Exception struct_error
      | Some asset_type =>
          let anchor :=
            bytes_find data anchor_pattern (anchor_search_start c file_version cook_version) in
          resolve_from data (anchor + 4)
                       file_version license_version ue_version cook_version asset_type
      end
  | _, _, _, _ => Exception struct_error
  end.

(** ** Test buffers *)

(** [struct.pack("I", v)] *)
Definition pack_I (v : Z) : option bytes :=
  if (0 <=? v) && (v <? 2 ^ 32) then Some (le_bytes 4 v) else None.

Definition zeros (n : nat) : bytes := repeat x00 n.

Definition is_ascii (c : Z) : bool := (0 <=? c) && (c <? 128).

(** A Unicode scalar value: a code point that is not a surrogate. *)
Definition is_scalar (c : Z) : bool :=
  (0 <=? c) && (c <=? 0x10FFFF) && negb ((0xD800 <=? c) && (c <=? 0xDFFF)).

Definition utf16_units_of (c : Z) : list Z :=
  if c <? 0x10000 then [c]
  else [0xD800 + (c - 0x10000) / 1024; 0xDC00 + (c - 0x10000) mod 1024].

Definition utf16_units (t : str) : list Z := flat_map utf16_units_of t.

Definition utf16le_bytes (us : list Z) : bytes :=
  flat_map (fun u => [byte_of u; byte_of (u / 256)]) us.

(** Modelled from the spec: the string encoder of the test buffer builder,
    which the repository does not contain. Section 4.1 and section 6 give the
    convention: a non-negative prefix [n] followed by [n] single-byte
    characters, the last of them the NUL terminator. *)
Definition encode_ascii_string (t : str) : option bytes :=
  if forallb is_ascii t
  then option_map (fun prefix => prefix ++ map byte_of t ++ [x00]) (pack_i (len t + 1))
  else None.

(** Modelled from the spec: the wide form of the same encoder: a negative
    prefix [-n] followed by [n] UTF-16 code units, little-endian, the last of
    them the NUL terminator. *)
Definition encode_utf16_string (t : str) : option bytes :=
  if forallb is_scalar t
  then let us := utf16_units t ++ [0] in
       option_map (fun prefix => prefix ++ utf16le_bytes us) (pack_i (- len us))
  else None.

(** Modelled from the spec: a text is written in the single-byte form when
    all its characters are ASCII and in the wide form otherwise. *)
Definition encode_string (t : str) : option bytes :=
  if forallb is_ascii t then encode_ascii_string t else encode_utf16_string t.

Fixpoint concat_fields (fields : list (option bytes)) : option bytes :=
  match fields with
  | [] => Some []
  | f :: rest =>
      match f, concat_fields rest with
      | Some a, Some b => Some (a ++ b)
      | _, _ => None
      end
  end.

(** Modelled from the spec: in the general layout ([file_version] other than
    [-8]) a [cook_version] of zero means that the cook word is not in the
    buffer: the zero word found in its place belongs to the next field
    (section 4.3, step 3). *)
Definition cook_absent (m : Meta) : bool :=
  (cook_version m =? 0) && negb (file_version m =? -8).

(** Modelled from the spec: the test buffer builder of section 8, which the
    repository does not contain. The field sequence is that of the
    end-to-end scenario,
    [[magic][file_version][license][engine][cook][pad4][asset_type]
     [anchor int 40][data_offset][path][12 bytes][probe=0][pad4][guid]],
    minimal: nothing between [asset_type] and the anchor, zero padding. The
    cook word is left out where the layout has none ([cook_absent]), and the
    legacy layout ([file_version = -8]) has no probe word and no padding
    before the GUID (step 8 of section 4.3: field absent). *)
Definition build_header (m : Meta) : option bytes :=
  concat_fields
    [ pack_I 0x9E2A83C1;
      pack_i (file_version m);
      pack_I (license_version m);
      pack_I (ue_version m);
      (if cook_absent m then Some [] else pack_I (cook_version m));
      Some (zeros 4);
      pack_I (asset_type m);
      pack_i 40;
      pack_I (data_offset m);
      encode_string (path m);
      Some (zeros 12);
      (if file_version m =? -8 then Some [] else Some (le_bytes 4 0 ++ zeros 4));
      encode_string (asset_guid m) ].

Definition encode_entry (kv : str * str) : option bytes :=
  concat_fields [encode_string (fst kv); encode_string (snd kv)].

(** Modelled from the spec: the payload of a string-table test buffer,
    section 4.4: 28 bytes of fixed header, the GUID, 12 bytes, the table
    name, the declared count and the entries. *)
Definition build_payload (guid name : str) (count : Z) (entries : list (str * str))
  : option bytes :=
  concat_fields
    ([ Some (zeros 28);
       encode_string guid;
       Some (zeros 12);
       encode_string name;
       pack_i count ] ++ map encode_entry entries).

(** Modelled from the spec: a string-table test buffer: the header followed
    by the payload. *)
Definition build_string_table (m : Meta) (guid name : str) (count : Z)
    (entries : list (str * str)) : option bytes :=
  concat_fields [build_header m; build_payload guid name count entries].

(** ** Notions used in the statements *)

(** Byte count and codec selected by a length prefix. *)
Definition string_extent (prefix : Z) : Z * encoding :=
  if prefix <? 0 then (- prefix * 2, utf_16) else (prefix, ascii).

(** The text begins with U+FEFF or U+FFFE, the code units whose
    little-endian bytes are the two byte order marks. *)
Definition starts_with_bom (t : str) : bool :=
  match t with
  | c :: _ => (c =? 0xFEFF) || (c =? 0xFFFE)
  | [] => false
  end.

(** A 16-bit code unit. *)
Definition is_code_unit (u : Z) : Prop := 0 <= u < 65536.

(** [bs] is the content of [data] from offset [c] on. *)
Definition holds (data : bytes) (c : Z) (bs : bytes) : Prop :=
  0 <= c /\ exists rest, skipn (Z.to_nat c) data = bs ++ rest.

(** A method leaves the byte buffer of the reader as it found it, whether
    it returns or raises. *)
Definition keeps_data {A : Type} (m : method A) : Prop :=
  forall self, __data (final_reader (m self)) = __data self.

(** Where [data.find(sub, start)] and [data.rfind(sub, start)] begin to look:
    a negative [start] counts from the end of the buffer. *)
Definition search_from (data : bytes) (start : Z) : Z :=
  if start <? 0 then Z.max 0 (start + len data) else start.

(** [value] occurs in [data] at offset [r]: [data[r : r + len(value)] == value]
    with the whole of it inside the buffer. *)
Definition occurs_at (data value : bytes) (r : Z) : Prop :=
  holds data r value /\ r + len value <= len data.

(** The bytes of [abcabc]. *)
Definition abcabc : bytes := [x61; x62; x63; x61; x62; x63].

(** Position of the padding word of a built header: 16 where the cook word
    is absent, 20 where it is present. *)
Definition pad_offset (m : Meta) : Z :=
  cursor_after_cook 0 (file_version m) (cook_version m).

(** What a built header holds, field by field. Where the cook word is absent
    the word at offset 16 is the padding, which is the zero [cook_version]. *)
Record header_layout (m : Meta) (d : bytes) (path_bs guid_bs : bytes) : Prop := {
  hl_path : encode_string (path m) = Some path_bs;
  hl_guid : encode_string (asset_guid m) = Some guid_bs;
  hl_fv_range : - 2 ^ 31 <= file_version m < 2 ^ 31;
  hl_lic_range : 0 <= license_version m < 2 ^ 32;
  hl_ue_range : 0 <= ue_version m < 2 ^ 32;
  hl_cook_range : 0 <= cook_version m < 2 ^ 32;
  hl_at_range : 0 <= asset_type m < 2 ^ 32;
  hl_do_range : 0 <= data_offset m < 2 ^ 32;
  hl_magic : holds d 0 (le_bytes 4 0x9E2A83C1);
  hl_fv : holds d 4 (le_bytes 4 (file_version m));
  hl_lic : holds d 8 (le_bytes 4 (license_version m));
  hl_ue : holds d 12 (le_bytes 4 (ue_version m));
  hl_cook : holds d 16 (le_bytes 4 (cook_version m));
  hl_at : holds d (pad_offset m + 4) (le_bytes 4 (asset_type m));
  hl_anchor : holds d (pad_offset m + 8) anchor_pattern;
  hl_do : holds d (pad_offset m + 12) (le_bytes 4 (data_offset m));
  hl_path_at : holds d (pad_offset m + 16) path_bs;
  hl_tail : holds d (pad_offset m + 16 + len path_bs + 12)
              ((if file_version m =? -8 then [] else le_bytes 4 0 ++ zeros 4) ++ guid_bs)
}.

(** ** Example buffers *)

(** Text literals for examples. *)
Definition text (s : string) : str :=
  map (fun b => byte_val b) (list_byte_of_string s).

Definition built (o : option bytes) : bytes :=
  match o with
  | Some d => d
  | None => []
  end.

(** The end-to-end scenario of the specification, section 8. The header is
    76 bytes long, so the payload starts at offset 76. *)
Definition scenario_meta : Meta :=
  mkMeta 1 0 0 5 1 76 (text "/Game/X") (text "ABC").

Definition scenario_entry : str * str := (text "Key1", text "Value1").

(** The header of the end-to-end scenario alone. *)
Definition scenario_header : bytes := built (build_header scenario_meta).

Definition scenario_buffer : bytes :=
  built (build_string_table scenario_meta (text "ABC") (text "Table") 1 [scenario_entry]).

(** The same table with a declared count of [-1]. *)
Definition negative_count_buffer : bytes :=
  built (build_string_table scenario_meta (text "ABC") (text "Table") (-1) [scenario_entry]).

(** A table that declares three entries and holds two. *)
Definition short_table_buffer : bytes :=
  built (build_string_table scenario_meta (text "ABC") (text "Table") 3
           [scenario_entry; (text "Key2", text "Value2")]).

(** The same table with four zero bytes where a third pair would begin. *)
Definition zero_tail_table_buffer : bytes :=
  short_table_buffer ++ [x00; x00; x00; x00].

(** A third pair for that table, 20 bytes when encoded. *)
Definition third_entry : str * str := (text "Key3", text "Value3").

(** The table with its third pair cut after [j] bytes. *)
Definition cut_table_buffer (j : nat) : bytes :=
  short_table_buffer ++ firstn j (built (encode_entry third_entry)).

(** The scenario's header behind five other bytes. *)
Definition offset_header_buffer : bytes :=
  [xaa; xaa; xaa; xaa; xaa] ++ scenario_header.

(** A table whose payload GUID is not the GUID of the header. *)
Definition guid_mismatch_buffer : bytes :=
  built (build_string_table scenario_meta (text "ABD") (text "Table") 1 [scenario_entry]).

(** A 29-byte buffer with the magic and no occurrence of the anchor
    [28 00 00 00] at all. *)
Definition no_anchor_buffer : bytes :=
  [ xc1; x83; x2a; x9e;
    x00; x00; x00; x01;
    x00; x00; x00; x00;
    x01; x00; x00; x00;
    x05; x00; x00; x00;
    x01; x00; x00; x00;
    x01; x00; x00; x00;
    x00 ].

(** The scenario's fields in the general layout with [cook_version = 0]. *)
Definition cook_zero_meta : Meta :=
  mkMeta 1 0 0 0 1 76 (text "/Game/X") (text "ABC").

Definition cook_zero_header : bytes := built (build_header cook_zero_meta).

(** The scenario's fields with another asset type. *)
Definition other_type_meta : Meta :=
  mkMeta 1 0 0 5 2 76 (text "/Game/X") (text "ABC").

Definition other_type_header : bytes := built (build_header other_type_meta).

(** The scenario's fields in the legacy layout, with [cook_version = 0]. *)
Definition legacy_meta : Meta :=
  mkMeta (-8) 0 0 0 1 68 (text "/Game/X") (text "ABC").

Definition legacy_header : bytes := built (build_header legacy_meta).

(** The two-character text U+FEFF, "A". *)
Definition bom_text : str := [0xFEFF; 0x41].

(** The scenario's fields with a path that begins with U+FEFF. *)
Definition bom_path_meta : Meta :=
  mkMeta 1 0 0 5 1 76 bom_text (text "ABC").

Definition bom_path_header : bytes := built (build_header bom_path_meta).

(** Its wide encoding: prefix [-3], then [FF FE], [41 00], [00 00]. *)
Definition bom_text_buffer : bytes :=
  [xfd; xff; xff; xff; xff; xfe; x41; x00; x00; x00].

(** ** The remaining methods of the reader *)

(** [data.rfind(sub, start)]: highest index at or after [start] where [sub]
    occurs, or [-1]. *)
Fixpoint rsearch (sub l : bytes) : option nat :=
  match l with
  | [] => if starts_with sub [] then Some O else None
  | _ :: l' =>
      match rsearch sub l' with
      | Some i => Some (S i)
      | None => if starts_with sub l then Some O else None
      end
  end.

Definition bytes_rfind (data sub : bytes) (start : Z) : Z :=
  let n := len data in
  let a := if start <? 0 then Z.max 0 (start + n) else start in
  if n - a <? len sub then -1
  else match rsearch sub (skipn (Z.to_nat a) data) with
       | Some i => a + Z.of_nat i
       | None => -1
       end.

(** [find] and [find_last] hand their argument to [bytes.find] and
    [bytes.rfind]; the argument is modelled as the [bytes] object these
    accept. *)
Definition find (value : bytes) : method Z :=
  self <- this ;;
  ret (bytes_find (__data self) value (__cursor self)).

Definition find_last (value : bytes) : method Z :=
  self <- this ;;
  ret (bytes_rfind (__data self) value (__cursor self)).

(** ** Console colours *)

Module Colorize.

Definition OKBLUE : str := 27 :: text "[94m".
Definition OKCYAN : str := 27 :: text "[96m".
Definition OKGREEN : str := 27 :: text "[92m".
Definition WARNING : str := 27 :: text "[93m".
Definition FAIL : str := 27 :: text "[91m".
Definition BOLD : str := 27 :: text "[1m".
Definition UNDERLINE : str := 27 :: text "[4m".
Definition ENDC : str := 27 :: text "[0m".

(** The class attribute [enable] is passed as an argument. *)
Definition colorize (enable : bool) (text color : str) : str :=
  if enable then color ++ text ++ ENDC else text.

(** [Colorize.print]: the line it sends to the console. *)
Definition print (enable : bool) (text color : str) : str :=
  if enable then colorize enable text color else text.

End Colorize.

(** ** CSV export *)

(** ["\"%s\",\"%s\"" % (tuple[0], tuple[1])]; 34 is the double quote and 44
    the comma. *)
Definition csv_row (tuple : str * str) : str :=
  [34] ++ fst tuple ++ [34; 44; 34] ++ snd tuple ++ [34].

Definition convert_to_csv (tuples : list (str * str)) : list str :=
  let out := [] in
  let out := out ++ [text "Key,SourceString"] in
  let out := fold_left (fun out tuple => out ++ [csv_row tuple]) tuples out in
  let out := out ++ [[]] in
  out.

(** The ['utf-16'] stream writer of [codecs.open]: the first [write] encodes
    with a byte order mark, the later ones without; a code point that is not a
    Unicode scalar value makes the encoder raise [UnicodeEncodeError]. *)
Definition utf_16_encode (first : bool) (s : str) : option bytes :=
  if forallb is_scalar s
  then Some ((if first then [xff; xfe] else []) ++ utf16le_bytes (utf16_units s))
  else None.

(** What [save_as_utf16] leaves in the file: everything, or what was written
    before the encoder raised. *)
Inductive saved : Type :=
| Saved (file : bytes)
| UnicodeEncodeError (file : bytes).

(** The loop [for line in content: file.write(line + "\n")]; [first] tells
    whether the writer has written yet and [file] is the file so far. *)
Fixpoint write_lines (first : bool) (content : list str) (file : bytes) : saved :=
  match content with
  | [] => Saved file
  | line :: rest =>
      match utf_16_encode first (line ++ [10]) with
      | Some data => write_lines false rest (file ++ data)
      | None => UnicodeEncodeError file
      end
  end.

Definition save_as_utf16 (content : list str) : saved :=
  write_lines true content [].

(** ** Comparing two tables *)

(** A Python [dict] with [str] keys, as the list of its items in insertion
    order. *)
Definition dict : Type := list (str * str).

(** [d[k]], when [k in d]. *)
Fixpoint dict_get (d : dict) (k : str) : option str :=
  match d with
  | [] => None
  | (k', v) :: rest => if str_eqb k' k then Some v else dict_get rest k
  end.

(** [d[k] = v]: an existing key keeps its place and takes the new value, a
    new key goes last. *)
Fixpoint dict_set (d : dict) (k v : str) : dict :=
  match d with
  | [] => [(k, v)]
  | (k', v') :: rest =>
      if str_eqb k' k then (k', v) :: rest else (k', v') :: dict_set rest k v
  end.

(** [dict(pairs)] *)
Definition dict_of (pairs : list (str * str)) : dict :=
  fold_left (fun d kv => dict_set d (fst kv) (snd kv)) pairs [].

Definition dict_in (k : str) (d : dict) : bool :=
  match dict_get d k with
  | Some _ => true
  | None => false
  end.

(** The three message formats of [compare]. *)
Definition changed_line (key va vb : str) : str :=
  text "!: " ++ key ++ text " = " ++ [34] ++ va ++ [34] ++ text " != " ++ [34] ++ vb ++ [34].

Definition removed_line (key va : str) : str :=
  text "-: " ++ key ++ text " = " ++ [34] ++ va ++ [34].

Definition added_line (key vb : str) : str :=
  text "+: " ++ key ++ text " = " ++ [34] ++ vb ++ [34].

(** [compare]: the lines it prints, in order. The three loops run over the
    items of [dict_a], [dict_a] and [dict_b]. *)
Definition compare (enable : bool) (a b : list (str * str)) : list str :=
  let dict_a := dict_of a in
  let dict_b := dict_of b in
  flat_map (fun '(key, va) =>
              match dict_get dict_b key with
              | Some vb =>
                  if negb (str_eqb va vb)
                  then [Colorize.print enable (changed_line key va vb) Colorize.WARNING]
                  else []
              | None => []
              end) dict_a
  ++ flat_map (fun '(key, va) =>
                 if negb (dict_in key dict_b)
                 then [Colorize.print enable (removed_line key va) Colorize.FAIL]
                 else []) dict_a
  ++ flat_map (fun '(key, vb) =>
                 if negb (dict_in key dict_a)
                 then [Colorize.print enable (added_line key vb) Colorize.OKGREEN]
                 else []) dict_b.

(** ** Searching a table *)

(** [any(re.search(p, s, flags) for p in patterns)]. The matcher
    [re_search pattern s ignore_case] is the truth value of [re.search], or
    [None] when [re.search] raises; [any] stops at the first match. *)
Fixpoint any_search (re_search : str -> str -> bool -> option bool)
    (patterns : list str) (s : str) (ignore_case : bool) : option bool :=
  match patterns with
  | [] => Some false
  | p :: rest =>
      match re_search p s ignore_case with
      | None => None
      | Some true => Some true
      | Some false => any_search re_search rest s ignore_case
      end
  end.

(** [keys is not None and len(keys) > 0] *)
Definition given (keys : option (list str)) : bool :=
  match keys with
  | Some (_ :: _) => true
  | _ => false
  end.

Definition keys_of (keys : option (list str)) : list str :=
  match keys with
  | Some ks => ks
  | None => []
  end.

(** The body of the loop of [search] for one tuple: whether the tuple is
    appended, or [None] when a call of [re.search] raises. *)
Definition search_keeps (re_search : str -> str -> bool -> option bool)
    (pattern : str) (ignore_case search_only_values : bool)
    (exclude_keys include_keys : option (list str)) (tuple : str * str) : option bool :=
  match (if given include_keys
         then option_map negb (any_search re_search (keys_of include_keys) (fst tuple) ignore_case)
         else Some false) with
  | None => None
  | Some true => Some false
  | Some false =>
      match (if given exclude_keys
             then any_search re_search (keys_of exclude_keys) (fst tuple) ignore_case
             else Some false) with
      | None => None
      | Some true => Some false
      | Some false =>
          match (if negb search_only_values
                 then re_search pattern (fst tuple) ignore_case
                 else Some false) with
          | None => None
          | Some true => Some true
          | Some false => re_search pattern (snd tuple) ignore_case
          end
      end
  end.

Fixpoint search_loop (re_search : str -> str -> bool -> option bool)
    (pattern : str) (ignore_case search_only_values : bool)
    (exclude_keys include_keys : option (list str))
    (data out : list (str * str)) : option (list (str * str)) :=
  match data with
  | [] => Some out
  | tuple :: rest =>
      match search_keeps re_search pattern ignore_case search_only_values
                         exclude_keys include_keys tuple with
      | None => None
      | Some keep =>
          search_loop re_search pattern ignore_case search_only_values
                      exclude_keys include_keys rest
                      (if keep then out ++ [tuple] else out)
      end
  end.

(** The module-level function [search] (the name is taken above by the byte
    search of [bytes.find]). *)
Module Table.

Definition search (re_search : str -> str -> bool -> option bool)
    (data : list (str * str)) (pattern : str) (ignore_case search_only_values : bool)
    (exclude_keys include_keys : option (list str)) : option (list (str * str)) :=
  search_loop re_search pattern ignore_case search_only_values
              exclude_keys include_keys data [].

End Table.

(** The text of a list of lines, each followed by a line feed. *)
Definition with_newlines (content : list str) : str :=
  List.concat (map (fun line => line ++ [10]) content).

(** The tuple is appended by the loop of [search], no call of [re.search]
    having raised. *)
Definition search_passes (re_search : str -> str -> bool -> option bool)
    (pattern : str) (ignore_case search_only_values : bool)
    (exclude_keys include_keys : option (list str)) (tuple : str * str) : bool :=
  match search_keeps re_search pattern ignore_case search_only_values
                     exclude_keys include_keys tuple with
  | Some true => true
  | _ => false
  end.

(** The three tests of [search] for a matcher [m] that never raises. *)
Definition search_test (m : str -> str -> bool -> bool)
    (pattern : str) (ignore_case search_only_values : bool)
    (exclude_keys include_keys : option (list str)) (tuple : str * str) : bool :=
  (negb (given include_keys)
   || existsb (fun p => m p (fst tuple) ignore_case) (keys_of include_keys))
  && negb (given exclude_keys
           && existsb (fun p => m p (fst tuple) ignore_case) (keys_of exclude_keys))
  && ((negb search_only_values && m pattern (fst tuple) ignore_case)
      || m pattern (snd tuple) ignore_case).

(** * Properties *)

(** ** The end-to-end scenario of the specification runs as described *)

Example end_to_end_scenario :
  parse_meta scenario_buffer = Ok scenario_meta /\
  parse_string_table scenario_buffer = Ok [(text "Key1", text "Value1")].
Proof. split; vm_compute; reflexivity. Qed.

(** ** Bytes and 32-bit words *)

Lemma byte_val_range (b : byte) : 0 <= byte_val b < 256.
Proof.
  unfold byte_val. pose proof (Byte.to_N_bounded b). lia.
Qed.

Lemma byte_val_of (z : Z) : byte_val (byte_of z) = z mod 256.
Proof.
  unfold byte_val, byte_of.
  assert (Hr : 0 <= z mod 256 < 256) by (apply Z.mod_pos_bound; lia).
  destruct (Byte.of_N (Z.to_N (z mod 256))) as [b|] eqn:E.
  - apply Byte.to_of_N in E. rewrite E. lia.
  - apply Byte.of_N_None_iff in E. lia.
Qed.

Lemma byte_of_val (b : byte) : byte_of (byte_val b) = b.
Proof.
  unfold byte_of. pose proof (byte_val_range b) as Hr.
  rewrite Z.mod_small by lia.
  unfold byte_val. rewrite N2Z.id, Byte.of_to_N. reflexivity.
Qed.

Lemma len_app {A : Type} (x y : list A) : len (x ++ y) = len x + len y.
Proof. unfold len. rewrite length_app. lia. Qed.

Lemma len_nonneg {A : Type} (l : list A) : 0 <= len l.
Proof. unfold len. lia. Qed.

Lemma len_le_bytes (n : nat) (v : Z) : len (le_bytes n v) = Z.of_nat n.
Proof.
  unfold len. f_equal. revert v. induction n; intros; simpl; auto.
Qed.

Lemma le_uint_le_bytes (n : nat) (v : Z) :
  le_uint (le_bytes n v) = v mod 256 ^ Z.of_nat n.
Proof.
  revert v. induction n as [|n IH]; intros v.
  - simpl. rewrite Z.mod_1_r. reflexivity.
  - cbn [le_bytes]. unfold le_uint in *. cbn [fold_right]. rewrite IH, byte_val_of.
    rewrite Nat2Z.inj_succ, Z.pow_succ_r by lia.
    rewrite Z.rem_mul_r by lia. reflexivity.
Qed.

Lemma unpack_I_le_bytes (v : Z) :
  0 <= v < 2 ^ 32 -> unpack_I (le_bytes 4 v) = Some v.
Proof.
  intros Hv. unfold unpack_I. rewrite len_le_bytes. simpl (_ =? _).
  rewrite le_uint_le_bytes. change (256 ^ Z.of_nat 4) with (2 ^ 32).
  rewrite Z.mod_small by lia. reflexivity.
Qed.

Lemma unpack_i_le_bytes (v : Z) :
  - 2 ^ 31 <= v < 2 ^ 31 -> unpack_i (le_bytes 4 v) = Some v.
Proof.
  intros Hv. unfold unpack_i. rewrite len_le_bytes. simpl (_ =? _).
  rewrite le_uint_le_bytes. change (256 ^ Z.of_nat 4) with (2 ^ 32).
  cbv zeta. f_equal.
  destruct (Z_lt_le_dec v 0) as [Hneg|Hpos].
  - replace (v mod 2 ^ 32) with (v + 2 ^ 32).
    + destruct (Z.ltb_spec (v + 2 ^ 32) (2 ^ 31)); lia.
    + apply Z.mod_unique with (q := -1); lia.
  - rewrite Z.mod_small by lia.
    destruct (Z.ltb_spec v (2 ^ 31)); lia.
Qed.

Lemma pack_i_Some (v : Z) (bs : bytes) :
  pack_i v = Some bs -> - 2 ^ 31 <= v < 2 ^ 31 /\ bs = le_bytes 4 v.
Proof.
  unfold pack_i. destruct (Z.leb_spec (- 2 ^ 31) v), (Z.ltb_spec v (2 ^ 31));
    simpl; intros E; inversion E; split; auto; lia.
Qed.

Lemma pack_I_Some (v : Z) (bs : bytes) :
  pack_I v = Some bs -> 0 <= v < 2 ^ 32 /\ bs = le_bytes 4 v.
Proof.
  unfold pack_I. destruct (Z.leb_spec 0 v), (Z.ltb_spec v (2 ^ 32));
    simpl; intros E; inversion E; split; auto; lia.
Qed.

(** ** Slices and contents *)

Lemma slice_empty {A : Type} (l : list A) (p : Z) : slice l p p = [].
Proof.
  unfold slice. rewrite Z.sub_diag. reflexivity.
Qed.

Lemma len_slice_short {A : Type} (l : list A) (c k : Z) :
  0 < k -> len l - c < k -> len (slice l c (c + k)) < k.
Proof.
  intros Hk H. unfold slice, len in *. rewrite length_firstn, length_skipn.
  unfold clamp_index.
  match goal with |- context [Init.Nat.min ?a ?b] =>
    pose proof (Nat.le_min_l a b); pose proof (Nat.le_min_r a b);
    generalize dependent (Init.Nat.min a b) end.
  intros n Hl Hr.
  destruct (Z.ltb_spec c 0), (Z.ltb_spec (c + k) 0); lia.
Qed.

Lemma slice_holds (data : bytes) (c : Z) (bs : bytes) :
  holds data c bs -> slice data c (c + len bs) = bs.
Proof.
  intros [Hc [rest E]].
  assert (Hl : len bs <= Z.of_nat (List.length (skipn (Z.to_nat c) data))).
  { rewrite E, length_app. unfold len. lia. }
  rewrite length_skipn in Hl.
  unfold slice, clamp_index. fold (len data).
  pose proof (len_nonneg bs) as Hb.
  destruct (Z.ltb_spec c 0); [lia|].
  destruct (Z.ltb_spec (c + len bs) 0); [lia|].
  unfold len in *.
  destruct (Z_le_gt_dec c (Z.of_nat (List.length data))) as [Hle|Hgt].
  - rewrite (Z.min_l c) by lia.
    rewrite Z.min_l by lia.
    replace (Z.to_nat (c + Z.of_nat (List.length bs) - c)) with (List.length bs + 0)%nat by lia.
    rewrite E, firstn_app_2. simpl. apply app_nil_r.
  - assert (List.length bs = 0%nat) by lia.
    destruct bs; [|discriminate].
    simpl. rewrite Z.add_0_r, Z.sub_diag. reflexivity.
Qed.

Lemma holds_here (bs rest : bytes) : holds (bs ++ rest) 0 bs.
Proof.
  split; [lia|]. exists rest. reflexivity.
Qed.

Lemma holds_app_l (data : bytes) (c : Z) (x y : bytes) :
  holds data c (x ++ y) -> holds data c x.
Proof.
  intros [Hc [rest E]]. split; auto. exists (y ++ rest). rewrite E, app_assoc. reflexivity.
Qed.

Lemma holds_app_r (data : bytes) (c : Z) (x y : bytes) :
  holds data c (x ++ y) -> holds data (c + len x) y.
Proof.
  intros [Hc [rest E]]. pose proof (len_nonneg x) as Hx. split; [lia|].
  exists rest. unfold len in *.
  replace (Z.to_nat (c + Z.of_nat (List.length x))) with (List.length x + Z.to_nat c)%nat by lia.
  rewrite <- skipn_skipn, E, <- app_assoc.
  rewrite skipn_app, skipn_all, Nat.sub_diag. reflexivity.
Qed.

Lemma holds_nil (data : bytes) (c : Z) : 0 <= c -> holds data c [].
Proof.
  intros Hc. split; auto. eexists. reflexivity.
Qed.

(** ** Equations of the reader's methods *)

Lemma bind_Returns {A B : Type} (m : method A) (k : A -> method B) self a self' :
  m self = Returns a self' -> bind m k self = k a self'.
Proof. intros E. unfold bind. rewrite E. reflexivity. Qed.

Lemma bind_Raises {A B : Type} (m : method A) (k : A -> method B) self e self' :
  m self = Raises e self' -> bind m k self = Raises e self'.
Proof. intros E. unfold bind. rewrite E. reflexivity. Qed.

Lemma skip_eq (count : Z) (data : bytes) (c : Z) :
  skip count (mkAssetReader data c) = Returns tt (mkAssetReader data (c + count)).
Proof. reflexivity. Qed.

Lemma reset_eq (position : Z) (data : bytes) (c : Z) :
  reset position (mkAssetReader data c) = Returns tt (mkAssetReader data position).
Proof. reflexivity. Qed.

Lemma read_int_eq (data : bytes) (c : Z) :
  read_int (mkAssetReader data c) =
  match int_at data c with
  | Some v => Returns v (mkAssetReader data (c + 4))
  | None => Raises struct_error (mkAssetReader data c)
  end.
Proof.
  unfold read_int, int_at, bind, this, or_raise; simpl.
  destruct (unpack_i _); reflexivity.
Qed.

Lemma read_uint_eq (data : bytes) (c : Z) :
  read_uint (mkAssetReader data c) =
  match uint_at data c with
  | Some v => Returns v (mkAssetReader data (c + 4))
  | None => Raises struct_error (mkAssetReader data c)
  end.
Proof.
  unfold read_uint, uint_at, bind, this, or_raise; simpl.
  destruct (unpack_I _); reflexivity.
Qed.

Lemma read_string_eq (data : bytes) (c : Z) :
  read_string (mkAssetReader data c) =
  match int_at data c with
  | None => Raises struct_error (mkAssetReader data c)
  | Some prefix =>
      let count := fst (string_extent prefix) in
      match unpack_s count (slice data (c + 4) (c + 4 + count)) with
      | None => Raises struct_error (mkAssetReader data (c + 4))
      | Some raw =>
          match decode (snd (string_extent prefix)) raw with
          | None => Raises UnicodeDecodeError (mkAssetReader data (c + 4))
          | Some value =>
              if endswith_nul value
              then Returns (removelast value) (mkAssetReader data (c + 4 + count))
              else Raises (AssetParseException "String not null terminated")
                          (mkAssetReader data (c + 4))
          end
      end
  end.
Proof.
  unfold read_string. unfold bind at 1. rewrite read_int_eq.
  destruct (int_at data c) as [prefix|]; [|reflexivity].
  unfold string_extent.
  destruct (prefix <? 0); cbn [fst snd];
    unfold bind, this, or_raise; simpl;
    (destruct (unpack_s _ _) as [raw|]; [|reflexivity]); simpl.
  - destruct (decode_utf16 raw) as [value|]; [|reflexivity]; simpl.
    destruct (endswith_nul value); reflexivity.
  - destruct (decode_ascii raw) as [value|]; [|reflexivity]; simpl.
    destruct (endswith_nul value); reflexivity.
Qed.

Lemma find_int_40_eq (data : bytes) (c : Z) :
  find_int 40 (mkAssetReader data c) =
  Returns (bytes_find data anchor_pattern c) (mkAssetReader data c).
Proof. reflexivity. Qed.

Lemma int_at_holds (data : bytes) (c v : Z) :
  - 2 ^ 31 <= v < 2 ^ 31 -> holds data c (le_bytes 4 v) -> int_at data c = Some v.
Proof.
  intros Hv H. unfold int_at.
  pose proof (slice_holds _ _ _ H) as E. rewrite len_le_bytes in E.
  change (Z.of_nat 4) with 4 in E. rewrite E. apply unpack_i_le_bytes. exact Hv.
Qed.

Lemma uint_at_holds (data : bytes) (c v : Z) :
  0 <= v < 2 ^ 32 -> holds data c (le_bytes 4 v) -> uint_at data c = Some v.
Proof.
  intros Hv H. unfold uint_at.
  pose proof (slice_holds _ _ _ H) as E. rewrite len_le_bytes in E.
  change (Z.of_nat 4) with 4 in E. rewrite E. apply unpack_I_le_bytes. exact Hv.
Qed.

(** ** The buffer is never written *)

Lemma keeps_data_ret {A : Type} (a : A) : keeps_data (ret a).
Proof. intros self. reflexivity. Qed.

Lemma keeps_data_raise {A : Type} (e : exn) : keeps_data (@raise A e).
Proof. intros self. reflexivity. Qed.

Lemma keeps_data_bind {A B : Type} (m : method A) (k : A -> method B) :
  keeps_data m -> (forall a, keeps_data (k a)) -> keeps_data (bind m k).
Proof.
  intros Hm Hk self. unfold bind. specialize (Hm self).
  destruct (m self) as [a self'|e self']; simpl in *.
  - rewrite Hk. exact Hm.
  - exact Hm.
Qed.

Lemma keeps_data_this : keeps_data this.
Proof. intros self. reflexivity. Qed.

Lemma keeps_data_set_cursor (position : Z) : keeps_data (set_cursor position).
Proof. intros self. reflexivity. Qed.

Lemma keeps_data_or_raise {A : Type} (o : option A) (e : exn) : keeps_data (or_raise o e).
Proof. destruct o; intros self; reflexivity. Qed.

Lemma keeps_data_if {A : Type} (b : bool) (m1 m2 : method A) :
  keeps_data m1 -> keeps_data m2 -> keeps_data (if b then m1 else m2).
Proof. destruct b; auto. Qed.

Create HintDb frame.
#[local] Hint Resolve keeps_data_ret keeps_data_raise keeps_data_this
  keeps_data_set_cursor keeps_data_or_raise keeps_data_if : frame.

Ltac frame :=
  repeat first
    [ solve [auto with frame]
    | apply keeps_data_bind; [|intros ?]
    | apply keeps_data_if ].

Lemma keeps_data_skip (count : Z) : keeps_data (skip count).
Proof. unfold skip. frame. Qed.

Lemma keeps_data_reset (position : Z) : keeps_data (reset position).
Proof. unfold reset. frame. Qed.

Lemma keeps_data_read_int : keeps_data read_int.
Proof. unfold read_int. frame. Qed.

Lemma keeps_data_read_uint : keeps_data read_uint.
Proof. unfold read_uint. frame. Qed.

#[local] Hint Resolve keeps_data_skip keeps_data_reset keeps_data_read_int
  keeps_data_read_uint : frame.

Lemma keeps_data_read_string : keeps_data read_string.
Proof.
  unfold read_string. apply keeps_data_bind; [auto with frame|].
  intros count. destruct (count <? 0); frame.
Qed.

Lemma keeps_data_find_int (value : Z) : keeps_data (find_int value).
Proof. unfold find_int. frame. Qed.

#[local] Hint Resolve keeps_data_read_string keeps_data_find_int : frame.

Lemma keeps_data_validate : keeps_data validate.
Proof. unfold validate. frame. Qed.

Lemma keeps_data_get_asset_meta : keeps_data get_asset_meta.
Proof. unfold get_asset_meta. frame. Qed.

#[local] Hint Resolve keeps_data_validate keeps_data_get_asset_meta : frame.

Lemma keeps_data_read_entries (n : nat) (out : list (str * str)) :
  keeps_data (read_entries n out).
Proof.
  revert out. induction n as [|n IH]; intros out; simpl; frame.
Qed.

Lemma keeps_data_table_prologue : keeps_data table_prologue.
Proof. unfold table_prologue. frame. Qed.

Lemma Returns_keeps_data {A : Type} (m : method A) data c a self :
  keeps_data m -> m (mkAssetReader data c) = Returns a self ->
  self = mkAssetReader data (__cursor self).
Proof.
  intros Hm E. specialize (Hm (mkAssetReader data c)). rewrite E in Hm. simpl in Hm.
  destruct self; simpl in *. congruence.
Qed.

(** ** The resolver reads at the positions of the specification *)

Ltac reader_step E :=
  unfold bind at 1; rewrite E; cbv beta iota.

Lemma get_asset_meta_resolve_header (data : bytes) (c : Z) :
  observe (get_asset_meta (mkAssetReader data c)) = resolve_header data c.
Proof.
  unfold get_asset_meta, resolve_header.
  reader_step skip_eq.
  reader_step read_int_eq.
  destruct (int_at data (c + 4)) as [fv|]; [|reflexivity].
  replace (c + 4 + 4) with (c + 8) by lia.
  reader_step read_uint_eq.
  destruct (uint_at data (c + 8)) as [lic|]; [|reflexivity].
  replace (c + 8 + 4) with (c + 12) by lia.
  reader_step read_uint_eq.
  destruct (uint_at data (c + 12)) as [ue|]; [|reflexivity].
  replace (c + 12 + 4) with (c + 16) by lia.
  reader_step read_uint_eq.
  destruct (uint_at data (c + 16)) as [cook|]; [|reflexivity].
  replace (c + 16 + 4) with (c + 20) by lia.
  assert (Hcook :
    (if (cook =? 0) && negb (fv =? -8) then skip (-4) else ret tt)
      (mkAssetReader data (c + 20)) =
    Returns tt (mkAssetReader data (cursor_after_cook c fv cook))).
  { unfold cursor_after_cook. destruct ((cook =? 0) && negb (fv =? -8)); reflexivity. }
  reader_step Hcook.
  reader_step skip_eq.
  reader_step read_uint_eq.
  destruct (uint_at data (cursor_after_cook c fv cook + 4)) as [at_|]; [|reflexivity].
  reader_step find_int_40_eq.
  reader_step reset_eq.
  unfold anchor_search_start.
  replace (cursor_after_cook c fv cook + 4 + 4) with (cursor_after_cook c fv cook + 8) by lia.
  set (anchor := bytes_find data anchor_pattern (cursor_after_cook c fv cook + 8)).
  unfold resolve_from.
  reader_step read_uint_eq.
  destruct (uint_at data (anchor + 4)) as [do_|]; [|reflexivity].
  unfold string_at.
  unfold bind at 1.
  destruct (read_string (mkAssetReader data (anchor + 4 + 4))) as [path_ r1|e r1] eqn:Epath;
    [|reflexivity].
  apply (Returns_keeps_data _ _ _ _ _ keeps_data_read_string) in Epath as Er1.
  destruct r1 as [d1 p]. simpl in Er1. inversion Er1; subst d1. clear Er1.
  cbn [observe __cursor].
  reader_step skip_eq.
  reader_step read_int_eq.
  destruct (int_at data (p + 12)) as [v|]; [|reflexivity].
  assert (Hprobe :
    (if v =? 0 then skip 4 else skip (-4)) (mkAssetReader data (p + 12 + 4)) =
    Returns tt (mkAssetReader data (cursor_before_guid (p + 12) v))).
  { unfold cursor_before_guid. destruct (v =? 0); reflexivity. }
  reader_step Hprobe.
  unfold bind at 1.
  destruct (read_string (mkAssetReader data (cursor_before_guid (p + 12) v)))
    as [guid r2|e r2]; reflexivity.
Qed.

(** ** The string-table decoder *)

Lemma parse_string_table_prologue (data : bytes) :
  parse_string_table data =
  try_parse data (count <- table_prologue ;; read_entries (range count) []).
Proof.
  unfold parse_string_table, table_prologue, try_parse, bind.
  destruct (validate _) as [[] r1|e r1]; [|reflexivity].
  destruct (get_asset_meta r1) as [meta r2|e r2]; [|reflexivity].
  destruct (negb (asset_type meta =? 1)); [reflexivity|]. cbn [ret].
  destruct (reset _ r2) as [[] r3|e r3]; [|reflexivity].
  destruct (skip 28 r3) as [[] r4|e r4]; [|reflexivity].
  destruct (read_string r4) as [g r5|e r5]; [|reflexivity].
  destruct (negb (str_eqb g (asset_guid meta))); [reflexivity|]. cbn [ret].
  destruct (skip 12 r5) as [[] r6|e r6]; [|reflexivity].
  destruct (read_string r6) as [name r7|e r7]; [|reflexivity].
  destruct (read_int r7) as [count r8|e r8]; reflexivity.
Qed.

Lemma read_entries_last (n : nat) (out : list (str * str)) (self : AssetReader) :
  read_entries (S n) out self =
  (out' <- read_entries n out ;;
   key <- read_string ;;
   value <- read_string ;;
   ret (out' ++ [(key, value)])) self.
Proof.
  revert out self. induction n as [|n IH]; intros out self.
  - reflexivity.
  - change (read_entries (S (S n)) out self)
      with ((key <- read_string ;; value <- read_string ;;
             read_entries (S n) (out ++ [(key, value)])) self).
    change (read_entries (S n) out)
      with (key <- read_string ;; value <- read_string ;;
            read_entries n (out ++ [(key, value)])).
    unfold bind in *.
    destruct (read_string self) as [key r1|e r1]; [|reflexivity].
    destruct (read_string r1) as [value r2|e r2]; [|reflexivity].
    rewrite IH. reflexivity.
Qed.

Lemma str_eqb_eq (a b : str) : str_eqb a b = true <-> a = b.
Proof.
  revert b. induction a as [|x a IH]; intros [|y b]; simpl; split; intros H;
    try discriminate; auto.
  - apply andb_true_iff in H as [Hx Hr]. apply Z.eqb_eq in Hx. apply IH in Hr.
    subst. reflexivity.
  - inversion H; subst. rewrite Z.eqb_refl. simpl. apply IH. reflexivity.
Qed.

Lemma short_read_int (self : AssetReader) :
  len (__data self) - __cursor self < 4 -> read_int self = Raises struct_error self.
Proof.
  intros H. destruct self as [data c]. simpl in H. rewrite read_int_eq.
  unfold int_at, unpack_i.
  pose proof (len_slice_short data c 4 ltac:(lia) H) as Hs.
  destruct (Z.eqb_spec (len (slice data c (c + 4))) 4); [lia|reflexivity].
Qed.

Lemma short_read_uint (self : AssetReader) :
  len (__data self) - __cursor self < 4 -> read_uint self = Raises struct_error self.
Proof.
  intros H. destruct self as [data c]. simpl in H. rewrite read_uint_eq.
  unfold uint_at, unpack_I.
  pose proof (len_slice_short data c 4 ltac:(lia) H) as Hs.
  destruct (Z.eqb_spec (len (slice data c (c + 4))) 4); [lia|reflexivity].
Qed.

Lemma short_read_string (self : AssetReader) :
  len (__data self) - __cursor self < 4 -> read_string self = Raises struct_error self.
Proof.
  intros H. unfold read_string. apply bind_Raises. apply short_read_int. exact H.
Qed.

(** ** Claims on the cursor reader *)

(** C10: wherever the 4-byte length prefix decodes to exactly zero,
    [read_string] raises the "String not null terminated" exception: the
    empty decoded string has no NUL terminator. The cursor stays just after
    the prefix. *)
Theorem read_string_zero_prefix (self self' : AssetReader) :
  read_int self = Returns 0 self' ->
  read_string self = Raises (AssetParseException "String not null terminated") self'.
Proof.
  destruct self as [data c]. rewrite read_int_eq, read_string_eq.
  destruct (int_at data c) as [prefix|]; [|discriminate].
  intros E. inversion E; subst. cbn [string_extent Z.ltb Z.compare fst snd].
  rewrite Z.add_0_r, slice_empty. reflexivity.
Qed.

Lemma read_string_zero_prefix_witness :
  read_int (mkAssetReader [x00; x00; x00; x00; x41; x00] 0) =
    Returns 0 (mkAssetReader [x00; x00; x00; x00; x41; x00] 4) /\
  read_string (mkAssetReader [x00; x00; x00; x00; x41; x00] 0) =
    Raises (AssetParseException "String not null terminated")
           (mkAssetReader [x00; x00; x00; x00; x41; x00] 4).
Proof.
  split; [reflexivity|].
  apply (read_string_zero_prefix (mkAssetReader [x00; x00; x00; x00; x41; x00] 0)).
  reflexivity.
Defined.

(** ** Claims on the format validator *)

(** C6: when the 4 bytes at the cursor, read as an unsigned little-endian
    word, differ from [0x9E2A83C1], [validate] raises the "Not a valid
    .uasset file" error with only those 4 bytes consumed, and both entry
    points fail with it; when they match, [validate] returns and leaves the
    cursor at offset 0. *)
Theorem validate_magic (self self' : AssetReader) (magic_number : Z) :
  read_uint self = Returns magic_number self' ->
  (magic_number <> 0x9E2A83C1 ->
   validate self = Raises (ValueError "Not a valid .uasset file") self' /\
   __cursor self' = __cursor self + 4 /\
   (__cursor self = 0 ->
    parse_meta (__data self) =
      Exception (AssetParseExceptionFrom (ValueError "Not a valid .uasset file")) /\
    parse_string_table (__data self) =
      Exception (AssetParseExceptionFrom (ValueError "Not a valid .uasset file")))) /\
  (magic_number = 0x9E2A83C1 ->
   validate self = Returns tt (mkAssetReader (__data self) 0)).
Proof.
  intros Hread.
  assert (Hself' : self' = mkAssetReader (__data self) (__cursor self + 4)).
  { destruct self as [data c]. rewrite read_uint_eq in Hread.
    destruct (uint_at data c); inversion Hread; reflexivity. }
  split.
  - intros Hne.
    assert (Hv : validate self = Raises (ValueError "Not a valid .uasset file") self').
    { unfold validate. unfold bind. rewrite Hread.
      destruct (Z.eqb_spec magic_number 0x9E2A83C1); [contradiction|reflexivity]. }
    split; [exact Hv|]. split; [subst self'; reflexivity|].
    intros Hc. destruct self as [data c]. simpl in Hc. subst c. simpl.
    split.
    + unfold parse_meta, try_parse, bind. rewrite Hv. reflexivity.
    + unfold parse_string_table, try_parse. unfold bind at 1. rewrite Hv. reflexivity.
  - intros He. unfold validate, bind. rewrite Hread. subst magic_number self'.
    reflexivity.
Qed.

Lemma validate_magic_witness :
  read_uint (mkAssetReader scenario_buffer 0) =
    Returns 0x9E2A83C1 (mkAssetReader scenario_buffer 4) /\
  validate (mkAssetReader scenario_buffer 0) = Returns tt (mkAssetReader scenario_buffer 0) /\
  read_uint (mkAssetReader (x00 :: tl scenario_buffer) 0) =
    Returns 0x9E2A8300 (mkAssetReader (x00 :: tl scenario_buffer) 4) /\
  parse_meta (x00 :: tl scenario_buffer) =
    Exception (AssetParseExceptionFrom (ValueError "Not a valid .uasset file")).
Proof.
  assert (H1 : read_uint (mkAssetReader scenario_buffer 0) =
               Returns 0x9E2A83C1 (mkAssetReader scenario_buffer 4))
    by (vm_compute; reflexivity).
  assert (H2 : read_uint (mkAssetReader (x00 :: tl scenario_buffer) 0) =
               Returns 0x9E2A8300 (mkAssetReader (x00 :: tl scenario_buffer) 4))
    by (vm_compute; reflexivity).
  split; [exact H1|]. split.
  - apply (proj2 (validate_magic _ _ _ H1)). reflexivity.
  - split; [exact H2|].
    destruct (proj1 (validate_magic _ _ _ H2)) as [_ [_ Hp]]; [discriminate|].
    apply Hp. reflexivity.
Defined.

(** ** Claims on the header resolver *)

Lemma resolve_header_Ok (data : bytes) (c : Z) (meta : Meta) (p : Z) :
  resolve_header data c = Ok (meta, p) -> p = 0.
Proof.
  unfold resolve_header, resolve_from.
  destruct (int_at data (c + 4)); [|discriminate].
  destruct (uint_at data (c + 8)); [|discriminate].
  destruct (uint_at data (c + 12)); [|discriminate].
  destruct (uint_at data (c + 16)); [|discriminate].
  destruct (uint_at data (cursor_after_cook _ _ _ + 4)); [|discriminate].
  destruct (uint_at data _); [|discriminate].
  destruct (string_at data _) as [[path_ q]|]; [|discriminate].
  destruct (int_at data _); [|discriminate].
  destruct (string_at data _) as [[guid_ q']|]; [|discriminate].
  intros E. inversion E. reflexivity.
Qed.

Lemma get_asset_meta_Returns (data : bytes) (c : Z) (meta : Meta) (self' : AssetReader) :
  get_asset_meta (mkAssetReader data c) = Returns meta self' ->
  self' = mkAssetReader data 0.
Proof.
  intros E.
  pose proof (Returns_keeps_data _ _ _ _ _ keeps_data_get_asset_meta E) as Hd.
  pose proof (get_asset_meta_resolve_header data c) as Hr.
  rewrite E in Hr. simpl in Hr. symmetry in Hr. apply resolve_header_Ok in Hr.
  rewrite Hd, Hr. reflexivity.
Qed.

(** C7: the header resolver reads every field at the position the
    specification gives it ([resolve_header]); in it, the cursor after the
    candidate [cook_version] is 4 bytes back from the end of that word if and
    only if the word was zero and [file_version] is not [-8], and the cursor
    before [asset_guid] is 4 bytes past the probe word when the probe is zero
    and 4 bytes back from its end (at its start) otherwise. *)
Theorem resolver_cursor_discipline (data : bytes) (c fv cook p v : Z) :
  observe (get_asset_meta (mkAssetReader data c)) = resolve_header data c /\
  (cursor_after_cook c fv cook = (c + 20) - 4 <-> cook = 0 /\ fv <> -8) /\
  (~ (cook = 0 /\ fv <> -8) -> cursor_after_cook c fv cook = c + 20) /\
  (v = 0 -> cursor_before_guid p v = (p + 4) + 4) /\
  (v <> 0 -> cursor_before_guid p v = (p + 4) - 4).
Proof.
  split; [apply get_asset_meta_resolve_header|].
  unfold cursor_after_cook, cursor_before_guid.
  destruct (Z.eqb_spec cook 0), (Z.eqb_spec fv (-8)), (Z.eqb_spec v 0); simpl;
    repeat split; intros; try lia.
Qed.

Lemma resolver_cursor_discipline_witness :
  observe (get_asset_meta (mkAssetReader scenario_buffer 0)) =
    resolve_header scenario_buffer 0 /\
  cursor_after_cook 0 1 0 = 16 /\
  cursor_after_cook 0 1 5 = 20 /\
  cursor_after_cook 0 (-8) 0 = 20 /\
  cursor_before_guid 48 0 = 56 /\
  cursor_before_guid 48 4 = 48.
Proof.
  destruct (resolver_cursor_discipline scenario_buffer 0 1 0 48 0)
    as [Href [Hrewind [_ [Hskip _]]]].
  destruct (resolver_cursor_discipline scenario_buffer 0 1 5 48 4)
    as [_ [_ [Hstay [_ Hback]]]].
  destruct (resolver_cursor_discipline scenario_buffer 0 (-8) 0 48 4)
    as [_ [_ [Hlegacy _]]].
  split; [exact Href|].
  split; [apply (proj2 Hrewind); split; [reflexivity|discriminate]|].
  split; [apply Hstay; intros [H _]; discriminate|].
  split; [apply Hlegacy; intros [_ H]; apply H; reflexivity|].
  split; [apply Hskip; reflexivity|apply Hback; discriminate].
Defined.

(** C5 (as amended): when the forward search for the anchor [40] finds no
    match, [find_int] returns [-1] without raising, and the header resolver
    goes on: it puts the cursor at offset [3 = -1 + 4] and extracts
    [data_offset], [path] and [asset_guid] from there, failing only if one of
    those reads fails. *)
Theorem missing_anchor_continues (data : bytes) (c fv lic ue cook at_ : Z) :
  int_at data (c + 4) = Some fv ->
  uint_at data (c + 8) = Some lic ->
  uint_at data (c + 12) = Some ue ->
  uint_at data (c + 16) = Some cook ->
  uint_at data (cursor_after_cook c fv cook + 4) = Some at_ ->
  bytes_find data anchor_pattern (anchor_search_start c fv cook) = -1 ->
  find_int 40 (mkAssetReader data (anchor_search_start c fv cook)) =
    Returns (-1) (mkAssetReader data (anchor_search_start c fv cook)) /\
  observe (get_asset_meta (mkAssetReader data c)) =
    resolve_from data 3 fv lic ue cook at_.
Proof.
  intros Hfv Hlic Hue Hcook Hat Hfind. split.
  - rewrite find_int_40_eq, Hfind. reflexivity.
  - rewrite get_asset_meta_resolve_header. unfold resolve_header.
    rewrite Hfv, Hlic, Hue, Hcook, Hat, Hfind. reflexivity.
Qed.

Lemma missing_anchor_continues_witness :
  bytes_find no_anchor_buffer anchor_pattern (anchor_search_start 0 16777216 5) = -1 /\
  observe (get_asset_meta (mkAssetReader no_anchor_buffer 0)) =
    resolve_from no_anchor_buffer 3 16777216 0 1 5 1.
Proof.
  assert (Hfind : bytes_find no_anchor_buffer anchor_pattern
                    (anchor_search_start 0 16777216 5) = -1)
    by (vm_compute; reflexivity).
  split; [exact Hfind|].
  refine (proj2 (missing_anchor_continues no_anchor_buffer 0 16777216 0 1 5 1
                   _ _ _ _ _ Hfind)); vm_compute; reflexivity.
Defined.

(** C5 (counterexample): a buffer without any occurrence of the anchor on
    which [parse_meta] nevertheless returns a [Meta]. *)
Lemma missing_anchor_counterexample :
  bytes_find no_anchor_buffer anchor_pattern 0 = -1 /\
  bytes_find no_anchor_buffer anchor_pattern (anchor_search_start 0 16777216 5) = -1 /\
  parse_meta no_anchor_buffer = Ok (mkMeta 16777216 0 1 5 1 158 [] []).
Proof.
  repeat split; vm_compute; reflexivity.
Qed.

(** ** Claims on the string-table decoder *)

Lemma validate_Returns (self self' : AssetReader) (u : unit) :
  validate self = Returns u self' -> self' = mkAssetReader (__data self) 0.
Proof.
  destruct self as [data c]. unfold validate, bind. rewrite read_uint_eq.
  destruct (uint_at data c) as [m|]; [|discriminate].
  destruct (negb (m =? 0x9E2A83C1)); [discriminate|].
  intros E. inversion E. reflexivity.
Qed.

Lemma parse_meta_Ok (data : bytes) (meta : Meta) :
  parse_meta data = Ok meta ->
  validate (mkAssetReader data 0) = Returns tt (mkAssetReader data 0) /\
  get_asset_meta (mkAssetReader data 0) = Returns meta (mkAssetReader data 0).
Proof.
  unfold parse_meta, try_parse, bind.
  destruct (validate (mkAssetReader data 0)) as [[] r1|e r1] eqn:Ev; [|discriminate].
  apply validate_Returns in Ev as Hr1. simpl in Hr1. subst r1.
  destruct (get_asset_meta (mkAssetReader data 0)) as [m r2|e r2] eqn:Eg; [|discriminate].
  apply get_asset_meta_Returns in Eg as Hr2. subst r2.
  intros E. inversion E; subst. split; reflexivity.
Qed.

(** C2 (as amended): when the steps before the loop succeed and the decoded
    entry count is negative, [parse_string_table] returns the empty list:
    [range(count)] is empty, so no entry is read and no bounds check or
    string decode is reached. *)
Theorem negative_count_returns_empty (data : bytes) (count : Z) (self : AssetReader) :
  table_prologue (mkAssetReader data 0) = Returns count self ->
  count < 0 ->
  parse_string_table data = Ok [].
Proof.
  intros Hp Hneg. rewrite parse_string_table_prologue. unfold try_parse, bind.
  rewrite Hp. unfold range. replace (Z.to_nat count) with O by lia. reflexivity.
Qed.

Lemma negative_count_returns_empty_witness :
  table_prologue (mkAssetReader negative_count_buffer 0) =
    Returns (-1) (mkAssetReader negative_count_buffer 138) /\
  -1 < 0 /\
  parse_string_table negative_count_buffer = Ok [].
Proof.
  assert (Hp : table_prologue (mkAssetReader negative_count_buffer 0) =
               Returns (-1) (mkAssetReader negative_count_buffer 138))
    by (vm_compute; reflexivity).
  assert (Hneg : -1 < 0) by lia.
  split; [exact Hp|]. split; [exact Hneg|].
  exact (negative_count_returns_empty negative_count_buffer (-1) _ Hp Hneg).
Defined.

(** C2 (counterexample): a string-table buffer whose count field decodes to
    [-1] and on which [parse_string_table] returns, with the empty list. *)
Lemma negative_count_counterexample :
  observe (table_prologue (mkAssetReader negative_count_buffer 0)) = Ok (-1, 138) /\
  parse_string_table negative_count_buffer = Ok [].
Proof.
  split; vm_compute; reflexivity.
Qed.

(** C4: when the header resolves to [meta] with the string-table asset type
    and the GUID string read from the payload region (at
    [data_offset + 28]) differs from [meta]'s [asset_guid],
    [parse_string_table] fails with the "Asset code mismatch" exception and
    returns no entry; the exception is raised before the loop, with the cursor
    just after the payload GUID, so no key or value has been decoded. *)
Theorem guid_mismatch_fails (data : bytes) (meta : Meta) (guid : str) (p : Z) :
  parse_meta data = Ok meta ->
  asset_type meta = 1 ->
  string_at data (data_offset meta + 28) = Ok (guid, p) ->
  guid <> asset_guid meta ->
  table_prologue (mkAssetReader data 0) =
    Raises (AssetParseException "Asset code mismatch") (mkAssetReader data p) /\
  parse_string_table data =
    Exception (AssetParseExceptionFrom (AssetParseException "Asset code mismatch")).
Proof.
  intros Hmeta Htype Hguid Hne.
  apply parse_meta_Ok in Hmeta as [Hv Hg].
  assert (Hp : table_prologue (mkAssetReader data 0) =
               Raises (AssetParseException "Asset code mismatch") (mkAssetReader data p)).
  { unfold table_prologue.
    reader_step Hv. reader_step Hg. rewrite Htype. cbn [Z.eqb Pos.eqb negb].
    unfold bind at 1. cbn [ret].
    reader_step reset_eq. reader_step skip_eq.
    unfold string_at in Hguid.
    destruct (read_string (mkAssetReader data (data_offset meta + 28)))
      as [g r|e r] eqn:Er; [|discriminate].
    apply (Returns_keeps_data _ _ _ _ _ keeps_data_read_string) in Er as Hr.
    simpl in Hguid. inversion Hguid; subst g p.
    unfold bind at 1. rewrite Er.
    destruct (str_eqb guid (asset_guid meta)) eqn:Eq.
    - apply str_eqb_eq in Eq. contradiction.
    - simpl. unfold bind, raise. rewrite Hr at 1. reflexivity. }
  split; [exact Hp|].
  rewrite parse_string_table_prologue. unfold try_parse, bind. rewrite Hp. reflexivity.
Qed.

Lemma guid_mismatch_fails_witness :
  parse_meta guid_mismatch_buffer = Ok scenario_meta /\
  string_at guid_mismatch_buffer (76 + 28) = Ok (text "ABD", 112) /\
  parse_string_table guid_mismatch_buffer =
    Exception (AssetParseExceptionFrom (AssetParseException "Asset code mismatch")).
Proof.
  assert (Hm : parse_meta guid_mismatch_buffer = Ok scenario_meta)
    by (vm_compute; reflexivity).
  assert (Hs : string_at guid_mismatch_buffer (data_offset scenario_meta + 28) =
               Ok (text "ABD", 112))
    by (vm_compute; reflexivity).
  split; [exact Hm|]. split; [exact Hs|].
  refine (proj2 (guid_mismatch_fails guid_mismatch_buffer scenario_meta
                   (text "ABD") 112 Hm _ Hs _)).
  - reflexivity.
  - vm_compute. discriminate.
Defined.

(** ** Strings: encoding then [read_string] *)

Lemma endswith_nul_snoc (t : str) : endswith_nul (t ++ [0]) = true.
Proof. unfold endswith_nul. rewrite rev_unit. reflexivity. Qed.

Lemma byte_val_of_ascii (c : Z) : is_ascii c = true -> byte_val (byte_of c) = c.
Proof.
  unfold is_ascii. intros H. apply andb_true_iff in H as [H1 H2].
  rewrite byte_val_of. apply Z.mod_small. lia.
Qed.

Lemma decode_ascii_encoded (t : str) :
  forallb is_ascii t = true ->
  decode_ascii (map byte_of t ++ [x00]) = Some (t ++ [0]).
Proof.
  intros Ht. unfold decode_ascii.
  assert (Hmap : map byte_val (map byte_of t ++ [x00]) = t ++ [0]).
  { rewrite map_app. f_equal. induction t as [|c t IH]; [reflexivity|].
    simpl in Ht. apply andb_true_iff in Ht as [Hc Ht].
    simpl. rewrite byte_val_of_ascii, IH; auto. }
  assert (Hall : forallb (fun b => byte_val b <? 128) (map byte_of t ++ [x00]) = true).
  { clear Hmap. rewrite forallb_app. apply andb_true_iff. split; [|reflexivity].
    induction t as [|c t IH]; [reflexivity|].
    simpl in Ht. apply andb_true_iff in Ht as [Hc Ht].
    simpl. rewrite byte_val_of_ascii by exact Hc. rewrite IH by exact Ht.
    unfold is_ascii in Hc. apply andb_true_iff in Hc as [_ Hc]. rewrite Hc. reflexivity. }
  rewrite Hall, Hmap. reflexivity.
Qed.

Lemma read_string_ascii_holds (t : str) (bs data : bytes) (c : Z) :
  encode_ascii_string t = Some bs ->
  holds data c bs ->
  read_string (mkAssetReader data c) = Returns t (mkAssetReader data (c + len bs)).
Proof.
  unfold encode_ascii_string. intros Henc Hholds.
  destruct (forallb is_ascii t) eqn:Ht; [|discriminate].
  destruct (pack_i (len t + 1)) as [prefix|] eqn:Hp; [|discriminate].
  apply pack_i_Some in Hp as [Hrange Hprefix]. simpl in Henc. inversion Henc; subst bs prefix.
  clear Henc.
  pose proof (len_nonneg t) as Hlen.
  rewrite read_string_eq.
  rewrite (int_at_holds data c (len t + 1) Hrange (holds_app_l _ _ _ _ Hholds)).
  unfold string_extent. destruct (Z.ltb_spec (len t + 1) 0); [lia|]. cbn [fst snd].
  apply holds_app_r in Hholds. rewrite len_le_bytes in Hholds. change (Z.of_nat 4) with 4 in Hholds.
  pose proof (slice_holds _ _ _ Hholds) as Hslice.
  assert (Hl : len (map byte_of t ++ [x00]) = len t + 1).
  { rewrite len_app. unfold len. rewrite length_map. reflexivity. }
  rewrite Hl in Hslice. rewrite Hslice.
  unfold unpack_s. rewrite Hl, Z.eqb_refl.
  cbn [decode]. rewrite decode_ascii_encoded by exact Ht.
  rewrite endswith_nul_snoc, removelast_last.
  rewrite len_app, len_le_bytes, Hl. change (Z.of_nat 4) with 4.
  do 2 f_equal. lia.
Qed.

Lemma code_unit_le_bytes (u : Z) :
  is_code_unit u -> code_unit LittleEndian (byte_of u) (byte_of (u / 256)) = u.
Proof.
  unfold is_code_unit. intros Hu. cbn [code_unit]. rewrite !byte_val_of.
  rewrite <- Z.rem_mul_r by lia. apply Z.mod_small. lia.
Qed.

Lemma code_units_utf16le (us : list Z) :
  Forall is_code_unit us -> code_units LittleEndian (utf16le_bytes us) = Some us.
Proof.
  induction 1 as [|u us Hu Hus IH]; [reflexivity|].
  cbn [utf16le_bytes flat_map app code_units]. fold (utf16le_bytes us).
  rewrite IH, code_unit_le_bytes by exact Hu. reflexivity.
Qed.

Lemma len_utf16le_bytes (us : list Z) : len (utf16le_bytes us) = 2 * len us.
Proof.
  unfold len. induction us as [|u us IH]; [reflexivity|].
  cbn [utf16le_bytes flat_map app List.length]. fold (utf16le_bytes us). lia.
Qed.

Lemma is_scalar_spec (c : Z) :
  is_scalar c = true <-> (0 <= c <= 0x10FFFF /\ ~ (0xD800 <= c <= 0xDFFF)).
Proof.
  unfold is_scalar.
  destruct (Z.leb_spec 0 c), (Z.leb_spec c 0x10FFFF), (Z.leb_spec 0xD800 c),
    (Z.leb_spec c 0xDFFF); simpl; split; intros; try discriminate; try lia; auto.
Qed.

Lemma utf16_units_of_range (c : Z) :
  is_scalar c = true -> Forall is_code_unit (utf16_units_of c).
Proof.
  intros Hc. apply is_scalar_spec in Hc as [Hr Hs]. unfold utf16_units_of, is_code_unit.
  destruct (Z.ltb_spec c 0x10000).
  - repeat constructor; lia.
  - assert (0 <= (c - 0x10000) / 1024 < 1024)
      by (split; [apply Z.div_pos; lia | apply Z.div_lt_upper_bound; lia]).
    assert (0 <= (c - 0x10000) mod 1024 < 1024) by (apply Z.mod_pos_bound; lia).
    repeat constructor; lia.
Qed.

Lemma utf16_units_range (t : str) :
  forallb is_scalar t = true -> Forall is_code_unit (utf16_units t).
Proof.
  induction t as [|c t IH]; intros Ht; [constructor|].
  simpl in Ht. apply andb_true_iff in Ht as [Hc Ht].
  cbn [utf16_units flat_map]. apply Forall_app. split.
  - apply utf16_units_of_range. exact Hc.
  - apply IH. exact Ht.
Qed.

Lemma join_surrogates_units (t : str) :
  forallb is_scalar t = true ->
  join_surrogates (utf16_units t ++ [0]) = Some (t ++ [0]).
Proof.
  induction t as [|c t IH]; intros Ht; [reflexivity|].
  simpl in Ht. apply andb_true_iff in Ht as [Hc Ht]. specialize (IH Ht).
  apply is_scalar_spec in Hc as [Hr Hs].
  cbn [utf16_units flat_map]. fold (utf16_units t). unfold utf16_units_of.
  destruct (Z.ltb_spec c 0x10000).
  - cbn [app join_surrogates]. unfold is_high_surrogate, is_low_surrogate.
    destruct (Z.leb_spec 0xD800 c), (Z.leb_spec c 0xDBFF), (Z.leb_spec 0xDC00 c),
      (Z.leb_spec c 0xDFFF); simpl; try lia; rewrite IH; reflexivity.
  - assert (Hq : 0 <= (c - 0x10000) / 1024 < 1024)
      by (split; [apply Z.div_pos; lia | apply Z.div_lt_upper_bound; lia]).
    assert (Hm : 0 <= (c - 0x10000) mod 1024 < 1024) by (apply Z.mod_pos_bound; lia).
    pose proof (Z.div_mod (c - 0x10000) 1024 ltac:(lia)) as Hdm.
    cbn [app join_surrogates]. unfold is_high_surrogate, is_low_surrogate.
    destruct (Z.leb_spec 0xD800 (0xD800 + (c - 0x10000) / 1024)); [|lia].
    destruct (Z.leb_spec (0xD800 + (c - 0x10000) / 1024) 0xDBFF); [|lia].
    destruct (Z.leb_spec 0xDC00 (0xDC00 + (c - 0x10000) mod 1024)); [|lia].
    destruct (Z.leb_spec (0xDC00 + (c - 0x10000) mod 1024) 0xDFFF); [|lia].
    cbn [andb]. rewrite IH. cbn [option_map]. do 2 f_equal. lia.
Qed.

Lemma sniff_bom_plain (u : Z) (us : list Z) :
  is_code_unit u -> u <> 0xFEFF -> u <> 0xFFFE ->
  sniff_bom (utf16le_bytes (u :: us)) = (LittleEndian, utf16le_bytes (u :: us)).
Proof.
  unfold is_code_unit. intros Hu Hfeff Hfffe.
  cbn [utf16le_bytes flat_map app sniff_bom]. fold (utf16le_bytes us).
  assert (Hdm : u = 256 * (u / 256) + u mod 256) by (apply Z.div_mod; lia).
  assert (Hhi : 0 <= u / 256 < 256)
    by (split; [apply Z.div_pos; lia | apply Z.div_lt_upper_bound; lia]).
  assert (Hb : forall z b, Byte.eqb (byte_of z) b = true -> z mod 256 = byte_val b).
  { intros z b E. apply Byte.byte_dec_bl in E. rewrite <- E. symmetry. apply byte_val_of. }
  destruct (Byte.eqb (byte_of u) xff) eqn:E0, (Byte.eqb (byte_of (u / 256)) xfe) eqn:E1;
    destruct (Byte.eqb (byte_of u) xfe) eqn:E2, (Byte.eqb (byte_of (u / 256)) xff) eqn:E3;
    simpl; try reflexivity; exfalso;
    repeat match goal with
           | H : Byte.eqb _ _ = true |- _ => apply Hb in H; vm_compute (byte_val _) in H
           end;
    rewrite ?Z.mod_small in * by lia; lia.
Qed.

Lemma first_unit_plain (t : str) :
  forallb is_scalar t = true -> starts_with_bom t = false ->
  exists u us, utf16_units t ++ [0] = u :: us /\ u <> 0xFEFF /\ u <> 0xFFFE.
Proof.
  destruct t as [|c t]; intros Ht Hb.
  - exists 0, []. repeat split; discriminate.
  - simpl in Ht. apply andb_true_iff in Ht as [Hc _].
    apply is_scalar_spec in Hc as [Hr Hs].
    simpl in Hb. apply orb_false_iff in Hb as [H1 H2].
    apply Z.eqb_neq in H1, H2.
    cbn [utf16_units flat_map]. unfold utf16_units_of.
    destruct (Z.ltb_spec c 0x10000).
    + eexists _, _. split; [reflexivity|]. split; assumption.
    + assert (0 <= (c - 0x10000) / 1024 < 1024)
        by (split; [apply Z.div_pos; lia | apply Z.div_lt_upper_bound; lia]).
      eexists _, _. split; [reflexivity|]. split; lia.
Qed.

Lemma decode_utf16_encoded (t : str) :
  forallb is_scalar t = true -> starts_with_bom t = false ->
  decode_utf16 (utf16le_bytes (utf16_units t ++ [0])) = Some (t ++ [0]).
Proof.
  intros Ht Hb.
  assert (Hunits : Forall is_code_unit (utf16_units t ++ [0])).
  { apply Forall_app. split; [apply utf16_units_range; exact Ht|].
    repeat constructor; unfold is_code_unit; lia. }
  destruct (first_unit_plain t Ht Hb) as [u [us [E [H1 H2]]]].
  unfold decode_utf16. rewrite E in *. rewrite sniff_bom_plain; auto.
  - rewrite code_units_utf16le by exact Hunits. rewrite <- E.
    apply join_surrogates_units. exact Ht.
  - inversion Hunits; assumption.
Qed.

Lemma read_string_utf16_holds (t : str) (bs data : bytes) (c : Z) :
  encode_utf16_string t = Some bs ->
  starts_with_bom t = false ->
  holds data c bs ->
  read_string (mkAssetReader data c) = Returns t (mkAssetReader data (c + len bs)).
Proof.
  unfold encode_utf16_string. intros Henc Hbom Hholds.
  destruct (forallb is_scalar t) eqn:Ht; [|discriminate].
  cbv zeta in Henc.
  destruct (pack_i (- len (utf16_units t ++ [0]))) as [prefix|] eqn:Hp; [|discriminate].
  apply pack_i_Some in Hp as [Hrange Hprefix]. simpl in Henc. inversion Henc; subst bs prefix.
  clear Henc.
  set (us := utf16_units t ++ [0]) in *.
  assert (Hlen : 1 <= len us).
  { unfold us. rewrite len_app. pose proof (len_nonneg (utf16_units t)).
    change (len [0]) with 1. lia. }
  rewrite read_string_eq.
  rewrite (int_at_holds data c (- len us) Hrange (holds_app_l _ _ _ _ Hholds)).
  unfold string_extent. destruct (Z.ltb_spec (- len us) 0); [|lia]. cbn [fst snd].
  apply holds_app_r in Hholds. rewrite len_le_bytes in Hholds. change (Z.of_nat 4) with 4 in Hholds.
  pose proof (slice_holds _ _ _ Hholds) as Hslice.
  rewrite len_utf16le_bytes in Hslice.
  replace (- - len us * 2) with (2 * len us) by lia.
  rewrite Hslice.
  unfold unpack_s. rewrite len_utf16le_bytes, Z.eqb_refl.
  cbn [decode]. unfold us. rewrite decode_utf16_encoded by assumption.
  rewrite endswith_nul_snoc, removelast_last. fold us. do 2 f_equal.
  rewrite (len_app (le_bytes _ _)), len_le_bytes, len_utf16le_bytes.
  change (Z.of_nat 4) with 4. lia.
Qed.

Lemma holds_middle (pre bs post : bytes) : holds (pre ++ bs ++ post) (len pre) bs.
Proof.
  pose proof (holds_here (pre ++ bs) post) as H. rewrite <- app_assoc in H.
  apply holds_app_r in H. exact H.
Qed.

(** C3 (as amended): [read_string] gives back the text that was encoded,
    terminator stripped and cursor just past the string, for every text in the
    single-byte form, and for every text in the wide form that does not begin
    with U+FEFF or U+FFFE; and there are encoded strings whose terminator,
    once changed away from NUL, makes [read_string] raise the "String not
    null terminated" exception. *)
Theorem read_string_roundtrip (t : str) (bs pre post : bytes) :
  (encode_ascii_string t = Some bs ->
   read_string (mkAssetReader (pre ++ bs ++ post) (len pre)) =
     Returns t (mkAssetReader (pre ++ bs ++ post) (len pre + len bs))) /\
  (encode_utf16_string t = Some bs ->
   starts_with_bom t = false ->
   read_string (mkAssetReader (pre ++ bs ++ post) (len pre)) =
     Returns t (mkAssetReader (pre ++ bs ++ post) (len pre + len bs))) /\
  (exists t' bs' b,
     encode_ascii_string t' = Some bs' /\ b <> x00 /\
     read_string (mkAssetReader (removelast bs' ++ [b]) 0) =
       Raises (AssetParseException "String not null terminated")
              (mkAssetReader (removelast bs' ++ [b]) 4)) /\
  (exists t' bs' b,
     encode_utf16_string t' = Some bs' /\ b <> x00 /\
     read_string (mkAssetReader (removelast (removelast bs') ++ [b; x00]) 0) =
       Raises (AssetParseException "String not null terminated")
              (mkAssetReader (removelast (removelast bs') ++ [b; x00]) 4)).
Proof.
  split; [|split; [|split]].
  - intros Henc. apply read_string_ascii_holds with (1 := Henc). apply holds_middle.
  - intros Henc Hbom. apply read_string_utf16_holds with (1 := Henc) (2 := Hbom).
    apply holds_middle.
  - exists (text "A"), [x02; x00; x00; x00; x41; x00], x42.
    split; [reflexivity|]. split; [discriminate|reflexivity].
  - exists [0x3A9], [xfe; xff; xff; xff; xa9; x03; x00; x00], x42.
    split; [reflexivity|]. split; [discriminate|reflexivity].
Qed.

Lemma read_string_roundtrip_witness :
  (encode_ascii_string (text "/Game/X") =
     Some [x08; x00; x00; x00; x2f; x47; x61; x6d; x65; x2f; x58; x00] /\
   read_string (mkAssetReader
     ([xaa] ++ [x08; x00; x00; x00; x2f; x47; x61; x6d; x65; x2f; x58; x00] ++ [xbb]) 1) =
     Returns (text "/Game/X") (mkAssetReader
     ([xaa] ++ [x08; x00; x00; x00; x2f; x47; x61; x6d; x65; x2f; x58; x00] ++ [xbb]) 13)) /\
  (encode_utf16_string [0x3A9; 0x1F600] =
     Some [xfc; xff; xff; xff; xa9; x03; x3d; xd8; x00; xde; x00; x00] /\
   starts_with_bom [0x3A9; 0x1F600] = false /\
   read_string (mkAssetReader
     ([xaa] ++ [xfc; xff; xff; xff; xa9; x03; x3d; xd8; x00; xde; x00; x00] ++ [xbb]) 1) =
     Returns [0x3A9; 0x1F600] (mkAssetReader
     ([xaa] ++ [xfc; xff; xff; xff; xa9; x03; x3d; xd8; x00; xde; x00; x00] ++ [xbb]) 13)).
Proof.
  assert (Ha : encode_ascii_string (text "/Game/X") =
               Some [x08; x00; x00; x00; x2f; x47; x61; x6d; x65; x2f; x58; x00])
    by (vm_compute; reflexivity).
  assert (Hw : encode_utf16_string [0x3A9; 0x1F600] =
               Some [xfc; xff; xff; xff; xa9; x03; x3d; xd8; x00; xde; x00; x00])
    by (vm_compute; reflexivity).
  assert (Hb : starts_with_bom [0x3A9; 0x1F600] = false) by reflexivity.
  split.
  - split; [exact Ha|].
    exact (proj1 (read_string_roundtrip (text "/Game/X") _ [xaa] [xbb]) Ha).
  - split; [exact Hw|]. split; [exact Hb|].
    exact (proj1 (proj2 (read_string_roundtrip [0x3A9; 0x1F600] _ [xaa] [xbb])) Hw Hb).
Defined.

(** C3 (counterexample): the text U+FEFF "A", encoded in the wide form with
    prefix [-3], comes back from [read_string] as "A": the codec takes the
    leading [FF FE] for a byte order mark and drops it. *)
Lemma read_string_bom_counterexample :
  encode_utf16_string bom_text = Some bom_text_buffer /\
  read_string (mkAssetReader bom_text_buffer 0) =
    Returns [0x41] (mkAssetReader bom_text_buffer 10) /\
  [0x41] <> bom_text.
Proof.
  split; [vm_compute; reflexivity|]. split; [vm_compute; reflexivity|discriminate].
Qed.

(** ** Test buffers through [parse_meta] *)

Lemma concat_fields_cons (f : option bytes) (rest : list (option bytes)) (d : bytes) :
  concat_fields (f :: rest) = Some d ->
  exists a b, f = Some a /\ concat_fields rest = Some b /\ d = a ++ b.
Proof.
  simpl. destruct f as [a|]; [|discriminate].
  destruct (concat_fields rest) as [b|]; [|discriminate].
  intros E. inversion E. exists a, b. auto.
Qed.

Lemma holds_field (data : bytes) (c k : Z) (f rest : bytes) :
  len f = k -> holds data c (f ++ rest) -> holds data c f /\ holds data (c + k) rest.
Proof.
  intros Hk H. subst k. split; [eapply holds_app_l|eapply holds_app_r]; exact H.
Qed.

Lemma string_at_holds (t : str) (bs data : bytes) (c : Z) :
  encode_string t = Some bs ->
  starts_with_bom t = false ->
  holds data c bs ->
  string_at data c = Ok (t, c + len bs).
Proof.
  unfold encode_string, string_at. intros Henc Hbom Hholds.
  destruct (forallb is_ascii t).
  - rewrite (read_string_ascii_holds t bs data c Henc Hholds). reflexivity.
  - rewrite (read_string_utf16_holds t bs data c Henc Hbom Hholds). reflexivity.
Qed.

Lemma encode_string_prefix (t : str) (bs : bytes) :
  encode_string t = Some bs ->
  exists n body, bs = le_bytes 4 n ++ body /\ - 2 ^ 31 <= n < 2 ^ 31 /\ n <> 0.
Proof.
  unfold encode_string, encode_ascii_string, encode_utf16_string.
  destruct (forallb is_ascii t).
  - destruct (pack_i (len t + 1)) as [prefix|] eqn:Hp; [|discriminate].
    apply pack_i_Some in Hp as [Hr Hprefix]. subst prefix.
    intros E. inversion E. eexists _, _. split; [reflexivity|].
    pose proof (len_nonneg t). split; lia.
  - destruct (forallb is_scalar t); [|discriminate]. cbv zeta.
    destruct (pack_i (- len (utf16_units t ++ [0]))) as [prefix|] eqn:Hp; [|discriminate].
    apply pack_i_Some in Hp as [Hr Hprefix]. subst prefix.
    intros E. inversion E. eexists _, _. split; [reflexivity|].
    rewrite len_app in *. pose proof (len_nonneg (utf16_units t)).
    change (len [0]) with 1 in *. split; lia.
Qed.

Lemma len_holds (data : bytes) (c : Z) (bs : bytes) :
  holds data c bs -> c + len bs <= len data \/ bs = [].
Proof.
  intros [Hc [rest E]].
  assert (Hl : List.length (skipn (Z.to_nat c) data) = (List.length bs + List.length rest)%nat)
    by (rewrite E; apply length_app).
  rewrite length_skipn in Hl. unfold len.
  destruct bs; [right; reflexivity|left]. simpl in *. lia.
Qed.

Lemma bytes_find_here (data : bytes) (c : Z) :
  holds data c anchor_pattern -> bytes_find data anchor_pattern c = c.
Proof.
  intros H. pose proof (len_holds _ _ _ H) as [Hl|Hl]; [|discriminate].
  destruct H as [Hc [rest E]]. unfold bytes_find.
  destruct (Z.ltb_spec c 0); [lia|].
  change (len anchor_pattern) with 4 in *.
  destruct (Z.ltb_spec (len data - c) 4); [lia|].
  rewrite E. simpl. lia.
Qed.

Lemma resolve_from_Ok (data : bytes) (pos fv lic ue cook at_ : Z) (m : Meta) (p : Z) :
  resolve_from data pos fv lic ue cook at_ = Ok (m, p) ->
  file_version m = fv /\ cook_version m = cook /\ asset_type m = at_.
Proof.
  unfold resolve_from.
  destruct (uint_at data pos); [|discriminate].
  destruct (string_at data _) as [[path_ q]|]; [|discriminate].
  destruct (int_at data _); [|discriminate].
  destruct (string_at data _) as [[guid_ q']|]; [|discriminate].
  intros E. inversion E. simpl. auto.
Qed.

Lemma parse_meta_resolve_header (data : bytes) (m : Meta) :
  uint_at data 0 = Some 0x9E2A83C1 ->
  (parse_meta data = Ok m <-> resolve_header data 0 = Ok (m, 0)).
Proof.
  intros Hmagic.
  assert (Hv : validate (mkAssetReader data 0) = Returns tt (mkAssetReader data 0)).
  { unfold validate, bind. rewrite read_uint_eq, Hmagic. reflexivity. }
  pose proof (get_asset_meta_resolve_header data 0) as Hr.
  unfold parse_meta, try_parse, bind. rewrite Hv.
  destruct (get_asset_meta (mkAssetReader data 0)) as [m' r|e r] eqn:Eg.
  - apply get_asset_meta_Returns in Eg. subst r. simpl in Hr. rewrite <- Hr.
    split; intros E; inversion E; reflexivity.
  - simpl in Hr. rewrite <- Hr. split; discriminate.
Qed.

Lemma holds_field_at (data : bytes) (c k c' : Z) (f rest : bytes) :
  holds data c (f ++ rest) -> len f = k -> c' = c + k ->
  holds data c f /\ holds data c' rest.
Proof.
  intros H Hk Hc. subst c'. apply holds_field; assumption.
Qed.

Lemma pad_offset_cases (m : Meta) :
  (cook_absent m = true /\ cook_version m = 0 /\ pad_offset m = 16) \/
  (cook_absent m = false /\ pad_offset m = 20).
Proof.
  unfold pad_offset, cursor_after_cook, cook_absent.
  destruct (Z.eqb_spec (cook_version m) 0), (Z.eqb_spec (file_version m) (-8));
    cbn [andb negb]; lia.
Qed.

Lemma build_header_layout (m : Meta) (data tail : bytes) :
  build_header m = Some data ->
  exists path_bs guid_bs, header_layout m (data ++ tail) path_bs guid_bs.
Proof.
  unfold build_header. intros H.
  apply concat_fields_cons in H as (f1 & r1 & E1 & H & ->).
  apply concat_fields_cons in H as (f2 & r2 & E2 & H & ->).
  apply concat_fields_cons in H as (f3 & r3 & E3 & H & ->).
  apply concat_fields_cons in H as (f4 & r4 & E4 & H & ->).
  apply concat_fields_cons in H as (f5 & r5 & E5 & H & ->).
  apply concat_fields_cons in H as (f6 & r6 & E6 & H & ->).
  apply concat_fields_cons in H as (f7 & r7 & E7 & H & ->).
  apply concat_fields_cons in H as (f8 & r8 & E8 & H & ->).
  apply concat_fields_cons in H as (f9 & r9 & E9 & H & ->).
  apply concat_fields_cons in H as (f10 & r10 & E10 & H & ->).
  apply concat_fields_cons in H as (f11 & r11 & E11 & H & ->).
  apply concat_fields_cons in H as (f12 & r12 & E12 & H & ->).
  apply concat_fields_cons in H as (f13 & r13 & E13 & H & ->).
  simpl in H. inversion H; subst r13. clear H.
  apply pack_I_Some in E1 as [_ ->].
  apply pack_i_Some in E2 as [Hfv ->].
  apply pack_I_Some in E3 as [Hlic ->].
  apply pack_I_Some in E4 as [Hue ->].
  inversion E6; subst f6. clear E6.
  apply pack_I_Some in E7 as [Hat ->].
  apply pack_i_Some in E8 as [_ ->].
  apply pack_I_Some in E9 as [Hdo ->].
  inversion E11; subst f11. clear E11.
  assert (E12' : f12 = if file_version m =? -8 then [] else le_bytes 4 0 ++ zeros 4).
  { destruct (file_version m =? -8); inversion E12; reflexivity. }
  subst f12. clear E12.
  rewrite app_nil_r.
  match goal with |- context [header_layout m (?whole ++ tail)] =>
    pose proof (holds_here whole tail) as H0 end.
  destruct (holds_field_at _ 0 4 4 _ _ H0 eq_refl eq_refl) as [Hmagic H1].
  destruct (holds_field_at _ 4 4 8 _ _ H1 eq_refl eq_refl) as [Hfv_at H2].
  destruct (holds_field_at _ 8 4 12 _ _ H2 eq_refl eq_refl) as [Hlic_at H3].
  destruct (holds_field_at _ 12 4 16 _ _ H3 eq_refl eq_refl) as [Hue_at H4].
  set (b := pad_offset m).
  match type of H4 with holds ?d 16 (_ ++ ?rest) =>
    assert (Hcut : 0 <= cook_version m < 2 ^ 32 /\
                   holds d 16 (le_bytes 4 (cook_version m)) /\
                   holds d b rest) end.
  { subst b. destruct (pad_offset_cases m) as [(Ha & Hc & ->)|(Ha & ->)];
      rewrite Ha in E5.
    - inversion E5; subst f5. cbn [app] in H4. rewrite Hc.
      split; [lia|]. split; [|exact H4].
      eapply holds_app_l. exact H4.
    - apply pack_I_Some in E5 as [Hcook ->].
      destruct (holds_field_at _ 16 4 20 _ _ H4 eq_refl eq_refl) as [Hcook_at H5].
      split; [exact Hcook|]. split; [exact Hcook_at|exact H5]. }
  destruct Hcut as (Hcook & Hcook_at & H5).
  destruct (holds_field_at _ b 4 (b + 4) _ _ H5 eq_refl eq_refl) as [_ H6].
  destruct (holds_field_at _ (b + 4) 4 (b + 8) _ _ H6 eq_refl ltac:(lia))
    as [Hat_at H7].
  destruct (holds_field_at _ (b + 8) 4 (b + 12) _ _ H7 eq_refl ltac:(lia))
    as [Hanchor_at H8].
  destruct (holds_field_at _ (b + 12) 4 (b + 16) _ _ H8 eq_refl ltac:(lia))
    as [Hdo_at H9].
  destruct (holds_field_at _ (b + 16) (len f10) (b + 16 + len f10) _ _ H9 eq_refl eq_refl)
    as [Hpath_at H10].
  destruct (holds_field_at _ (b + 16 + len f10) 12 (b + 16 + len f10 + 12) _ _
              H10 eq_refl eq_refl) as [_ H11].
  exists f10, f13. constructor; assumption.
Qed.

Lemma resolve_from_built (m : Meta) (d path_bs guid_bs : bytes) (fv lic ue cook at_ : Z) :
  header_layout m d path_bs guid_bs ->
  starts_with_bom (path m) = false ->
  starts_with_bom (asset_guid m) = false ->
  resolve_from d (pad_offset m + 12) fv lic ue cook at_ =
  Ok (mkMeta fv lic ue cook at_ (data_offset m) (path m) (asset_guid m), 0).
Proof.
  intros L Hbp Hbg. destruct L. unfold resolve_from.
  set (b := pad_offset m) in *.
  rewrite (uint_at_holds d (b + 12) _ hl_do_range0 hl_do0).
  replace (b + 12 + 4) with (b + 16) by lia.
  rewrite (string_at_holds _ _ d (b + 16) hl_path0 Hbp hl_path_at0).
  set (q := b + 16 + len path_bs + 12) in *.
  destruct (encode_string_prefix _ _ hl_guid0) as (n & body & Egb & Hn & Hn0).
  destruct (file_version m =? -8).
  - cbn [app] in hl_tail0.
    assert (Hprobe : int_at d q = Some n).
    { apply int_at_holds; [exact Hn|]. rewrite Egb in hl_tail0.
      eapply holds_app_l. exact hl_tail0. }
    rewrite Hprobe. unfold cursor_before_guid.
    destruct (Z.eqb_spec n 0); [contradiction|].
    replace (q + 4 - 4) with q by lia.
    rewrite (string_at_holds _ _ d q hl_guid0 Hbg hl_tail0). reflexivity.
  - destruct (holds_field_at _ q 8 (q + 8) _ _ hl_tail0 eq_refl eq_refl) as [Hp Hg].
    assert (Hprobe : int_at d q = Some 0).
    { apply int_at_holds; [lia|]. eapply holds_app_l. exact Hp. }
    rewrite Hprobe. unfold cursor_before_guid. cbn [Z.eqb].
    replace (q + 4 + 4) with (q + 8) by lia.
    rewrite (string_at_holds _ _ d (q + 8) hl_guid0 Hbg Hg). reflexivity.
Qed.

Lemma parse_meta_built (m : Meta) (header tail : bytes) :
  build_header m = Some header ->
  starts_with_bom (path m) = false ->
  starts_with_bom (asset_guid m) = false ->
  parse_meta (header ++ tail) = Ok m.
Proof.
  intros Hbuild Hbp Hbg.
  destruct (build_header_layout m header tail Hbuild) as (path_bs & guid_bs & L).
  set (d := header ++ tail) in *.
  pose proof (resolve_from_built m d path_bs guid_bs) as Hfrom.
  specialize (fun fv lic ue cook at_ => Hfrom fv lic ue cook at_ L Hbp Hbg).
  destruct L.
  apply parse_meta_resolve_header; [apply uint_at_holds; [lia|exact hl_magic0]|].
  unfold resolve_header.
  change (0 + 4) with 4. change (0 + 8) with 8. change (0 + 12) with 12.
  change (0 + 16) with 16.
  rewrite (int_at_holds d 4 _ hl_fv_range0 hl_fv0).
  rewrite (uint_at_holds d 8 _ hl_lic_range0 hl_lic0).
  rewrite (uint_at_holds d 12 _ hl_ue_range0 hl_ue0).
  rewrite (uint_at_holds d 16 _ hl_cook_range0 hl_cook0).
  unfold anchor_search_start. fold (pad_offset m).
  rewrite (uint_at_holds d (pad_offset m + 4) _ hl_at_range0 hl_at0).
  rewrite (bytes_find_here d (pad_offset m + 8) hl_anchor0).
  replace (pad_offset m + 8 + 4) with (pad_offset m + 12) by lia.
  rewrite Hfrom. destruct m. reflexivity.
Qed.

(** C1 (as amended): on a minimal test buffer built from the fields of [m]
    (any bytes may follow it), with [path] and [asset_guid] not beginning with
    U+FEFF or U+FFFE, [parse_meta] returns exactly [m]: in the legacy layout
    ([file_version = -8]) and in the general layout, with the cook word
    present or, for [cook_version = 0], absent. *)
Theorem parse_meta_roundtrip (m : Meta) (data tail : bytes) :
  build_header m = Some data ->
  starts_with_bom (path m) = false ->
  starts_with_bom (asset_guid m) = false ->
  parse_meta (data ++ tail) = Ok m.
Proof.
  exact (parse_meta_built m data tail).
Qed.

Lemma parse_meta_roundtrip_witness :
  (build_header scenario_meta = Some scenario_header /\
   parse_meta (scenario_header ++ []) = Ok scenario_meta) /\
  (build_header cook_zero_meta = Some cook_zero_header /\
   parse_meta (cook_zero_header ++ [xaa]) = Ok cook_zero_meta) /\
  (build_header legacy_meta = Some legacy_header /\
   parse_meta (legacy_header ++ [xaa; xbb]) = Ok legacy_meta).
Proof.
  assert (Hs : build_header scenario_meta = Some scenario_header)
    by (vm_compute; reflexivity).
  assert (Hz : build_header cook_zero_meta = Some cook_zero_header)
    by (vm_compute; reflexivity).
  assert (Hl : build_header legacy_meta = Some legacy_header)
    by (vm_compute; reflexivity).
  split; [|split].
  - split; [exact Hs|].
    exact (parse_meta_roundtrip scenario_meta scenario_header [] Hs eq_refl eq_refl).
  - split; [exact Hz|].
    exact (parse_meta_roundtrip cook_zero_meta cook_zero_header [xaa] Hz eq_refl eq_refl).
  - split; [exact Hl|].
    exact (parse_meta_roundtrip legacy_meta legacy_header [xaa; xbb] Hl eq_refl eq_refl).
Defined.

(** C1 (counterexample): the scenario's fields with the path U+FEFF "A": the
    buffer is built, the header resolves, and the path [parse_meta] returns is
    "A": the codec took the leading U+FEFF for a byte-order mark and dropped
    it, so the [Meta] is not the one the buffer was built from. *)
Lemma parse_meta_bom_counterexample :
  build_header bom_path_meta = Some bom_path_header /\
  parse_meta bom_path_header = Ok (mkMeta 1 0 0 5 1 76 [0x41] (text "ABC")) /\
  parse_meta bom_path_header <> Ok bom_path_meta.
Proof.
  split; [vm_compute; reflexivity|].
  split; [vm_compute; reflexivity|].
  vm_compute. discriminate.
Qed.

(** * Further properties of the reader *)

(** ** Words and their bytes *)

Lemma le_uint_range (bs : bytes) : 0 <= le_uint bs < 256 ^ len bs.
Proof.
  unfold len. induction bs as [|b bs IH].
  - simpl. lia.
  - change (le_uint (b :: bs)) with (byte_val b + 256 * le_uint bs).
    cbn [List.length]. rewrite Nat2Z.inj_succ, Z.pow_succ_r by lia.
    pose proof (byte_val_range b). lia.
Qed.

Lemma le_bytes_le_uint (bs : bytes) : le_bytes (List.length bs) (le_uint bs) = bs.
Proof.
  induction bs as [|b bs IH]; [reflexivity|].
  change (le_uint (b :: bs)) with (byte_val b + 256 * le_uint bs).
  cbn [List.length le_bytes]. pose proof (byte_val_range b) as Hb.
  assert (Hmod : (byte_val b + 256 * le_uint bs) mod 256 = byte_val b).
  { rewrite (Z.mul_comm 256), Z.mod_add by lia. apply Z.mod_small. lia. }
  assert (Hdiv : (byte_val b + 256 * le_uint bs) / 256 = le_uint bs).
  { rewrite (Z.mul_comm 256), Z.div_add by lia.
    rewrite Z.div_small by lia. lia. }
  rewrite Hdiv, IH. f_equal.
  unfold byte_of. rewrite Hmod. unfold byte_val. rewrite N2Z.id, Byte.of_to_N. reflexivity.
Qed.

Lemma len_4_length (bs : bytes) : (len bs =? 4) = true -> List.length bs = 4%nat.
Proof. unfold len. intros H. apply Z.eqb_eq in H. lia. Qed.

Lemma unpack_I_Some (bs : bytes) (v : Z) :
  unpack_I bs = Some v -> 0 <= v < 2 ^ 32 /\ bs = le_bytes 4 v.
Proof.
  unfold unpack_I. destruct (len bs =? 4) eqn:E; [|discriminate].
  intros H. inversion H; subst v. clear H.
  pose proof (le_uint_range bs) as Hr. apply Z.eqb_eq in E as E'. rewrite E' in Hr.
  split; [exact Hr|].
  pose proof (le_bytes_le_uint bs) as Hb. rewrite (len_4_length bs E) in Hb.
  symmetry. exact Hb.
Qed.

Lemma le_bytes_4_mod (v : Z) : le_bytes 4 v = le_bytes 4 (v mod 2 ^ 32).
Proof.
  pose proof (le_bytes_le_uint (le_bytes 4 v)) as H.
  rewrite le_uint_le_bytes in H. symmetry. exact H.
Qed.

Lemma le_bytes_4_wrap (v : Z) : le_bytes 4 (v - 2 ^ 32) = le_bytes 4 v.
Proof.
  rewrite (le_bytes_4_mod (v - 2 ^ 32)), (le_bytes_4_mod v). f_equal.
  replace (v - 2 ^ 32) with (v + (-1) * 2 ^ 32) by lia.
  apply Z.mod_add. lia.
Qed.

Lemma unpack_i_Some (bs : bytes) (v : Z) :
  unpack_i bs = Some v -> - 2 ^ 31 <= v < 2 ^ 31 /\ bs = le_bytes 4 v.
Proof.
  unfold unpack_i. destruct (len bs =? 4) eqn:E; [|discriminate].
  cbv zeta.
  pose proof (le_uint_range bs) as Hr. apply Z.eqb_eq in E as E'. rewrite E' in Hr.
  change (256 ^ 4) with (2 ^ 32) in Hr.
  assert (Hbs : bs = le_bytes 4 (le_uint bs)).
  { pose proof (le_bytes_le_uint bs) as Hb. rewrite (len_4_length bs E) in Hb.
    symmetry. exact Hb. }
  destruct (Z.ltb_spec (le_uint bs) (2 ^ 31)) as [Hlt|Hge]; intros Hv; inversion Hv; subst v.
  - split; [lia|exact Hbs].
  - split; [lia|]. rewrite le_bytes_4_wrap. exact Hbs.
Qed.

Lemma unpack_i_unpack_I (bs : bytes) :
  unpack_i bs = option_map (fun u => if u <? 2 ^ 31 then u else u - 2 ^ 32) (unpack_I bs).
Proof.
  unfold unpack_i, unpack_I. destruct (len bs =? 4); reflexivity.
Qed.

(** ** Slices from a non-negative position *)

Lemma slice_from (data : bytes) (p k : Z) :
  0 <= p -> 0 <= k ->
  slice data p (p + k) = firstn (Z.to_nat k) (skipn (Z.to_nat p) data).
Proof.
  intros Hp Hk. unfold slice, clamp_index. fold (len data).
  destruct (Z.ltb_spec p 0); [lia|]. destruct (Z.ltb_spec (p + k) 0); [lia|].
  unfold len.
  destruct (Z_le_gt_dec p (Z.of_nat (List.length data))) as [Hle|Hgt].
  - rewrite (Z.min_l p) by lia.
    destruct (Z_le_gt_dec (p + k) (Z.of_nat (List.length data))) as [Hle2|Hgt2].
    + rewrite Z.min_l by lia. f_equal. lia.
    + rewrite Z.min_r by lia.
      rewrite !firstn_all2; try reflexivity; rewrite length_skipn; lia.
  - rewrite !skipn_all2 by lia. rewrite !firstn_nil. reflexivity.
Qed.

Lemma holds_iff_starts_with (data : bytes) (p : Z) (bs : bytes) :
  holds data p bs <-> 0 <= p /\ starts_with bs (skipn (Z.to_nat p) data) = true.
Proof.
  assert (Hsw : forall sub l, starts_with sub l = true <-> exists rest, l = sub ++ rest).
  { induction sub as [|x sub IH]; intros l.
    - split; [intros _; exists l; reflexivity|reflexivity].
    - destruct l as [|y l]; simpl.
      + split; [discriminate|intros [rest E]; discriminate].
      + rewrite andb_true_iff, IH. split.
        * intros [Hxy [rest E]]. apply Byte.byte_dec_bl in Hxy. subst. eauto.
        * intros [rest E]. inversion E; subst. split; [apply Byte.byte_dec_lb; reflexivity|eauto]. }
  unfold holds. rewrite Hsw. reflexivity.
Qed.

Lemma holds_of_slice (data : bytes) (p : Z) (bs : bytes) :
  0 <= p -> slice data p (p + len bs) = bs -> holds data p bs.
Proof.
  intros Hp E. rewrite slice_from in E by (auto using len_nonneg).
  split; [exact Hp|]. exists (skipn (List.length bs) (skipn (Z.to_nat p) data)).
  unfold len in E. rewrite Nat2Z.id in E.
  pose proof (firstn_skipn (List.length bs) (skipn (Z.to_nat p) data)) as Hfs.
  rewrite E in Hfs. symmetry. exact Hfs.
Qed.

Lemma int_at_Some (data : bytes) (p v : Z) :
  0 <= p -> int_at data p = Some v ->
  - 2 ^ 31 <= v < 2 ^ 31 /\ holds data p (le_bytes 4 v) /\ p + 4 <= len data.
Proof.
  unfold int_at. intros Hp E. apply unpack_i_Some in E as [Hv E].
  split; [exact Hv|].
  assert (Hh : holds data p (le_bytes 4 v)).
  { apply holds_of_slice; [exact Hp|]. rewrite len_le_bytes. exact E. }
  split; [exact Hh|]. apply len_holds in Hh as [Hl|Hl]; [|discriminate].
  rewrite len_le_bytes in Hl. exact Hl.
Qed.

Lemma uint_at_Some (data : bytes) (p v : Z) :
  0 <= p -> uint_at data p = Some v ->
  0 <= v < 2 ^ 32 /\ holds data p (le_bytes 4 v) /\ p + 4 <= len data.
Proof.
  unfold uint_at. intros Hp E. apply unpack_I_Some in E as [Hv E].
  split; [exact Hv|].
  assert (Hh : holds data p (le_bytes 4 v)).
  { apply holds_of_slice; [exact Hp|]. rewrite len_le_bytes. exact E. }
  split; [exact Hh|]. apply len_holds in Hh as [Hl|Hl]; [|discriminate].
  rewrite len_le_bytes in Hl. exact Hl.
Qed.

(** ** Forward and backward search *)

Lemma search_Some (sub l : bytes) (i : nat) :
  search sub l = Some i ->
  starts_with sub (skipn i l) = true /\
  forall j, (j < i)%nat -> starts_with sub (skipn j l) = false.
Proof.
  revert i. induction l as [|x l IH]; intros i; simpl.
  - destruct (starts_with sub []) eqn:E; [|discriminate].
    intros H. inversion H; subst. split; [exact E|]. intros j Hj. lia.
  - destruct (starts_with sub (x :: l)) eqn:E.
    + intros H. inversion H; subst. split; [exact E|]. intros j Hj. lia.
    + destruct (search sub l) as [i'|] eqn:Es; [|discriminate].
      intros H. inversion H; subst. destruct (IH i' eq_refl) as [H1 H2].
      split; [exact H1|]. intros [|j] Hj; [exact E|]. apply H2. lia.
Qed.

Lemma search_None (sub l : bytes) :
  search sub l = None -> forall j, starts_with sub (skipn j l) = false.
Proof.
  induction l as [|x l IH]; simpl.
  - destruct (starts_with sub []) eqn:E; [discriminate|].
    intros _ j. rewrite skipn_nil. exact E.
  - destruct (starts_with sub (x :: l)) eqn:E; [discriminate|].
    destruct (search sub l) as [i'|] eqn:Es; [discriminate|].
    intros _ [|j]; [exact E|]. apply IH. reflexivity.
Qed.

Lemma rsearch_Some (sub l : bytes) (i : nat) :
  rsearch sub l = Some i ->
  (i <= List.length l)%nat /\
  starts_with sub (skipn i l) = true /\
  forall j, starts_with sub (skipn j l) = true -> (j <= List.length l)%nat -> (j <= i)%nat.
Proof.
  revert i. induction l as [|x l IH]; intros i; simpl.
  - destruct sub; [|discriminate]. intros H. inversion H; subst.
    split; [lia|]. split; [reflexivity|]. intros j _ Hj. simpl in Hj. lia.
  - destruct (rsearch sub l) as [i'|] eqn:Er.
    + intros H. inversion H; subst. destruct (IH i' eq_refl) as [H0 [H1 H2]].
      split; [lia|]. split; [exact H1|].
      intros [|j] Hj Hl; [lia|]. apply le_n_S. apply H2; [exact Hj|lia].
    + destruct (starts_with sub (x :: l)) eqn:E; [|discriminate].
      intros H. inversion H; subst. split; [lia|]. split; [exact E|].
      intros [|j] Hj Hl; [lia|]. exfalso.
      assert (Hnone : forall l' k, rsearch sub l' = None ->
                                   starts_with sub (skipn k l') = false).
      { clear. induction l' as [|y l' IH']; intros k; simpl.
        - destruct sub; [discriminate|]. intros _. rewrite skipn_nil. reflexivity.
        - destruct (rsearch sub l') eqn:E'; [discriminate|].
          destruct (starts_with sub (y :: l')) eqn:E2; [discriminate|].
          intros _. destruct k; [exact E2|]. apply IH'. reflexivity. }
      simpl in Hj. rewrite (Hnone l j Er) in Hj. discriminate.
Qed.

Lemma rsearch_None (sub l : bytes) :
  rsearch sub l = None -> forall j, starts_with sub (skipn j l) = false.
Proof.
  induction l as [|y l IH]; intros H j; simpl in H.
  - destruct sub; [discriminate|]. rewrite skipn_nil. reflexivity.
  - destruct (rsearch sub l) eqn:E'; [discriminate|].
    destruct (starts_with sub (y :: l)) eqn:E2; [discriminate|].
    destruct j; [exact E2|]. apply IH. reflexivity.
Qed.

Lemma skipn_add_Z (data : bytes) (a : Z) (i : nat) :
  0 <= a -> skipn (Z.to_nat (a + Z.of_nat i)) data = skipn i (skipn (Z.to_nat a) data).
Proof.
  intros Ha. rewrite skipn_skipn. f_equal. lia.
Qed.

Lemma bytes_find_spec (data sub : bytes) (c : Z) :
  0 <= c -> sub <> [] ->
  (bytes_find data sub c = -1 \/
   (c <= bytes_find data sub c /\ holds data (bytes_find data sub c) sub)) /\
  (forall q, c <= q -> holds data q sub ->
             bytes_find data sub c <> -1 /\ bytes_find data sub c <= q).
Proof.
  intros Hc Hsub. unfold bytes_find.
  destruct (Z.ltb_spec c 0); [lia|].
  destruct (Z.ltb_spec (len data - c) (len sub)) as [Hshort|Hlong].
  - split; [left; reflexivity|]. intros q Hq Hh. exfalso.
    apply len_holds in Hh as [Hl|Hl]; [lia|contradiction].
  - destruct (search sub (skipn (Z.to_nat c) data)) as [i|] eqn:Es.
    + apply search_Some in Es as [Hi Hmin]. split.
      * right. split; [lia|]. apply holds_iff_starts_with. split; [lia|].
        rewrite skipn_add_Z by lia. exact Hi.
      * intros q Hq Hh. split; [lia|].
        apply holds_iff_starts_with in Hh as [_ Hh].
        replace q with (c + Z.of_nat (Z.to_nat (q - c))) in Hh by lia.
        rewrite skipn_add_Z in Hh by lia.
        destruct (Nat.lt_ge_cases (Z.to_nat (q - c)) i) as [Hlt|Hge]; [|lia].
        rewrite (Hmin _ Hlt) in Hh. discriminate.
    + split; [left; reflexivity|]. intros q Hq Hh. exfalso.
      apply holds_iff_starts_with in Hh as [_ Hh].
      replace q with (c + Z.of_nat (Z.to_nat (q - c))) in Hh by lia.
      rewrite skipn_add_Z in Hh by lia.
      rewrite (search_None _ _ Es) in Hh. discriminate.
Qed.

Lemma search_le (sub l : bytes) (i : nat) :
  search sub l = Some i -> (i <= List.length l)%nat.
Proof.
  revert i. induction l as [|x l IH]; intros i; simpl.
  - destruct (starts_with sub []); [|discriminate]. intros H. inversion H. lia.
  - destruct (starts_with sub (x :: l)).
    + intros H. inversion H. lia.
    + destruct (search sub l) as [i'|]; [|discriminate].
      intros H. inversion H. specialize (IH i' eq_refl). lia.
Qed.

Lemma len_slice_full (data : bytes) (p k : Z) :
  0 <= p -> 0 < k -> len (slice data p (p + k)) = k -> p + k <= len data.
Proof.
  intros Hp Hk E. rewrite slice_from in E by lia.
  unfold len in *. rewrite length_firstn, length_skipn in E. lia.
Qed.

(** ** The integer reads *)

(** X1: [read_uint] and [read_int] succeed on the same readers and leave the
    same reader; the unsigned value is below [2^32] and the signed value is
    its two's complement reading. *)
Theorem read_uint_read_int (self : AssetReader) :
  match read_uint self with
  | Returns u self' =>
      0 <= u < 2 ^ 32 /\
      read_int self = Returns (if u <? 2 ^ 31 then u else u - 2 ^ 32) self'
  | Raises e self' => read_int self = Raises e self'
  end.
Proof.
  destruct self as [data c]. rewrite read_uint_eq, read_int_eq.
  unfold int_at, uint_at. rewrite unpack_i_unpack_I.
  destruct (unpack_I (slice data c (c + 4))) as [u|] eqn:E; [|reflexivity].
  apply unpack_I_Some in E as [Hu _]. split; [exact Hu|reflexivity].
Qed.

(** ** Searching *)

Lemma find_int_eq (data : bytes) (c value : Z) :
  find_int value (mkAssetReader data c) =
  if (- 2 ^ 31 <=? value) && (value <? 2 ^ 31)
  then Returns (bytes_find data (le_bytes 4 value) c) (mkAssetReader data c)
  else Raises struct_error (mkAssetReader data c).
Proof.
  unfold find_int, pack_i, bind.
  destruct ((- 2 ^ 31 <=? value) && (value <? 2 ^ 31)); reflexivity.
Qed.

(** X2: [find_int] raises [struct.error] for a value outside the signed
    32-bit range and otherwise returns without moving the cursor. From a
    non-negative cursor its result is [-1] or a position at or after the
    cursor at which [reset] followed by [read_int] gives the value back, and
    no earlier position at or after the cursor reads as the value. *)
Theorem find_int_first_match (data : bytes) (c value : Z) :
  0 <= c ->
  (~ (- 2 ^ 31 <= value < 2 ^ 31) ->
   find_int value (mkAssetReader data c) = Raises struct_error (mkAssetReader data c)) /\
  (forall p self',
     find_int value (mkAssetReader data c) = Returns p self' ->
     self' = mkAssetReader data c /\
     (p = -1 \/
      (c <= p /\
       (reset p ;;; read_int) (mkAssetReader data c) =
         Returns value (mkAssetReader data (p + 4)))) /\
     (forall q, c <= q -> int_at data q = Some value -> p <> -1 /\ p <= q)).
Proof.
  intros Hc. rewrite find_int_eq.
  destruct (Z.leb_spec (- 2 ^ 31) value), (Z.ltb_spec value (2 ^ 31)); cbn [andb];
    (split; [intros Hout; try lia; reflexivity|]); try (intros p self' E; discriminate).
  intros p self' E. injection E as Ep Eself. subst p self'.
  assert (Hne : le_bytes 4 value <> []) by discriminate.
  destruct (bytes_find_spec data (le_bytes 4 value) c Hc Hne) as [Hfound Hmin].
  split; [reflexivity|]. split.
  - destruct Hfound as [Hno|[Hle Hh]]; [left; exact Hno|right].
    split; [exact Hle|].
    reader_step reset_eq. rewrite read_int_eq.
    change [byte_of value; byte_of (value / 256); byte_of (value / 256 / 256);
            byte_of (value / 256 / 256 / 256)] with (le_bytes 4 value).
    rewrite (int_at_holds data _ value ltac:(lia) Hh). reflexivity.
  - intros q Hq Hat. apply int_at_Some in Hat as (_ & Hh & _); [|lia].
    apply Hmin; assumption.
Qed.

Lemma find_int_first_match_witness :
  find_int 40 (mkAssetReader scenario_buffer 28) =
    Returns 28 (mkAssetReader scenario_buffer 28) /\
  (reset 28 ;;; read_int) (mkAssetReader scenario_buffer 28) =
    Returns 40 (mkAssetReader scenario_buffer 32).
Proof.
  assert (E : find_int 40 (mkAssetReader scenario_buffer 28) =
              Returns 28 (mkAssetReader scenario_buffer 28))
    by (vm_compute; reflexivity).
  split; [exact E|].
  destruct (proj2 (find_int_first_match scenario_buffer 28 40 ltac:(lia)) _ _ E)
    as [_ [[Hno|[_ Hread]] _]]; [discriminate|exact Hread].
Defined.

Lemma starts_with_length (sub l : bytes) :
  starts_with sub l = true -> (List.length sub <= List.length l)%nat.
Proof.
  revert l. induction sub as [|x sub IH]; intros [|y l]; simpl; try lia; try discriminate.
  intros H. apply andb_true_iff in H as [_ H]. apply IH in H. lia.
Qed.

Lemma occurs_at_offset (data value : bytes) (a : Z) (j : nat) :
  0 <= a <= len data ->
  (j <= List.length (skipn (Z.to_nat a) data))%nat ->
  (occurs_at data value (a + Z.of_nat j) <->
   starts_with value (skipn j (skipn (Z.to_nat a) data)) = true).
Proof.
  intros Ha Hj. unfold occurs_at. rewrite holds_iff_starts_with, skipn_add_Z by lia.
  split; [tauto|]. intros H. split; [split; [lia|exact H]|].
  apply starts_with_length in H. rewrite !length_skipn in *. unfold len in *. lia.
Qed.

Lemma occurs_at_from (data value : bytes) (a r : Z) :
  0 <= a -> a <= r -> occurs_at data value r ->
  exists j, r = a + Z.of_nat j /\ (j <= List.length (skipn (Z.to_nat a) data))%nat.
Proof.
  intros Ha Hr [_ Hin]. exists (Z.to_nat (r - a)). split; [lia|].
  rewrite length_skipn. pose proof (len_nonneg value). unfold len in *. lia.
Qed.

(** X3: [find] and [find_last] leave the reader as it is and return [-1]
    exactly when the value does not occur at or after the position the search
    starts from (the cursor, a negative cursor counting from the end of the
    buffer); otherwise [find] returns the lowest and [find_last] the highest
    position at or after it where the value occurs, inside the buffer. So
    both return [-1] or neither does, and the position of [find] is not after
    that of [find_last]. *)
Theorem find_before_find_last (data value : bytes) (c : Z) :
  exists p q,
    find value (mkAssetReader data c) = Returns p (mkAssetReader data c) /\
    find_last value (mkAssetReader data c) = Returns q (mkAssetReader data c) /\
    (p = -1 <-> q = -1) /\
    (p <> -1 ->
     0 <= p <= q /\ holds data p value /\ holds data q value /\
     q + len value <= len data) /\
    (p = -1 <-> forall r, search_from data c <= r -> ~ occurs_at data value r) /\
    (p <> -1 ->
     search_from data c <= p /\ occurs_at data value p /\ occurs_at data value q) /\
    (forall r, search_from data c <= r -> occurs_at data value r ->
               p <> -1 /\ p <= r <= q).
Proof.
  exists (bytes_find data value c), (bytes_rfind data value c).
  split; [reflexivity|]. split; [reflexivity|].
  unfold bytes_find, bytes_rfind. fold (search_from data c).
  set (a := search_from data c).
  assert (Ha : 0 <= a) by (unfold a, search_from; destruct (Z.ltb_spec c 0); lia).
  pose proof (len_nonneg value) as Hv.
  destruct (Z.ltb_spec (len data - a) (len value)) as [Hshort|Hlong].
  - split; [tauto|]. split; [intros H; contradiction|].
    split; [|split; [intros H; contradiction|]].
    + split; [|reflexivity]. intros _ r Hr [_ Hin]. lia.
    + intros r Hr [_ Hin]. lia.
  - set (l := skipn (Z.to_nat a) data).
    assert (Hocc : forall j, (j <= List.length l)%nat ->
                     (occurs_at data value (a + Z.of_nat j) <->
                      starts_with value (skipn j l) = true))
      by (intros j Hj; apply occurs_at_offset; [lia|assumption]).
    destruct (search value l) as [i|] eqn:Es; destruct (rsearch value l) as [j|] eqn:Er.
    + pose proof (search_le _ _ _ Es) as Hil.
      apply search_Some in Es as [Hi Hmin].
      apply rsearch_Some in Er as (Hjl & Hj & Hmax).
      pose proof (Hmax i Hi Hil) as Hij.
      pose proof (proj2 (Hocc i Hil) Hi) as Hp.
      pose proof (proj2 (Hocc j Hjl) Hj) as Hq.
      split; [split; lia|].
      split; [intros _; split; [lia|]; split; [apply Hp|]; split; [apply Hq|apply Hq]|].
      split; [|split; [intros _; split; [lia|split; assumption]|]].
      * split; [lia|]. intros Hno. exfalso. apply (Hno (a + Z.of_nat i)); [lia|exact Hp].
      * intros r Hr Hat.
        destruct (occurs_at_from data value a r Ha Hr Hat) as (k & -> & Hk).
        fold l in Hk. apply (Hocc k Hk) in Hat.
        split; [lia|]. split.
        -- destruct (Nat.lt_ge_cases k i) as [Hlt|Hge]; [|lia].
           rewrite (Hmin k Hlt) in Hat. discriminate.
        -- specialize (Hmax k Hat Hk). lia.
    + apply search_Some in Es as [Hi _].
      rewrite (rsearch_None _ _ Er) in Hi. discriminate.
    + apply rsearch_Some in Er as (_ & Hj & _).
      rewrite (search_None _ _ Es) in Hj. discriminate.
    + assert (Hno : forall r, a <= r -> ~ occurs_at data value r).
      { intros r Hr Hat.
        destruct (occurs_at_from data value a r Ha Hr Hat) as (k & -> & Hk).
        fold l in Hk. apply (Hocc k Hk) in Hat.
        rewrite (search_None _ _ Es) in Hat. discriminate. }
      split; [tauto|]. split; [intros H; contradiction|].
      split; [split; [intros _; exact Hno|reflexivity]|].
      split; [intros H; contradiction|].
      intros r Hr Hat. exfalso. exact (Hno r Hr Hat).
Qed.

Lemma find_before_find_last_witness :
  find [x62; x63] (mkAssetReader abcabc 1) = Returns 1 (mkAssetReader abcabc 1) /\
  find_last [x62; x63] (mkAssetReader abcabc 1) = Returns 4 (mkAssetReader abcabc 1) /\
  1 <> -1 /\
  search_from abcabc 1 <= 1 /\
  occurs_at abcabc [x62; x63] 1 /\
  occurs_at abcabc [x62; x63] 4.
Proof.
  destruct (find_before_find_last abcabc [x62; x63] 1)
    as (p & q & Hf & Hl & _ & _ & _ & Hocc & _).
  assert (Ep : p = 1) by (vm_compute in Hf; inversion Hf; reflexivity).
  assert (Eq : q = 4) by (vm_compute in Hl; inversion Hl; reflexivity).
  subst p q.
  split; [exact Hf|]. split; [exact Hl|].
  assert (Hne : 1 <> -1) by discriminate.
  split; [exact Hne|]. exact (Hocc Hne).
Defined.

(** ** Where the reads leave the cursor *)

Lemma string_extent_positive (prefix : Z) :
  prefix <> 0 -> - 2 ^ 31 <= prefix < 2 ^ 31 -> 0 < fst (string_extent prefix).
Proof.
  intros Hne Hr. unfold string_extent.
  destruct (Z.ltb_spec prefix 0); cbn [fst]; lia.
Qed.

Lemma read_string_Returns (data : bytes) (c : Z) (t : str) (self' : AssetReader) :
  read_string (mkAssetReader data c) = Returns t self' ->
  exists prefix value,
    int_at data c = Some prefix /\
    prefix <> 0 /\
    len (slice data (c + 4) (c + 4 + fst (string_extent prefix))) =
      fst (string_extent prefix) /\
    decode (snd (string_extent prefix))
           (slice data (c + 4) (c + 4 + fst (string_extent prefix))) = Some value /\
    endswith_nul value = true /\
    t = removelast value /\
    self' = mkAssetReader data (c + 4 + fst (string_extent prefix)).
Proof.
  rewrite read_string_eq.
  destruct (int_at data c) as [prefix|] eqn:Eat; [|discriminate].
  cbv zeta. unfold unpack_s.
  destruct (Z.eqb_spec (len (slice data (c + 4) (c + 4 + fst (string_extent prefix))))
                       (fst (string_extent prefix))) as [El|El]; [|discriminate].
  destruct (decode _ _) as [value|] eqn:Ed; [|discriminate].
  destruct (endswith_nul value) eqn:En; [|discriminate].
  intros E. inversion E; subst. exists prefix, value.
  split; [reflexivity|]. split.
  - intros H0. subst prefix. cbn [string_extent Z.ltb Z.compare fst snd] in *.
    rewrite Z.add_0_r, slice_empty in Ed. cbn in Ed. inversion Ed; subst value.
    discriminate.
  - repeat (split; [first [reflexivity | assumption] |]). reflexivity.
Qed.

(** X4: a read that returns from a non-negative cursor moves the cursor
    forward and never past the end of the buffer: [read_int] and [read_uint]
    by exactly 4 bytes, [read_string] by more than 4. *)
Theorem reads_stay_in_buffer (self self' : AssetReader) :
  0 <= __cursor self ->
  (forall v, read_int self = Returns v self' \/ read_uint self = Returns v self' ->
             __cursor self' = __cursor self + 4 /\
             __cursor self' <= len (__data self)) /\
  (forall t, read_string self = Returns t self' ->
             __cursor self + 4 < __cursor self' <= len (__data self)).
Proof.
  destruct self as [data c]. cbn [__cursor __data]. intros Hc. split.
  - intros v [E|E].
    + rewrite read_int_eq in E. destruct (int_at data c) as [v'|] eqn:Eat; [|discriminate].
      inversion E; subst. apply int_at_Some in Eat as (_ & _ & Hl); [|exact Hc].
      cbn [__cursor]. lia.
    + rewrite read_uint_eq in E. destruct (uint_at data c) as [v'|] eqn:Eat; [|discriminate].
      inversion E; subst. apply uint_at_Some in Eat as (_ & _ & Hl); [|exact Hc].
      cbn [__cursor]. lia.
  - intros t E.
    apply read_string_Returns in E as (prefix & value & Eat & Hne & Hlen & _ & _ & _ & ->).
    apply int_at_Some in Eat as (Hr & _ & _); [|exact Hc].
    pose proof (string_extent_positive prefix Hne Hr) as Hpos.
    pose proof (len_slice_full data (c + 4) _ ltac:(lia) Hpos Hlen) as Hend.
    cbn [__cursor]. lia.
Qed.

Lemma reads_stay_in_buffer_witness :
  0 <= __cursor (mkAssetReader scenario_buffer 36) /\
  read_string (mkAssetReader scenario_buffer 36) =
    Returns (text "/Game/X") (mkAssetReader scenario_buffer 48) /\
  36 + 4 < __cursor (mkAssetReader scenario_buffer 48) <= len scenario_buffer.
Proof.
  assert (Hc : 0 <= __cursor (mkAssetReader scenario_buffer 36)) by (simpl; lia).
  assert (E : read_string (mkAssetReader scenario_buffer 36) =
              Returns (text "/Game/X") (mkAssetReader scenario_buffer 48))
    by (vm_compute; reflexivity).
  split; [exact Hc|]. split; [exact E|].
  exact (proj2 (reads_stay_in_buffer (mkAssetReader scenario_buffer 36)
                  (mkAssetReader scenario_buffer 48) Hc) _ E).
Defined.

(** X5: when [read_string] raises, the cursor is not put back: either the
    prefix itself could not be read and the cursor has not moved, or the cursor
    stays just after the prefix; the exception is [struct.error],
    [UnicodeDecodeError] or "String not null terminated". *)
Theorem read_string_failure (data : bytes) (c : Z) (e : exn) (self' : AssetReader) :
  read_string (mkAssetReader data c) = Raises e self' ->
  (int_at data c = None /\ e = struct_error /\ self' = mkAssetReader data c) \/
  (int_at data c <> None /\ self' = mkAssetReader data (c + 4) /\
   (e = struct_error \/ e = UnicodeDecodeError \/
    e = AssetParseException "String not null terminated")).
Proof.
  rewrite read_string_eq.
  destruct (int_at data c) as [prefix|] eqn:Eat.
  - cbv zeta. intros E. right. split; [discriminate|].
    destruct (unpack_s _ _) as [raw|]; [|inversion E; auto].
    destruct (decode _ raw) as [value|]; [|inversion E; auto].
    destruct (endswith_nul value); [discriminate|inversion E; auto].
  - intros E. inversion E. left. auto.
Qed.

Lemma read_string_failure_witness :
  read_string (mkAssetReader [x02; x00; x00; x00; x41; x42] 0) =
    Raises (AssetParseException "String not null terminated")
           (mkAssetReader [x02; x00; x00; x00; x41; x42] 4) /\
  int_at [x02; x00; x00; x00; x41; x42] 0 <> None.
Proof.
  assert (E : read_string (mkAssetReader [x02; x00; x00; x00; x41; x42] 0) =
              Raises (AssetParseException "String not null terminated")
                     (mkAssetReader [x02; x00; x00; x00; x41; x42] 4))
    by (vm_compute; reflexivity).
  split; [exact E|].
  destruct (read_string_failure _ _ _ _ E) as [[Hnone _]|[Hsome _]].
  - vm_compute in Hnone. discriminate.
  - exact Hsome.
Defined.

(** X6: a single-byte string (positive prefix, all its bytes in the buffer)
    that contains a byte of [0x80] or above is rejected with
    [UnicodeDecodeError], whatever its last byte. *)
Theorem read_string_rejects_high_bytes (data : bytes) (c prefix : Z) (b : byte) :
  int_at data c = Some prefix ->
  0 < prefix ->
  len (slice data (c + 4) (c + 4 + prefix)) = prefix ->
  In b (slice data (c + 4) (c + 4 + prefix)) ->
  128 <= byte_val b ->
  read_string (mkAssetReader data c) =
    Raises UnicodeDecodeError (mkAssetReader data (c + 4)).
Proof.
  intros Eat Hpos Hlen Hin Hb. rewrite read_string_eq, Eat.
  unfold string_extent. destruct (Z.ltb_spec prefix 0); [lia|]. cbn [fst snd].
  unfold unpack_s. rewrite Hlen, Z.eqb_refl. cbn [decode]. unfold decode_ascii.
  destruct (forallb _ _) eqn:Ef; [|reflexivity].
  rewrite forallb_forall in Ef. specialize (Ef b Hin). apply Z.ltb_lt in Ef. lia.
Qed.

Lemma read_string_rejects_high_bytes_witness :
  read_string (mkAssetReader [x03; x00; x00; x00; x41; xe9; x00] 0) =
    Raises UnicodeDecodeError (mkAssetReader [x03; x00; x00; x00; x41; xe9; x00] 4).
Proof.
  apply (read_string_rejects_high_bytes [x03; x00; x00; x00; x41; xe9; x00] 0 3 xe9).
  - reflexivity.
  - lia.
  - reflexivity.
  - right. left. reflexivity.
  - vm_compute. discriminate.
Defined.

(** * Further properties of the two entry points *)

Lemma parse_meta_Exception (data : bytes) (e : exn) :
  parse_meta data = Exception e -> parse_string_table data = Exception e.
Proof.
  unfold parse_meta, parse_string_table, try_parse, bind.
  destruct (validate (mkAssetReader data 0)) as [[] r1|e1 r1];
    [|intros H; inversion H; reflexivity].
  destruct (get_asset_meta r1) as [meta r2|e2 r2];
    [discriminate|intros H; inversion H; reflexivity].
Qed.

Lemma get_asset_meta_Raises (data : bytes) (c : Z) (e : exn) :
  resolve_header data c = Exception e ->
  exists self', get_asset_meta (mkAssetReader data c) = Raises e self'.
Proof.
  intros H. pose proof (get_asset_meta_resolve_header data c) as Hr. rewrite H in Hr.
  destruct (get_asset_meta (mkAssetReader data c)) as [m r|e' r]; [discriminate|].
  simpl in Hr. inversion Hr. eauto.
Qed.

Lemma resolve_header_short (data : bytes) :
  len data < 24 -> resolve_header data 0 = Exception struct_error.
Proof.
  intros Hshort. unfold resolve_header.
  destruct (int_at data (0 + 4)) as [fv|]; [|reflexivity].
  destruct (uint_at data (0 + 8)) as [lic|]; [|reflexivity].
  destruct (uint_at data (0 + 12)) as [ue|]; [|reflexivity].
  destruct (uint_at data (0 + 16)) as [cook|]; [|reflexivity].
  destruct (uint_at data (cursor_after_cook 0 fv cook + 4)) as [at_|] eqn:E; [|reflexivity].
  exfalso. unfold cursor_after_cook in E.
  destruct ((cook =? 0) && negb (fv =? -8));
    apply uint_at_Some in E as (_ & _ & Hl); lia.
Qed.

(** X7: a buffer shorter than 24 bytes, the empty buffer included, is never
    parsed: both entry points raise, with [struct.error] inside, or with the
    "Not a valid .uasset file" error when 4 bytes are there and are not the
    magic. *)
Theorem short_buffer_never_parses (data : bytes) :
  len data < 24 ->
  exists e,
    (e = struct_error \/ e = ValueError "Not a valid .uasset file") /\
    parse_meta data = Exception (AssetParseExceptionFrom e) /\
    parse_string_table data = Exception (AssetParseExceptionFrom e).
Proof.
  intros Hshort.
  assert (Hm : exists e, (e = struct_error \/ e = ValueError "Not a valid .uasset file") /\
                         parse_meta data = Exception (AssetParseExceptionFrom e)).
  { unfold parse_meta, try_parse, bind, validate, bind. rewrite read_uint_eq.
    destruct (uint_at data 0) as [magic|].
    - destruct (negb (magic =? 0x9E2A83C1)).
      + exists (ValueError "Not a valid .uasset file"). auto.
      + rewrite reset_eq.
        destruct (get_asset_meta_Raises data 0 _ (resolve_header_short data Hshort))
          as [r E].
        rewrite E. exists struct_error. auto.
    - exists struct_error. auto. }
  destruct Hm as (e & He & Hp). exists e. split; [exact He|]. split; [exact Hp|].
  apply parse_meta_Exception. exact Hp.
Qed.

Lemma short_buffer_never_parses_witness :
  len (@nil byte) < 24 /\
  parse_meta [] = Exception (AssetParseExceptionFrom struct_error) /\
  len (firstn 23 scenario_buffer) < 24 /\
  parse_string_table (firstn 23 scenario_buffer) =
    Exception (AssetParseExceptionFrom struct_error).
Proof.
  assert (H0 : len (@nil byte) < 24) by (vm_compute; reflexivity).
  assert (H1 : len (firstn 23 scenario_buffer) < 24) by (vm_compute; reflexivity).
  split; [exact H0|]. split.
  - destruct (short_buffer_never_parses [] H0) as (e & _ & Hp & _).
    rewrite Hp. vm_compute in Hp. inversion Hp. reflexivity.
  - split; [exact H1|].
    destruct (short_buffer_never_parses _ H1) as (e & _ & _ & Hp).
    rewrite Hp. vm_compute in Hp. inversion Hp. reflexivity.
Defined.

(** X8: [parse_string_table] resolves the header exactly as [parse_meta]
    does: when [parse_meta] raises, [parse_string_table] raises the same
    exception, and when [parse_string_table] returns, [parse_meta] returns a
    [Meta]. *)
Theorem parse_string_table_needs_meta (data : bytes) :
  (forall e, parse_meta data = Exception e -> parse_string_table data = Exception e) /\
  (forall out, parse_string_table data = Ok out -> exists meta, parse_meta data = Ok meta).
Proof.
  split; [apply parse_meta_Exception|].
  intros out H. destruct (parse_meta data) as [meta|e] eqn:E; [eauto|].
  apply parse_meta_Exception in E. congruence.
Qed.

Lemma parse_string_table_needs_meta_witness :
  parse_meta no_anchor_buffer = Ok (mkMeta 16777216 0 1 5 1 158 [] []) /\
  parse_string_table no_anchor_buffer = Exception (AssetParseExceptionFrom struct_error) /\
  parse_string_table (x00 :: tl scenario_buffer) =
    Exception (AssetParseExceptionFrom (ValueError "Not a valid .uasset file")).
Proof.
  split; [vm_compute; reflexivity|]. split; [vm_compute; reflexivity|].
  apply (proj1 (parse_string_table_needs_meta (x00 :: tl scenario_buffer))).
  vm_compute. reflexivity.
Defined.

(** X9: when the header resolves to a [Meta] whose [asset_type] is not 1,
    [parse_string_table] raises "Not a suitable string table" (wrapped), and
    it does so before it looks at the payload: the part before the loop raises
    with the cursor still at offset 0. *)
Theorem unsupported_asset_type (data : bytes) (meta : Meta) :
  parse_meta data = Ok meta ->
  asset_type meta <> 1 ->
  table_prologue (mkAssetReader data 0) =
    Raises (AssetParseException "Not a suitable string table") (mkAssetReader data 0) /\
  parse_string_table data =
    Exception (AssetParseExceptionFrom (AssetParseException "Not a suitable string table")).
Proof.
  intros Hmeta Htype. apply parse_meta_Ok in Hmeta as [Hv Hg].
  assert (Hp : table_prologue (mkAssetReader data 0) =
               Raises (AssetParseException "Not a suitable string table")
                      (mkAssetReader data 0)).
  { unfold table_prologue. reader_step Hv. reader_step Hg.
    destruct (Z.eqb_spec (asset_type meta) 1); [contradiction|]. reflexivity. }
  split; [exact Hp|].
  rewrite parse_string_table_prologue. unfold try_parse, bind. rewrite Hp. reflexivity.
Qed.

Lemma unsupported_asset_type_witness :
  parse_meta other_type_header = Ok other_type_meta /\
  parse_string_table other_type_header =
    Exception (AssetParseExceptionFrom (AssetParseException "Not a suitable string table")).
Proof.
  assert (Hm : parse_meta other_type_header = Ok other_type_meta)
    by (vm_compute; reflexivity).
  split; [exact Hm|].
  refine (proj2 (unsupported_asset_type other_type_header _ Hm _)).
  simpl. discriminate.
Defined.

Lemma read_entries_length (n : nat) (out out' : list (str * str)) (self self' : AssetReader) :
  read_entries n out self = Returns out' self' ->
  List.length out' = (List.length out + n)%nat /\ firstn (List.length out) out' = out.
Proof.
  revert out self. induction n as [|n IH]; intros out self; simpl.
  - intros E. inversion E; subst. split; [lia|apply firstn_all].
  - unfold bind.
    destruct (read_string self) as [key r1|e r1]; [|discriminate].
    destruct (read_string r1) as [value r2|e r2]; [|discriminate].
    intros E. apply IH in E as [Hl Hf]. rewrite length_app in Hl. simpl in Hl.
    split; [lia|].
    rewrite length_app in Hf. simpl in Hf.
    apply (f_equal (firstn (List.length out))) in Hf.
    rewrite firstn_firstn in Hf.
    replace (Nat.min (List.length out) (List.length out + 1)) with (List.length out) in Hf
      by lia.
    rewrite Hf. rewrite firstn_app, Nat.sub_diag, firstn_all. simpl. apply app_nil_r.
Qed.

Lemma table_prologue_Returns (data : bytes) (count : Z) (self : AssetReader) :
  table_prologue (mkAssetReader data 0) = Returns count self ->
  exists meta p,
    parse_meta data = Ok meta /\
    asset_type meta = 1 /\
    string_at data (data_offset meta + 28) = Ok (asset_guid meta, p).
Proof.
  unfold table_prologue. unfold bind at 1.
  destruct (validate (mkAssetReader data 0)) as [[] r1|e r1] eqn:Ev; [|discriminate].
  apply validate_Returns in Ev as Hr1. simpl in Hr1. subst r1.
  unfold bind at 1.
  destruct (get_asset_meta (mkAssetReader data 0)) as [meta r2|e r2] eqn:Eg; [|discriminate].
  apply get_asset_meta_Returns in Eg as Hr2. subst r2.
  unfold bind at 1.
  destruct (Z.eqb_spec (asset_type meta) 1) as [Htype|Htype]; [|discriminate].
  cbn [negb ret].
  reader_step reset_eq. reader_step skip_eq.
  unfold bind at 1.
  destruct (read_string (mkAssetReader data (data_offset meta + 28))) as [g r3|e r3] eqn:Er;
    [|discriminate].
  unfold bind at 1.
  destruct (str_eqb g (asset_guid meta)) eqn:Eq; [|discriminate].
  apply str_eqb_eq in Eq. subst g.
  intros _. exists meta, (__cursor r3).
  split; [unfold parse_meta, try_parse, bind; rewrite Ev, Eg; reflexivity|].
  split; [exact Htype|].
  unfold string_at. rewrite Er. reflexivity.
Qed.

(** X10: whenever [parse_string_table] returns a list, the header resolved to
    a [Meta] with [asset_type = 1], the string read at [data_offset + 28] is
    that [Meta]'s [asset_guid], and the list has exactly as many entries as the
    count field says (none when the count is negative). *)
Theorem parse_string_table_Ok (data : bytes) (out : list (str * str)) :
  parse_string_table data = Ok out ->
  exists meta p count self,
    parse_meta data = Ok meta /\
    asset_type meta = 1 /\
    string_at data (data_offset meta + 28) = Ok (asset_guid meta, p) /\
    table_prologue (mkAssetReader data 0) = Returns count self /\
    len out = Z.max 0 count.
Proof.
  rewrite parse_string_table_prologue. unfold try_parse, bind.
  destruct (table_prologue (mkAssetReader data 0)) as [count self|e self] eqn:Ep;
    [|discriminate].
  destruct (read_entries (range count) [] self) as [out' r|e r] eqn:Ee; [|discriminate].
  intros E. inversion E; subst out'.
  destruct (table_prologue_Returns data count self Ep) as (meta & p & Hm & Ht & Hg).
  exists meta, p, count, self.
  repeat (split; [assumption|]).
  apply read_entries_length in Ee as [Hl _]. unfold len. rewrite Hl.
  cbn [List.length Nat.add]. unfold range. split; [reflexivity|lia].
Qed.

Lemma parse_string_table_Ok_witness :
  parse_string_table scenario_buffer = Ok [scenario_entry] /\
  exists meta p count self,
    parse_meta scenario_buffer = Ok meta /\
    asset_type meta = 1 /\
    string_at scenario_buffer (data_offset meta + 28) = Ok (asset_guid meta, p) /\
    table_prologue (mkAssetReader scenario_buffer 0) = Returns count self /\
    len [scenario_entry] = Z.max 0 count.
Proof.
  assert (E : parse_string_table scenario_buffer = Ok [scenario_entry])
    by (vm_compute; reflexivity).
  split; [exact E|]. exact (parse_string_table_Ok scenario_buffer _ E).
Defined.

Lemma resolve_header_Ok_anchor (data : bytes) (c : Z) (m : Meta) (p : Z) :
  resolve_header data c = Ok (m, p) ->
  int_at data (c + 4) = Some (file_version m) /\
  uint_at data (c + 16) = Some (cook_version m) /\
  uint_at data (bytes_find data anchor_pattern
                  (anchor_search_start c (file_version m) (cook_version m)) + 4) =
    Some (data_offset m).
Proof.
  unfold resolve_header, resolve_from.
  destruct (int_at data (c + 4)) as [fv|]; [|discriminate].
  destruct (uint_at data (c + 8)); [|discriminate].
  destruct (uint_at data (c + 12)); [|discriminate].
  destruct (uint_at data (c + 16)) as [cook|]; [|discriminate].
  destruct (uint_at data (cursor_after_cook _ _ _ + 4)); [|discriminate].
  destruct (uint_at data (bytes_find _ _ _ + 4)) as [do_|] eqn:Edo; [|discriminate].
  destruct (string_at data _) as [[path_ q]|]; [|discriminate].
  destruct (int_at data _); [|discriminate].
  destruct (string_at data _) as [[guid_ q']|]; [|discriminate].
  intros E. inversion E; subst. cbn [file_version cook_version data_offset].
  auto.
Qed.

(** X11: the header resolver takes the first occurrence of the anchor: when
    [parse_meta] returns, [data_offset] is the unsigned word 4 bytes after the
    result [p] of the search, and [p] is [-1] or the lowest position at or
    after the search start that reads as the signed word [40]; any later
    occurrence is ignored. *)
Theorem resolver_uses_first_anchor (data : bytes) (meta : Meta) :
  parse_meta data = Ok meta ->
  let start := anchor_search_start 0 (file_version meta) (cook_version meta) in
  let p := bytes_find data anchor_pattern start in
  uint_at data (p + 4) = Some (data_offset meta) /\
  (p = -1 \/ (start <= p /\ int_at data p = Some 40)) /\
  (forall q, start <= q -> int_at data q = Some 40 -> p <> -1 /\ p <= q).
Proof.
  intros Hmeta. cbv zeta. apply parse_meta_Ok in Hmeta as [_ Hg].
  pose proof (get_asset_meta_resolve_header data 0) as Hr. rewrite Hg in Hr.
  simpl in Hr. symmetry in Hr. apply resolve_header_Ok_anchor in Hr as (_ & _ & Hdo).
  split; [exact Hdo|].
  assert (Hstart : 0 <= anchor_search_start 0 (file_version meta) (cook_version meta)).
  { unfold anchor_search_start, cursor_after_cook.
    destruct ((cook_version meta =? 0) && negb (file_version meta =? -8)); lia. }
  assert (Hne : anchor_pattern <> []) by discriminate.
  destruct (bytes_find_spec data anchor_pattern _ Hstart Hne) as [Hfound Hmin].
  split.
  - destruct Hfound as [Hno|[Hle Hh]]; [left; exact Hno|right]. split; [exact Hle|].
    apply (int_at_holds data _ 40); [lia|exact Hh].
  - intros q Hq Hat. apply int_at_Some in Hat as (_ & Hh & _); [|lia].
    apply Hmin; assumption.
Qed.

Lemma resolver_uses_first_anchor_witness :
  parse_meta (scenario_buffer ++ anchor_pattern) = Ok scenario_meta /\
  bytes_find (scenario_buffer ++ anchor_pattern) anchor_pattern 28 = 28 /\
  int_at (scenario_buffer ++ anchor_pattern) 158 = Some 40 /\
  uint_at (scenario_buffer ++ anchor_pattern) (28 + 4) = Some 76.
Proof.
  assert (Hm : parse_meta (scenario_buffer ++ anchor_pattern) = Ok scenario_meta)
    by (vm_compute; reflexivity).
  assert (Hf : bytes_find (scenario_buffer ++ anchor_pattern) anchor_pattern 28 = 28)
    by (vm_compute; reflexivity).
  split; [exact Hm|]. split; [exact Hf|]. split; [vm_compute; reflexivity|].
  pose proof (proj1 (resolver_uses_first_anchor _ _ Hm)) as H.
  change (anchor_search_start 0 (file_version scenario_meta) (cook_version scenario_meta))
    with 28 in H.
  rewrite Hf in H. exact H.
Defined.

(** ** Built string tables through [parse_string_table] *)

Lemma read_string_encoded (t : str) (bs data : bytes) (c : Z) :
  encode_string t = Some bs ->
  starts_with_bom t = false ->
  holds data c bs ->
  read_string (mkAssetReader data c) = Returns t (mkAssetReader data (c + len bs)).
Proof.
  unfold encode_string. intros Henc Hbom Hholds.
  destruct (forallb is_ascii t).
  - apply read_string_ascii_holds; assumption.
  - apply read_string_utf16_holds; assumption.
Qed.

Lemma read_entries_encoded (entries : list (str * str)) :
  forall (n : nat) (bs data : bytes) (c : Z) (out : list (str * str)),
    (n <= List.length entries)%nat ->
    concat_fields (map encode_entry entries) = Some bs ->
    Forall (fun kv => starts_with_bom (fst kv) = false /\
                      starts_with_bom (snd kv) = false) entries ->
    holds data c bs ->
    exists c',
      read_entries n out (mkAssetReader data c) =
      Returns (out ++ firstn n entries) (mkAssetReader data c').
Proof.
  induction entries as [|kv entries IH]; intros n bs data c out Hn Hbs Hbom Hholds.
  - simpl in Hn. assert (n = O) by lia. subst n.
    exists c. simpl. rewrite app_nil_r. reflexivity.
  - destruct n as [|n].
    + exists c. simpl. rewrite app_nil_r. reflexivity.
    + cbn [map] in Hbs.
      apply concat_fields_cons in Hbs as (eb & rb & He & Hrest & ->).
      unfold encode_entry in He.
      apply concat_fields_cons in He as (kb & r1 & Hk & He & ->).
      apply concat_fields_cons in He as (vb & r2 & Hv & He & ->).
      simpl in He. inversion He; subst r2. clear He.
      rewrite app_nil_r in Hholds. rewrite <- app_assoc in Hholds.
      inversion Hbom as [|? ? [Hbk Hbv] Hbom']; subst.
      destruct (holds_field_at _ c (len kb) (c + len kb) _ _ Hholds eq_refl eq_refl)
        as [Hkh Hholds1].
      destruct (holds_field_at _ (c + len kb) (len vb) (c + len kb + len vb) _ _
                  Hholds1 eq_refl eq_refl) as [Hvh Hholds2].
      simpl in Hn.
      destruct (IH n rb data (c + len kb + len vb) (out ++ [kv])
                  ltac:(lia) Hrest Hbom' Hholds2) as [c' E].
      exists c'. cbn [read_entries].
      reader_step (read_string_encoded _ _ data c Hk Hbk Hkh).
      reader_step (read_string_encoded _ _ data (c + len kb) Hv Hbv Hvh).
      rewrite <- surjective_pairing. rewrite E.
      rewrite <- app_assoc. reflexivity.
Qed.

(** X12: a string table built on a header whose [data_offset] is the length
    of the header, with [asset_type = 1], the header's GUID repeated in the
    payload, texts that do not begin with U+FEFF or U+FFFE and a count not
    above the number of entries written, decodes to the first [count] entries,
    in the order written and with duplicate keys kept; entries beyond the count
    and any bytes after the table are not read. *)
Theorem string_table_roundtrip
    (m : Meta) (name : str) (count : Z) (entries : list (str * str))
    (data tail : bytes) :
  build_string_table m (asset_guid m) name count entries = Some data ->
  option_map len (build_header m) = Some (data_offset m) ->
  asset_type m = 1 ->
  starts_with_bom (path m) = false ->
  starts_with_bom (asset_guid m) = false ->
  starts_with_bom name = false ->
  Forall (fun kv => starts_with_bom (fst kv) = false /\
                    starts_with_bom (snd kv) = false) entries ->
  count <= len entries ->
  parse_string_table (data ++ tail) = Ok (firstn (Z.to_nat count) entries).
Proof.
  intros Hbuild Hoff Htype Hbp Hbg Hbn Hbe Hcount.
  unfold build_string_table in Hbuild.
  apply concat_fields_cons in Hbuild as (header & r & Hh & Hbuild & ->).
  apply concat_fields_cons in Hbuild as (payload & r' & Hp & Hbuild & ->).
  simpl in Hbuild. inversion Hbuild; subst r'. clear Hbuild.
  rewrite Hh in Hoff. simpl in Hoff. inversion Hoff as [Hdo]. clear Hoff.
  rewrite app_nil_r, <- app_assoc.
  set (d := header ++ payload ++ tail).
  pose proof (parse_meta_built m header (payload ++ tail) Hh Hbp Hbg) as Hmeta.
  fold d in Hmeta. apply parse_meta_Ok in Hmeta as [Hv Hg].
  pose proof (holds_middle header payload tail) as Hpl. fold d in Hpl.
  rewrite Hdo in Hpl.
  unfold build_payload in Hp. cbn [app] in Hp.
  apply concat_fields_cons in Hp as (f1 & r1 & E1 & Hp & ->).
  apply concat_fields_cons in Hp as (gb & r2 & Eg & Hp & ->).
  apply concat_fields_cons in Hp as (f3 & r3 & E3 & Hp & ->).
  apply concat_fields_cons in Hp as (nb & r4 & En & Hp & ->).
  apply concat_fields_cons in Hp as (cb & eb & Ec & Hp & ->).
  inversion E1; subst f1. inversion E3; subst f3. clear E1 E3.
  apply pack_i_Some in Ec as [Hcr ->].
  set (o := data_offset m) in *.
  destruct (holds_field_at _ o 28 (o + 28) _ _ Hpl eq_refl eq_refl) as [_ H1].
  destruct (holds_field_at _ (o + 28) (len gb) (o + 28 + len gb) _ _ H1 eq_refl eq_refl)
    as [Hgh H2].
  destruct (holds_field_at _ _ 12 (o + 28 + len gb + 12) _ _ H2 eq_refl eq_refl)
    as [_ H3].
  destruct (holds_field_at _ _ (len nb) (o + 28 + len gb + 12 + len nb) _ _
              H3 eq_refl eq_refl) as [Hnh H4].
  destruct (holds_field_at _ _ 4 (o + 28 + len gb + 12 + len nb + 4) _ _
              H4 eq_refl eq_refl) as [Hch Heh].
  assert (Hn : (range count <= List.length entries)%nat)
    by (unfold range, len in *; lia).
  destruct (read_entries_encoded entries (range count) eb d _ [] Hn Hp Hbe Heh)
    as [c' Hentries].
  unfold parse_string_table, try_parse.
  reader_step Hv. reader_step Hg. rewrite Htype. cbn [Z.eqb Pos.eqb negb].
  unfold bind at 1. cbn [ret].
  reader_step reset_eq. reader_step skip_eq. fold o.
  reader_step (read_string_encoded _ _ d (o + 28) Eg Hbg Hgh).
  assert (Heq : str_eqb (asset_guid m) (asset_guid m) = true)
    by (apply str_eqb_eq; reflexivity).
  rewrite Heq. cbn [negb]. unfold bind at 1. cbn [ret].
  reader_step skip_eq.
  reader_step (read_string_encoded _ _ d (o + 28 + len gb + 12) En Hbn Hnh).
  unfold bind at 1. rewrite read_int_eq.
  rewrite (int_at_holds d _ count Hcr Hch).
  rewrite Hentries. reflexivity.
Qed.

Lemma string_table_roundtrip_witness :
  build_string_table scenario_meta (text "ABC") (text "Table") 2
    [scenario_entry; (text "Key2", text "Value2"); scenario_entry] =
    Some (built (build_string_table scenario_meta (text "ABC") (text "Table") 2
            [scenario_entry; (text "Key2", text "Value2"); scenario_entry])) /\
  parse_string_table
    (built (build_string_table scenario_meta (text "ABC") (text "Table") 2
              [scenario_entry; (text "Key2", text "Value2"); scenario_entry]) ++ [xaa]) =
    Ok [scenario_entry; (text "Key2", text "Value2")].
Proof.
  assert (Hb : build_string_table scenario_meta (text "ABC") (text "Table") 2
                 [scenario_entry; (text "Key2", text "Value2"); scenario_entry] =
               Some (built (build_string_table scenario_meta (text "ABC") (text "Table") 2
                       [scenario_entry; (text "Key2", text "Value2"); scenario_entry])))
    by (vm_compute; reflexivity).
  split; [exact Hb|].
  refine (string_table_roundtrip scenario_meta (text "Table") 2
            [scenario_entry; (text "Key2", text "Value2"); scenario_entry] _ [xaa]
            Hb _ _ _ _ _ _ _).
  - vm_compute. reflexivity.
  - reflexivity.
  - reflexivity.
  - reflexivity.
  - reflexivity.
  - repeat constructor.
  - vm_compute. discriminate.
Defined.

(** * CSV export *)

Lemma fold_left_snoc {A B : Type} (f : A -> B) (l : list A) (acc : list B) :
  fold_left (fun out x => out ++ [f x]) l acc = acc ++ map f l.
Proof.
  revert acc. induction l as [|x l IH]; intros acc; simpl.
  - symmetry. apply app_nil_r.
  - rewrite IH, <- app_assoc. reflexivity.
Qed.

Lemma convert_to_csv_eq (tuples : list (str * str)) :
  convert_to_csv tuples = text "Key,SourceString" :: map csv_row tuples ++ [[]].
Proof.
  unfold convert_to_csv. rewrite fold_left_snoc. reflexivity.
Qed.

(** X13: [convert_to_csv] returns the header line, then one row per tuple in
    the order of the table, then one empty line: two lines more than there are
    tuples, and row [i] is the quoted key and value of tuple [i]. *)
Theorem convert_to_csv_lines (tuples : list (str * str)) (i : nat) (tuple : str * str) :
  len (convert_to_csv tuples) = len tuples + 2 /\
  nth_error (convert_to_csv tuples) 0 = Some (text "Key,SourceString") /\
  nth_error (convert_to_csv tuples) (S (List.length tuples)) = Some [] /\
  (nth_error tuples i = Some tuple ->
   nth_error (convert_to_csv tuples) (S i) =
     Some ([34] ++ fst tuple ++ [34; 44; 34] ++ snd tuple ++ [34])).
Proof.
  rewrite convert_to_csv_eq. split; [|split; [|split]].
  - unfold len. cbn [List.length]. rewrite length_app, length_map. simpl. lia.
  - reflexivity.
  - cbn [nth_error]. rewrite nth_error_app2 by (rewrite length_map; lia).
    rewrite length_map, Nat.sub_diag. reflexivity.
  - intros Hi. cbn [nth_error].
    rewrite nth_error_app1 by (rewrite length_map; apply nth_error_Some; congruence).
    rewrite nth_error_map, Hi. reflexivity.
Qed.

Lemma convert_to_csv_lines_witness :
  nth_error [scenario_entry] 0 = Some scenario_entry /\
  nth_error (convert_to_csv [scenario_entry]) 1 =
    Some ([34] ++ text "Key1" ++ [34; 44; 34] ++ text "Value1" ++ [34]).
Proof.
  split; [reflexivity|].
  exact (proj2 (proj2 (proj2 (convert_to_csv_lines [scenario_entry] 0 scenario_entry)))
           eq_refl).
Defined.

(** X14: [convert_to_csv] does not escape double quotes, so different tables
    can give the same lines: moving the separator [","] (with its quotes) from
    the key to the value of the first tuple changes the table and not the
    output. *)
Theorem convert_to_csv_not_injective (k w v : str) (rest : list (str * str)) :
  (k ++ [34; 44; 34] ++ w, v) :: rest <> (k, w ++ [34; 44; 34] ++ v) :: rest /\
  convert_to_csv ((k ++ [34; 44; 34] ++ w, v) :: rest) =
  convert_to_csv ((k, w ++ [34; 44; 34] ++ v) :: rest).
Proof.
  split.
  - intros E. inversion E as [[Hk Hv]].
    apply (f_equal (@List.length Z)) in Hk. rewrite !length_app in Hk. simpl in Hk. lia.
  - rewrite !convert_to_csv_eq. cbn [map]. do 2 f_equal.
    unfold csv_row. cbn [fst snd]. rewrite <- !app_assoc. reflexivity.
Qed.

Lemma split_at_first {A : Type} (x : A) (k k' r r' : list A) :
  ~ In x k -> ~ In x k' -> k ++ x :: r = k' ++ x :: r' -> k = k' /\ r = r'.
Proof.
  revert k'. induction k as [|a k IH]; intros [|a' k'] Hk Hk' E; simpl in *.
  - inversion E. auto.
  - inversion E; subst. exfalso. apply Hk'. left. reflexivity.
  - inversion E; subst. exfalso. apply Hk. left. reflexivity.
  - inversion E; subst. destruct (IH k') as [-> ->]; auto.
Qed.

Lemma csv_row_injective (t t' : str * str) :
  ~ In 34 (fst t) -> ~ In 34 (fst t') -> csv_row t = csv_row t' -> t = t'.
Proof.
  destruct t as [k v], t' as [k' v']. unfold csv_row. cbn [fst snd app].
  intros Hk Hk' E. inversion E as [E'].
  destruct (split_at_first 34 k k' _ _ Hk Hk' E') as [-> E''].
  inversion E'' as [Ev]. apply app_inv_tail in Ev. subst. reflexivity.
Qed.

(** X15: on tables whose keys contain no double quote, [convert_to_csv] loses
    nothing: two such tables with the same lines are the same table, values
    with quotes, commas or line breaks included. *)
Theorem convert_to_csv_injective (a b : list (str * str)) :
  Forall (fun tuple => ~ In 34 (fst tuple)) a ->
  Forall (fun tuple => ~ In 34 (fst tuple)) b ->
  convert_to_csv a = convert_to_csv b ->
  a = b.
Proof.
  intros Ha Hb E. rewrite !convert_to_csv_eq in E. inversion E as [E'].
  apply app_inv_tail in E'. clear E.
  revert b Hb E'. induction Ha as [|t a Ht Ha IH]; intros [|t' b] Hb E; cbn [map] in E;
    try discriminate; [reflexivity|].
  injection E as Erow Erest. inversion Hb as [|? ? Ht' Hb']; subst.
  f_equal; [|apply IH; assumption].
  apply csv_row_injective; [assumption|assumption|].
  unfold csv_row. cbn [app]. f_equal. exact Erow.
Qed.

Lemma convert_to_csv_injective_witness :
  convert_to_csv [(text "Key1", [34; 44; 34])] =
    convert_to_csv [(text "Key1", [34; 44; 34])] /\
  [(text "Key1", [34; 44; 34])] = [(text "Key1", [34; 44; 34])].
Proof.
  split; [reflexivity|].
  apply convert_to_csv_injective; [| |reflexivity];
    repeat constructor; vm_compute; intuition discriminate.
Defined.

(** * Writing the UTF-16 file *)

Lemma join_surrogates_app (t : str) (us : list Z) :
  forallb is_scalar t = true ->
  join_surrogates (utf16_units t ++ us) = option_map (app t) (join_surrogates us).
Proof.
  induction t as [|c t IH]; intros Ht.
  - simpl. destruct (join_surrogates us); reflexivity.
  - simpl in Ht. apply andb_true_iff in Ht as [Hc Ht]. specialize (IH Ht).
    apply is_scalar_spec in Hc as [Hr Hs].
    cbn [utf16_units flat_map]. fold (utf16_units t). unfold utf16_units_of.
    destruct (Z.ltb_spec c 0x10000).
    + cbn [app join_surrogates]. unfold is_high_surrogate, is_low_surrogate.
      destruct (Z.leb_spec 0xD800 c), (Z.leb_spec c 0xDBFF), (Z.leb_spec 0xDC00 c),
        (Z.leb_spec c 0xDFFF); cbn [andb]; try lia; rewrite IH;
        destruct (join_surrogates us); reflexivity.
    + assert (Hq : 0 <= (c - 0x10000) / 1024 < 1024)
        by (split; [apply Z.div_pos; lia | apply Z.div_lt_upper_bound; lia]).
      assert (Hm : 0 <= (c - 0x10000) mod 1024 < 1024) by (apply Z.mod_pos_bound; lia).
      pose proof (Z.div_mod (c - 0x10000) 1024 ltac:(lia)) as Hdm.
      cbn [app join_surrogates]. unfold is_high_surrogate, is_low_surrogate.
      destruct (Z.leb_spec 0xD800 (0xD800 + (c - 0x10000) / 1024)); [|lia].
      destruct (Z.leb_spec (0xD800 + (c - 0x10000) / 1024) 0xDBFF); [|lia].
      destruct (Z.leb_spec 0xDC00 (0xDC00 + (c - 0x10000) mod 1024)); [|lia].
      destruct (Z.leb_spec (0xDC00 + (c - 0x10000) mod 1024) 0xDFFF); [|lia].
      cbn [andb]. rewrite IH. destruct (join_surrogates us); cbn [option_map]; [|reflexivity].
      do 2 f_equal. lia.
Qed.

Lemma decode_utf16_with_bom (t : str) :
  forallb is_scalar t = true ->
  decode_utf16 ([xff; xfe] ++ utf16le_bytes (utf16_units t)) = Some t.
Proof.
  intros Ht. unfold decode_utf16. cbn [app sniff_bom Byte.eqb]. cbv beta iota.
  change (Byte.eqb xff xff && Byte.eqb xfe xfe) with true. cbv iota.
  rewrite code_units_utf16le by (apply utf16_units_range; exact Ht).
  rewrite <- (app_nil_r (utf16_units t)), join_surrogates_app by exact Ht.
  simpl. rewrite app_nil_r. reflexivity.
Qed.

Lemma utf16_units_app (a b : str) : utf16_units (a ++ b) = utf16_units a ++ utf16_units b.
Proof. unfold utf16_units. apply flat_map_app. Qed.

Lemma utf16le_bytes_app (a b : list Z) :
  utf16le_bytes (a ++ b) = utf16le_bytes a ++ utf16le_bytes b.
Proof. unfold utf16le_bytes. apply flat_map_app. Qed.

Lemma scalar_line (line : str) :
  forallb is_scalar line = true -> forallb is_scalar (line ++ [10]) = true.
Proof. intros H. rewrite forallb_app, H. reflexivity. Qed.

Lemma scalar_with_newlines (content : list str) :
  Forall (fun line => forallb is_scalar line = true) content ->
  forallb is_scalar (with_newlines content) = true.
Proof.
  unfold with_newlines. induction 1 as [|line content Hl Hc IH]; [reflexivity|].
  cbn [map List.concat]. rewrite forallb_app, IH, scalar_line by exact Hl. reflexivity.
Qed.

Lemma write_lines_later (content : list str) (file : bytes) :
  Forall (fun line => forallb is_scalar line = true) content ->
  write_lines false content file =
  Saved (file ++ utf16le_bytes (utf16_units (with_newlines content))).
Proof.
  intros H. revert file. induction H as [|line content Hl Hc IH]; intros file.
  - simpl. rewrite app_nil_r. reflexivity.
  - cbn [write_lines]. unfold utf_16_encode. rewrite scalar_line by exact Hl.
    rewrite IH. unfold with_newlines. cbn [map List.concat app].
    rewrite (utf16_units_app (line ++ [10])).
    rewrite (utf16le_bytes_app (utf16_units (line ++ [10]))), app_assoc. reflexivity.
Qed.

Lemma save_as_utf16_scalar (line : str) (content : list str) :
  Forall (fun l => forallb is_scalar l = true) (line :: content) ->
  save_as_utf16 (line :: content) =
  Saved ([xff; xfe] ++ utf16le_bytes (utf16_units (with_newlines (line :: content)))).
Proof.
  intros H. inversion H as [|? ? Hl Hc]; subst.
  unfold save_as_utf16. cbn [write_lines]. unfold utf_16_encode.
  rewrite scalar_line by exact Hl. rewrite write_lines_later by exact Hc.
  unfold with_newlines. cbn [map List.concat app].
  rewrite (utf16_units_app (line ++ [10])).
  rewrite (utf16le_bytes_app (utf16_units (line ++ [10]))). reflexivity.
Qed.

(** X16: when every line is made of Unicode scalar values, [save_as_utf16]
    writes the whole content and the file decodes, with the ['utf-16'] codec,
    to the lines each followed by a line feed, a line that begins with U+FEFF
    included; the file is empty exactly when there is no line. *)
Theorem save_as_utf16_decodes (content : list str) :
  Forall (fun line => forallb is_scalar line = true) content ->
  exists file,
    save_as_utf16 content = Saved file /\
    decode_utf16 file = Some (with_newlines content) /\
    (file = [] <-> content = []).
Proof.
  intros H. destruct content as [|line content].
  - exists []. split; [reflexivity|]. split; [reflexivity|tauto].
  - eexists. split; [apply save_as_utf16_scalar; exact H|]. split.
    + apply decode_utf16_with_bom. apply scalar_with_newlines. exact H.
    + split; discriminate.
Qed.

Lemma save_as_utf16_decodes_witness :
  exists file,
    save_as_utf16 (convert_to_csv [([0xFEFF; 75], [0x1F600])]) = Saved file /\
    decode_utf16 file =
      Some (with_newlines (convert_to_csv [([0xFEFF; 75], [0x1F600])])) /\
    (file = [] <-> convert_to_csv [([0xFEFF; 75], [0x1F600])] = []).
Proof.
  apply (save_as_utf16_decodes (convert_to_csv [([0xFEFF; 75], [0x1F600])])).
  repeat constructor.
Defined.

Lemma write_lines_stops (first : bool) (good : list str) (bad : str) (rest : list str)
    (file : bytes) :
  Forall (fun line => forallb is_scalar line = true) good ->
  forallb is_scalar bad = false ->
  exists file',
    write_lines first good file = Saved file' /\
    write_lines first (good ++ bad :: rest) file = UnicodeEncodeError file'.
Proof.
  intros Hgood Hbad. revert first file.
  induction Hgood as [|line good Hl Hg IH]; intros first file.
  - exists file. split; [reflexivity|]. cbn [app write_lines]. unfold utf_16_encode.
    rewrite forallb_app, Hbad. reflexivity.
  - cbn [app write_lines]. unfold utf_16_encode. rewrite scalar_line by exact Hl.
    apply IH.
Qed.

(** X17: when a line holds a code point that is not a Unicode scalar value
    (a lone surrogate), [save_as_utf16] stops there with
    [UnicodeEncodeError]: the file holds exactly what the lines before it would
    have given, and nothing of that line or the lines after it. *)
Theorem save_as_utf16_stops (good : list str) (bad : str) (rest : list str) :
  Forall (fun line => forallb is_scalar line = true) good ->
  forallb is_scalar bad = false ->
  exists file,
    save_as_utf16 good = Saved file /\
    save_as_utf16 (good ++ bad :: rest) = UnicodeEncodeError file.
Proof.
  intros Hgood Hbad. unfold save_as_utf16. apply write_lines_stops; assumption.
Qed.

Lemma save_as_utf16_stops_witness :
  exists file,
    save_as_utf16 [text "ok"] = Saved file /\
    save_as_utf16 ([text "ok"] ++ [0xD800] :: [text "never"]) = UnicodeEncodeError file.
Proof.
  apply (save_as_utf16_stops [text "ok"] [0xD800] [text "never"]).
  - repeat constructor.
  - reflexivity.
Defined.

(** * Comparing two tables *)

Lemma str_eqb_refl (a : str) : str_eqb a a = true.
Proof. apply str_eqb_eq. reflexivity. Qed.

Lemma str_eqb_neq (a b : str) : str_eqb a b = false <-> a <> b.
Proof.
  split.
  - intros H E. apply str_eqb_eq in E. congruence.
  - intros H. destruct (str_eqb a b) eqn:E; [|reflexivity].
    apply str_eqb_eq in E. contradiction.
Qed.

Lemma dict_get_set (d : dict) (k v k' : str) :
  dict_get (dict_set d k v) k' = if str_eqb k k' then Some v else dict_get d k'.
Proof.
  induction d as [|[k0 v0] d IH]; simpl.
  - reflexivity.
  - destruct (str_eqb k0 k) eqn:E0; simpl.
    + apply str_eqb_eq in E0. subst k0.
      destruct (str_eqb k k'); reflexivity.
    + destruct (str_eqb k0 k') eqn:E1.
      * apply str_eqb_eq in E1. subst k'.
        apply str_eqb_neq in E0.
        assert (Hkk : str_eqb k k0 = false) by (apply str_eqb_neq; congruence).
        rewrite Hkk. reflexivity.
      * exact IH.
Qed.

Lemma dict_get_app (d1 d2 : dict) (k : str) :
  dict_get (d1 ++ d2) k =
  match dict_get d1 k with
  | Some v => Some v
  | None => dict_get d2 k
  end.
Proof.
  induction d1 as [|[k0 v0] d1 IH]; simpl; [reflexivity|].
  destruct (str_eqb k0 k); [reflexivity|exact IH].
Qed.

Lemma dict_get_fold (pairs : list (str * str)) (d : dict) (k : str) :
  dict_get (fold_left (fun d kv => dict_set d (fst kv) (snd kv)) pairs d) k =
  match dict_get (rev pairs) k with
  | Some v => Some v
  | None => dict_get d k
  end.
Proof.
  revert d. induction pairs as [|[k0 v0] pairs IH]; intros d; simpl; [reflexivity|].
  rewrite IH, dict_get_app, dict_get_set. simpl.
  destruct (dict_get (rev pairs) k); [reflexivity|].
  destruct (str_eqb k0 k); reflexivity.
Qed.

(** [dict(pairs)[k]] is the value of the last pair with key [k]. *)
Lemma dict_get_dict_of (pairs : list (str * str)) (k : str) :
  dict_get (dict_of pairs) k = dict_get (rev pairs) k.
Proof.
  unfold dict_of. rewrite dict_get_fold.
  destruct (dict_get (rev pairs) k); reflexivity.
Qed.

Lemma dict_set_keys (d : dict) (k v k' : str) :
  In k' (map fst (dict_set d k v)) <-> In k' (map fst d) \/ k' = k.
Proof.
  induction d as [|[k0 v0] d IH]; simpl.
  - intuition.
  - destruct (str_eqb k0 k) eqn:E; simpl.
    + apply str_eqb_eq in E. subst. intuition.
    + rewrite IH. intuition.
Qed.

Lemma dict_set_NoDup (d : dict) (k v : str) :
  NoDup (map fst d) -> NoDup (map fst (dict_set d k v)).
Proof.
  induction d as [|[k0 v0] d IH]; simpl; intros H.
  - constructor; [intros []|constructor].
  - inversion H as [|? ? Hnotin Hnd]; subst.
    destruct (str_eqb k0 k) eqn:E; simpl.
    + constructor; assumption.
    + constructor; [|apply IH; exact Hnd].
      rewrite dict_set_keys. intros [Hin|Heq]; [contradiction|].
      subst. rewrite str_eqb_refl in E. discriminate.
Qed.

Lemma dict_of_NoDup (pairs : list (str * str)) : NoDup (map fst (dict_of pairs)).
Proof.
  unfold dict_of.
  assert (H : forall d, NoDup (map fst d) ->
                        NoDup (map fst (fold_left (fun d kv => dict_set d (fst kv) (snd kv))
                                                  pairs d))).
  { induction pairs as [|kv pairs IH]; intros d Hd; simpl; [exact Hd|].
    apply IH. apply dict_set_NoDup. exact Hd. }
  apply H. constructor.
Qed.

Lemma dict_get_In (d : dict) (k v : str) :
  dict_get d k = Some v -> In (k, v) d.
Proof.
  induction d as [|[k0 v0] d IH]; simpl; [discriminate|].
  destruct (str_eqb k0 k) eqn:E.
  - apply str_eqb_eq in E. intros H. inversion H; subst. left. reflexivity.
  - intros H. right. apply IH. exact H.
Qed.

Lemma In_dict_get (d : dict) (k v : str) :
  NoDup (map fst d) -> In (k, v) d -> dict_get d k = Some v.
Proof.
  induction d as [|[k0 v0] d IH]; simpl; intros Hnd Hin; [contradiction|].
  inversion Hnd as [|? ? Hnotin Hnd']; subst.
  destruct Hin as [E|Hin].
  - inversion E; subst. rewrite str_eqb_refl. reflexivity.
  - destruct (str_eqb k0 k) eqn:E.
    + apply str_eqb_eq in E. subst. exfalso. apply Hnotin.
      apply (in_map fst) in Hin. exact Hin.
    + apply IH; assumption.
Qed.

Lemma flat_map_nil {A B : Type} (f : A -> list B) (l : list A) :
  flat_map f l = [] <-> forall x, In x l -> f x = [].
Proof.
  induction l as [|a l IH]; simpl.
  - split; [intros _ x []|reflexivity].
  - split.
    + intros H. apply app_eq_nil in H as [Ha Hl]. intros x [->|Hx]; [exact Ha|].
      apply IH; assumption.
    + intros H. rewrite (H a (or_introl eq_refl)). apply IH.
      intros x Hx. apply H. right. exact Hx.
Qed.

Lemma dict_in_true (d : dict) (k : str) :
  dict_in k d = true <-> exists v, dict_get d k = Some v.
Proof.
  unfold dict_in. destruct (dict_get d k) as [v|].
  - split; [intros _; exists v; reflexivity|reflexivity].
  - split; [discriminate|intros [v H]; discriminate].
Qed.

(** X18: [compare] prints nothing exactly when the two tables give every key
    the same final value: a key counts with the value of its last occurrence,
    and the order of the entries does not matter. *)
Theorem compare_silent_iff (enable : bool) (a b : list (str * str)) :
  compare enable a b = [] <->
  forall k, dict_get (rev a) k = dict_get (rev b) k.
Proof.
  unfold compare. cbv zeta.
  pose proof (dict_of_NoDup a) as Hna. pose proof (dict_of_NoDup b) as Hnb.
  assert (Hgets : (forall k, dict_get (rev a) k = dict_get (rev b) k) <->
                  (forall k, dict_get (dict_of a) k = dict_get (dict_of b) k)).
  { split; intros H k; specialize (H k); rewrite ?dict_get_dict_of in *; exact H. }
  rewrite Hgets. clear Hgets.
  set (da := dict_of a) in *. set (db := dict_of b) in *.
  split.
  - intros H. apply app_eq_nil in H as [H1 H23]. apply app_eq_nil in H23 as [H2 H3].
    rewrite flat_map_nil in H1, H2, H3. intros k.
    destruct (dict_get da k) as [va|] eqn:Ea.
    + apply dict_get_In in Ea as Hin.
      specialize (H1 _ Hin). specialize (H2 _ Hin). cbv beta iota in H1, H2.
      destruct (dict_in k db) eqn:Ein; [|discriminate].
      apply dict_in_true in Ein as [vb Eb]. rewrite Eb in *.
      destruct (str_eqb va vb) eqn:Eq; [|discriminate].
      apply str_eqb_eq in Eq. subst. reflexivity.
    + destruct (dict_get db k) as [vb|] eqn:Eb; [|reflexivity].
      apply dict_get_In in Eb as Hin. specialize (H3 _ Hin). cbv beta iota in H3.
      unfold dict_in in H3. rewrite Ea in H3. discriminate.
  - intros H.
    assert (H1 : forall x, In x da ->
              (let '(key, va) := x in
               match dict_get db key with
               | Some vb =>
                   if negb (str_eqb va vb)
                   then [Colorize.print enable (changed_line key va vb) Colorize.WARNING]
                   else []
               | None => []
               end) = []).
    { intros [k va] Hin. apply (In_dict_get _ _ _ Hna) in Hin.
      rewrite <- H, Hin, str_eqb_refl. reflexivity. }
    assert (H2 : forall x, In x da ->
              (let '(key, va) := x in
               if negb (dict_in key db)
               then [Colorize.print enable (removed_line key va) Colorize.FAIL]
               else []) = []).
    { intros [k va] Hin. apply (In_dict_get _ _ _ Hna) in Hin.
      unfold dict_in. rewrite <- H, Hin. reflexivity. }
    assert (H3 : forall x, In x db ->
              (let '(key, vb) := x in
               if negb (dict_in key da)
               then [Colorize.print enable (added_line key vb) Colorize.OKGREEN]
               else []) = []).
    { intros [k vb] Hin. apply (In_dict_get _ _ _ Hnb) in Hin.
      unfold dict_in. rewrite H, Hin. reflexivity. }
    apply flat_map_nil in H1, H2, H3. rewrite H1, H2, H3. reflexivity.
Qed.

Lemma compare_silent_iff_witness :
  compare true [(text "a", text "1"); (text "b", text "2"); (text "a", text "3")]
               [(text "b", text "2"); (text "a", text "3")] = [] /\
  dict_get (rev [(text "a", text "1"); (text "b", text "2"); (text "a", text "3")])
           (text "a") =
  dict_get (rev [(text "b", text "2"); (text "a", text "3")]) (text "a").
Proof.
  assert (E : compare true
                [(text "a", text "1"); (text "b", text "2"); (text "a", text "3")]
                [(text "b", text "2"); (text "a", text "3")] = [])
    by (vm_compute; reflexivity).
  split; [exact E|].
  exact (proj1 (compare_silent_iff true _ _) E (text "a")).
Defined.

(** X19: [compare] reports every difference: a key whose final values in the
    two tables differ gets a ["!:"] line with both values, a key only in the
    first table a ["-:"] line with its final value, and a key only in the
    second table a ["+:"] line. *)
Theorem compare_reports (enable : bool) (a b : list (str * str)) (k : str) :
  match dict_get (rev a) k, dict_get (rev b) k with
  | Some va, Some vb =>
      va <> vb ->
      In (Colorize.print enable (changed_line k va vb) Colorize.WARNING)
         (compare enable a b)
  | Some va, None =>
      In (Colorize.print enable (removed_line k va) Colorize.FAIL) (compare enable a b)
  | None, Some vb =>
      In (Colorize.print enable (added_line k vb) Colorize.OKGREEN) (compare enable a b)
  | None, None => True
  end.
Proof.
  rewrite <- !dict_get_dict_of. unfold compare. cbv zeta.
  set (da := dict_of a). set (db := dict_of b).
  destruct (dict_get da k) as [va|] eqn:Ea, (dict_get db k) as [vb|] eqn:Eb; [| | |exact I].
  - intros Hne. apply in_or_app. left. apply in_flat_map.
    exists (k, va). split; [apply dict_get_In; exact Ea|].
    cbv beta iota. rewrite Eb.
    apply str_eqb_neq in Hne. rewrite Hne. left. reflexivity.
  - apply in_or_app. right. apply in_or_app. left. apply in_flat_map.
    exists (k, va). split; [apply dict_get_In; exact Ea|].
    cbv beta iota. unfold dict_in. rewrite Eb. left. reflexivity.
  - apply in_or_app. right. apply in_or_app. right. apply in_flat_map.
    exists (k, vb). split; [apply dict_get_In; exact Eb|].
    cbv beta iota. unfold dict_in. rewrite Ea. left. reflexivity.
Qed.

Lemma compare_reports_witness :
  In (Colorize.print false (changed_line (text "a") (text "3") (text "4")) Colorize.WARNING)
     (compare false [(text "a", text "1"); (text "a", text "3")] [(text "a", text "4")]).
Proof.
  pose proof (compare_reports false [(text "a", text "1"); (text "a", text "3")]
                [(text "a", text "4")] (text "a")) as H.
  change (dict_get (rev [(text "a", text "1"); (text "a", text "3")]) (text "a"))
    with (Some (text "3")) in H.
  change (dict_get (rev [(text "a", text "4")]) (text "a")) with (Some (text "4")) in H.
  apply H. vm_compute. discriminate.
Defined.

(** X20: [compare] prints nothing else: every line it prints is the ["!:"]
    line of a key whose final values differ, the ["-:"] line of a key the
    second table does not have, or the ["+:"] line of a key the first table
    does not have. *)
Theorem compare_lines (enable : bool) (a b : list (str * str)) (line : str) :
  In line (compare enable a b) ->
  exists k,
    (exists va vb,
       dict_get (rev a) k = Some va /\ dict_get (rev b) k = Some vb /\ va <> vb /\
       line = Colorize.print enable (changed_line k va vb) Colorize.WARNING) \/
    (exists va,
       dict_get (rev a) k = Some va /\ dict_get (rev b) k = None /\
       line = Colorize.print enable (removed_line k va) Colorize.FAIL) \/
    (exists vb,
       dict_get (rev a) k = None /\ dict_get (rev b) k = Some vb /\
       line = Colorize.print enable (added_line k vb) Colorize.OKGREEN).
Proof.
  unfold compare. cbv zeta.
  pose proof (dict_of_NoDup a) as Hna. pose proof (dict_of_NoDup b) as Hnb.
  assert (Ha : forall k, dict_get (rev a) k = dict_get (dict_of a) k)
    by (intros; symmetry; apply dict_get_dict_of).
  assert (Hb : forall k, dict_get (rev b) k = dict_get (dict_of b) k)
    by (intros; symmetry; apply dict_get_dict_of).
  set (da := dict_of a) in *. set (db := dict_of b) in *.
  intros Hin. apply in_app_or in Hin as [Hin|Hin]; [|apply in_app_or in Hin as [Hin|Hin]];
    apply in_flat_map in Hin as [[k v] [Hkv Hline]]; exists k; cbv beta iota in Hline.
  - apply (In_dict_get _ _ _ Hna) in Hkv.
    destruct (dict_get db k) as [vb|] eqn:Eb; [|contradiction].
    destruct (str_eqb v vb) eqn:Eq; [contradiction|].
    destruct Hline as [<-|[]]. left. exists v, vb. rewrite Ha, Hb.
    apply str_eqb_neq in Eq. auto.
  - apply (In_dict_get _ _ _ Hna) in Hkv.
    unfold dict_in in Hline. destruct (dict_get db k) as [vb|] eqn:Eb; [contradiction|].
    destruct Hline as [<-|[]]. right. left. exists v. rewrite Ha, Hb. auto.
  - apply (In_dict_get _ _ _ Hnb) in Hkv.
    unfold dict_in in Hline. destruct (dict_get da k) as [va|] eqn:Ea; [contradiction|].
    destruct Hline as [<-|[]]. right. right. exists v. rewrite Ha, Hb. auto.
Qed.

Lemma compare_lines_witness :
  In (removed_line (text "b") (text "2"))
     (compare false [(text "a", text "1"); (text "b", text "2")] [(text "a", text "1")]) /\
  exists k,
    (exists va vb,
       dict_get (rev [(text "a", text "1"); (text "b", text "2")]) k = Some va /\
       dict_get (rev [(text "a", text "1")]) k = Some vb /\ va <> vb /\
       removed_line (text "b") (text "2") =
         Colorize.print false (changed_line k va vb) Colorize.WARNING) \/
    (exists va,
       dict_get (rev [(text "a", text "1"); (text "b", text "2")]) k = Some va /\
       dict_get (rev [(text "a", text "1")]) k = None /\
       removed_line (text "b") (text "2") =
         Colorize.print false (removed_line k va) Colorize.FAIL) \/
    (exists vb,
       dict_get (rev [(text "a", text "1"); (text "b", text "2")]) k = None /\
       dict_get (rev [(text "a", text "1")]) k = Some vb /\
       removed_line (text "b") (text "2") =
         Colorize.print false (added_line k vb) Colorize.OKGREEN).
Proof.
  assert (Hin : In (removed_line (text "b") (text "2"))
                   (compare false [(text "a", text "1"); (text "b", text "2")]
                            [(text "a", text "1")]))
    by (vm_compute; left; reflexivity).
  split; [exact Hin|]. exact (compare_lines false _ _ _ Hin).
Defined.

(** * Searching a table *)

Section Search.

Variable re_search : str -> str -> bool -> option bool.
Variables (pattern : str) (ignore_case search_only_values : bool).
Variables (exclude_keys include_keys : option (list str)).

Local Notation "'keeps'" :=
  (search_passes re_search pattern ignore_case search_only_values
                 exclude_keys include_keys).

Lemma search_loop_filter (data out0 out : list (str * str)) :
  search_loop re_search pattern ignore_case search_only_values
              exclude_keys include_keys data out0 = Some out ->
  out = out0 ++ filter keeps data.
Proof.
  revert out0. induction data as [|tuple data IH]; intros out0; simpl.
  - intros E. inversion E. symmetry. apply app_nil_r.
  - unfold search_passes at 1.
    destruct (search_keeps _ _ _ _ _ _ tuple) as [[|]|]; [| |discriminate]; intros E;
      apply IH in E; rewrite E; [rewrite <- app_assoc|]; reflexivity.
Qed.

Lemma any_search_true (patterns : list str) (s : str) :
  any_search re_search patterns s ignore_case = Some true ->
  exists p, In p patterns /\ re_search p s ignore_case = Some true.
Proof.
  induction patterns as [|p patterns IH]; simpl; [discriminate|].
  destruct (re_search p s ignore_case) as [[|]|] eqn:E; [| |discriminate].
  - intros _. exists p. auto.
  - intros H. destruct (IH H) as (q & Hq & Eq). exists q. auto.
Qed.

Lemma any_search_false (patterns : list str) (s : str) :
  any_search re_search patterns s ignore_case = Some false ->
  forall p, In p patterns -> re_search p s ignore_case = Some false.
Proof.
  induction patterns as [|p patterns IH]; simpl; [intros _ q []|].
  destruct (re_search p s ignore_case) as [[|]|] eqn:E; [discriminate| |discriminate].
  intros H q [<-|Hq]; [exact E|apply IH; assumption].
Qed.

(** X21: when [search] returns, its result is the tuples of the table that
    passed the three tests, in table order and as often as they occur; every
    returned tuple has a value that matches the pattern or, unless only values
    are searched, a key that does; when exclude patterns are given none of them
    matches its key, and when include patterns are given one of them does. *)
Theorem search_results (data out : list (str * str)) :
  Table.search re_search data pattern ignore_case search_only_values
               exclude_keys include_keys = Some out ->
  out = filter keeps data /\
  forall tuple, In tuple out ->
    In tuple data /\
    (re_search pattern (snd tuple) ignore_case = Some true \/
     (search_only_values = false /\
      re_search pattern (fst tuple) ignore_case = Some true)) /\
    (given exclude_keys = true ->
     forall p, In p (keys_of exclude_keys) ->
               re_search p (fst tuple) ignore_case = Some false) /\
    (given include_keys = true ->
     exists p, In p (keys_of include_keys) /\
               re_search p (fst tuple) ignore_case = Some true).
Proof.
  unfold Table.search. intros E. apply search_loop_filter in E. simpl in E.
  split; [exact E|]. subst out. intros tuple Hin.
  apply filter_In in Hin as [Hin Hk]. split; [exact Hin|].
  unfold search_passes, search_keeps in Hk.
  destruct (given include_keys) eqn:Gi.
  - destruct (any_search re_search (keys_of include_keys) (fst tuple) ignore_case)
      as [[|]|] eqn:Ei; cbn [option_map negb] in Hk; try discriminate.
    destruct (given exclude_keys) eqn:Ge.
    + destruct (any_search re_search (keys_of exclude_keys) (fst tuple) ignore_case)
        as [[|]|] eqn:Ee; try discriminate.
      split; [|split; [intros _; apply any_search_false; exact Ee
                      |intros _; apply any_search_true; exact Ei]].
      destruct search_only_values; cbn [negb] in Hk.
      * left. destruct (re_search pattern (snd tuple) ignore_case) as [[|]|];
          try discriminate; reflexivity.
      * destruct (re_search pattern (fst tuple) ignore_case) as [[|]|] eqn:Ek;
          try discriminate; [right; auto|].
        left. destruct (re_search pattern (snd tuple) ignore_case) as [[|]|];
          try discriminate; reflexivity.
    + split; [|split; [discriminate|intros _; apply any_search_true; exact Ei]].
      destruct search_only_values; cbn [negb] in Hk.
      * left. destruct (re_search pattern (snd tuple) ignore_case) as [[|]|];
          try discriminate; reflexivity.
      * destruct (re_search pattern (fst tuple) ignore_case) as [[|]|] eqn:Ek;
          try discriminate; [right; auto|].
        left. destruct (re_search pattern (snd tuple) ignore_case) as [[|]|];
          try discriminate; reflexivity.
  - destruct (given exclude_keys) eqn:Ge.
    + destruct (any_search re_search (keys_of exclude_keys) (fst tuple) ignore_case)
        as [[|]|] eqn:Ee; try discriminate.
      split; [|split; [intros _; apply any_search_false; exact Ee|discriminate]].
      destruct search_only_values; cbn [negb] in Hk.
      * left. destruct (re_search pattern (snd tuple) ignore_case) as [[|]|];
          try discriminate; reflexivity.
      * destruct (re_search pattern (fst tuple) ignore_case) as [[|]|] eqn:Ek;
          try discriminate; [right; auto|].
        left. destruct (re_search pattern (snd tuple) ignore_case) as [[|]|];
          try discriminate; reflexivity.
    + split; [|split; discriminate].
      destruct search_only_values; cbn [negb] in Hk.
      * left. destruct (re_search pattern (snd tuple) ignore_case) as [[|]|];
          try discriminate; reflexivity.
      * destruct (re_search pattern (fst tuple) ignore_case) as [[|]|] eqn:Ek;
          try discriminate; [right; auto|].
        left. destruct (re_search pattern (snd tuple) ignore_case) as [[|]|];
          try discriminate; reflexivity.
Qed.

End Search.

Lemma search_results_witness :
  Table.search (fun p s _ => Some (str_eqb p s))
               [(text "a", text "x"); (text "b", text "y"); (text "x", text "z")]
               (text "x") false false (Some [text "b"]) None =
    Some [(text "a", text "x"); (text "x", text "z")] /\
  In (text "a", text "x")
     [(text "a", text "x"); (text "b", text "y"); (text "x", text "z")].
Proof.
  assert (E : Table.search (fun p s _ => Some (str_eqb p s))
                [(text "a", text "x"); (text "b", text "y"); (text "x", text "z")]
                (text "x") false false (Some [text "b"]) None =
              Some [(text "a", text "x"); (text "x", text "z")])
    by (vm_compute; reflexivity).
  split; [exact E|].
  destruct (search_results _ _ _ _ _ _ _ _ E) as [_ H].
  exact (proj1 (H (text "a", text "x") (or_introl eq_refl))).
Defined.

Lemma any_search_total (m : str -> str -> bool -> bool) (patterns : list str) (s : str)
    (ignore_case : bool) :
  any_search (fun p s ic => Some (m p s ic)) patterns s ignore_case =
  Some (existsb (fun p => m p s ignore_case) patterns).
Proof.
  induction patterns as [|p patterns IH]; simpl; [reflexivity|].
  destruct (m p s ignore_case); [reflexivity|exact IH].
Qed.

Lemma search_keeps_total (m : str -> str -> bool -> bool)
    (pattern : str) (ignore_case search_only_values : bool)
    (exclude_keys include_keys : option (list str)) (tuple : str * str) :
  search_keeps (fun p s ic => Some (m p s ic)) pattern ignore_case search_only_values
               exclude_keys include_keys tuple =
  Some (search_test m pattern ignore_case search_only_values
                    exclude_keys include_keys tuple).
Proof.
  unfold search_keeps, search_test. rewrite !any_search_total.
  destruct (given include_keys), (given exclude_keys), search_only_values;
    cbn [option_map negb orb andb];
    repeat match goal with
           | |- context [existsb ?f ?l] => destruct (existsb f l); cbn [negb orb andb]
           end;
    try reflexivity;
    destruct (m pattern (fst tuple) ignore_case); cbn [negb orb andb]; reflexivity.
Qed.

(** X22: with a matcher that never raises, [search] always returns, and its
    result is the table filtered by one test: the key matches one of the
    include patterns (when any is given), matches none of the exclude patterns
    (when any is given), and the value matches the pattern or, unless only
    values are searched, the key does. A missing or empty pattern list filters
    nothing. *)
Theorem search_is_filter (m : str -> str -> bool -> bool)
    (data : list (str * str)) (pattern : str) (ignore_case search_only_values : bool)
    (exclude_keys include_keys : option (list str)) :
  Table.search (fun p s ic => Some (m p s ic)) data pattern ignore_case
               search_only_values exclude_keys include_keys =
  Some (filter (search_test m pattern ignore_case search_only_values
                            exclude_keys include_keys) data).
Proof.
  unfold Table.search.
  assert (H : forall out0,
            search_loop (fun p s ic => Some (m p s ic)) pattern ignore_case
                        search_only_values exclude_keys include_keys data out0 =
            Some (out0 ++ filter (search_test m pattern ignore_case search_only_values
                                              exclude_keys include_keys) data)).
  { induction data as [|tuple data IH]; intros out0; simpl.
    - rewrite app_nil_r. reflexivity.
    - rewrite search_keeps_total, IH.
      destruct (search_test _ _ _ _ _ _ tuple); [rewrite <- app_assoc|]; reflexivity. }
  apply H.
Qed.

(** * The fields of a resolved header *)

Lemma int_at_range (data : bytes) (p v : Z) :
  int_at data p = Some v -> - 2 ^ 31 <= v < 2 ^ 31.
Proof. unfold int_at. intros E. apply unpack_i_Some in E as [H _]. exact H. Qed.

Lemma uint_at_range (data : bytes) (p v : Z) :
  uint_at data p = Some v -> 0 <= v < 2 ^ 32.
Proof. unfold uint_at. intros E. apply unpack_I_Some in E as [H _]. exact H. Qed.

Lemma resolve_header_Ok_ranges (data : bytes) (c : Z) (m : Meta) (p : Z) :
  resolve_header data c = Ok (m, p) ->
  - 2 ^ 31 <= file_version m < 2 ^ 31 /\
  0 <= license_version m < 2 ^ 32 /\
  0 <= ue_version m < 2 ^ 32 /\
  0 <= cook_version m < 2 ^ 32 /\
  0 <= asset_type m < 2 ^ 32 /\
  0 <= data_offset m < 2 ^ 32.
Proof.
  unfold resolve_header, resolve_from.
  destruct (int_at data (c + 4)) as [fv|] eqn:E1; [|discriminate].
  destruct (uint_at data (c + 8)) as [lic|] eqn:E2; [|discriminate].
  destruct (uint_at data (c + 12)) as [ue|] eqn:E3; [|discriminate].
  destruct (uint_at data (c + 16)) as [cook|] eqn:E4; [|discriminate].
  destruct (uint_at data (cursor_after_cook _ _ _ + 4)) as [at_|] eqn:E5; [|discriminate].
  destruct (uint_at data (bytes_find _ _ _ + 4)) as [do_|] eqn:E6; [|discriminate].
  destruct (string_at data _) as [[path_ q]|]; [|discriminate].
  match goal with |- context [int_at data ?x] => destruct (int_at data x) end;
    [|discriminate].
  destruct (string_at data _) as [[guid_ q']|]; [|discriminate].
  intros E. inversion E; subst.
  cbn [file_version license_version ue_version cook_version asset_type data_offset].
  apply int_at_range in E1. apply uint_at_range in E2, E3, E4, E5, E6.
  auto 10.
Qed.

(** X23: every [Meta] that [parse_meta] returns has [file_version] in the
    signed 32-bit range and [license_version], [ue_version], [cook_version],
    [asset_type] and [data_offset] in the unsigned 32-bit range. *)
Theorem parse_meta_ranges (data : bytes) (meta : Meta) :
  parse_meta data = Ok meta ->
  - 2 ^ 31 <= file_version meta < 2 ^ 31 /\
  0 <= license_version meta < 2 ^ 32 /\
  0 <= ue_version meta < 2 ^ 32 /\
  0 <= cook_version meta < 2 ^ 32 /\
  0 <= asset_type meta < 2 ^ 32 /\
  0 <= data_offset meta < 2 ^ 32.
Proof.
  intros H. apply parse_meta_Ok in H as [_ Hg].
  pose proof (get_asset_meta_resolve_header data 0) as Hr. rewrite Hg in Hr.
  simpl in Hr. symmetry in Hr. exact (resolve_header_Ok_ranges _ _ _ _ Hr).
Qed.

Lemma parse_meta_ranges_witness :
  parse_meta legacy_header = Ok legacy_meta /\
  - 2 ^ 31 <= file_version legacy_meta < 2 ^ 31 /\
  0 <= license_version legacy_meta < 2 ^ 32 /\
  0 <= ue_version legacy_meta < 2 ^ 32 /\
  0 <= cook_version legacy_meta < 2 ^ 32 /\
  0 <= asset_type legacy_meta < 2 ^ 32 /\
  0 <= data_offset legacy_meta < 2 ^ 32.
Proof.
  assert (E : parse_meta legacy_header = Ok legacy_meta) by (vm_compute; reflexivity).
  split; [exact E|]. exact (parse_meta_ranges legacy_header legacy_meta E).
Defined.

(** * Tables that end inside an entry *)

Lemma encode_string_shape (t : str) (bs : bytes) :
  encode_string t = Some bs ->
  exists n body,
    bs = le_bytes 4 n ++ body /\ - 2 ^ 31 <= n < 2 ^ 31 /\ n <> 0 /\
    len body = fst (string_extent n).
Proof.
  unfold encode_string, encode_ascii_string, encode_utf16_string.
  destruct (forallb is_ascii t).
  - destruct (pack_i (len t + 1)) as [prefix|] eqn:Hp; [|discriminate].
    apply pack_i_Some in Hp as [Hr Hprefix]. subst prefix.
    intros E. inversion E. eexists _, _. split; [reflexivity|].
    pose proof (len_nonneg t). split; [lia|]. split; [lia|].
    unfold string_extent. destruct (Z.ltb_spec (len t + 1) 0); [lia|]. cbn [fst].
    rewrite len_app. unfold len. rewrite length_map. simpl. lia.
  - destruct (forallb is_scalar t); [|discriminate]. cbv zeta.
    destruct (pack_i (- len (utf16_units t ++ [0]))) as [prefix|] eqn:Hp; [|discriminate].
    apply pack_i_Some in Hp as [Hr Hprefix]. subst prefix.
    intros E. inversion E. eexists _, _. split; [reflexivity|].
    rewrite len_utf16le_bytes.
    rewrite len_app in *. pose proof (len_nonneg (utf16_units t)).
    change (len [0]) with 1 in *. split; [lia|]. split; [lia|].
    unfold string_extent.
    destruct (Z.ltb_spec (- (len (utf16_units t) + 1)) 0); [|lia]. cbn [fst]. lia.
Qed.

Lemma read_string_underrun (data : bytes) (c n : Z) :
  int_at data c = Some n -> n <> 0 ->
  len data - (c + 4) < fst (string_extent n) ->
  read_string (mkAssetReader data c) = Raises struct_error (mkAssetReader data (c + 4)).
Proof.
  intros Hat Hne Hshort. rewrite read_string_eq, Hat. cbv zeta.
  pose proof (string_extent_positive n Hne (int_at_range _ _ _ Hat)) as Hpos.
  pose proof (len_slice_short data (c + 4) _ Hpos Hshort) as Hs.
  unfold unpack_s.
  destruct (Z.eqb_spec (len (slice data (c + 4) (c + 4 + fst (string_extent n))))
                       (fst (string_extent n))); [lia|reflexivity].
Qed.

Lemma len_firstn_below (bs : bytes) (j : nat) :
  (j <= List.length bs)%nat -> len (firstn j bs) = Z.of_nat j.
Proof.
  intros Hj. unfold len. rewrite length_firstn.
  generalize (Nat.le_min_l j (List.length bs)). lia.
Qed.

Lemma read_string_cut (t : str) (bs front : bytes) (j : nat) :
  encode_string t = Some bs ->
  (j < List.length bs)%nat ->
  exists r,
    read_string (mkAssetReader (front ++ firstn j bs) (len front)) = Raises struct_error r.
Proof.
  intros Henc Hj.
  destruct (encode_string_shape _ _ Henc) as (n & body & -> & Hn & Hne & Hbody).
  pose proof (len_firstn_below (le_bytes 4 n ++ body) j ltac:(lia)) as Hcut.
  pose proof (len_nonneg front) as Hfront.
  destruct (Nat.lt_ge_cases j 4) as [Hlt|Hge].
  - eexists. apply short_read_string. cbn [__data __cursor].
    rewrite len_app, Hcut. lia.
  - exists (mkAssetReader (front ++ firstn j (le_bytes 4 n ++ body)) (len front + 4)).
    apply (read_string_underrun _ _ n); [|exact Hne|].
    + apply int_at_holds; [exact Hn|].
      rewrite firstn_app, (firstn_all2 (le_bytes 4 n)) by (simpl; lia).
      apply holds_middle.
    + rewrite len_app, Hcut. rewrite length_app in Hj.
      unfold len in Hbody. simpl in Hj. lia.
Qed.

Lemma read_pair_cut (kv : str * str) (eb front : bytes) (j : nat) :
  encode_entry kv = Some eb ->
  starts_with_bom (fst kv) = false ->
  (j < List.length eb)%nat ->
  exists r, forall (B : Type) (k : str -> str -> method B),
    (key <- read_string ;; value <- read_string ;; k key value)
      (mkAssetReader (front ++ firstn j eb) (len front)) = Raises struct_error r.
Proof.
  unfold encode_entry. intros He Hbom Hj.
  apply concat_fields_cons in He as (kb & r1 & Hk & He & ->).
  apply concat_fields_cons in He as (vb & r2 & Hv & He & ->).
  simpl in He. inversion He; subst r2. clear He.
  rewrite app_nil_r in *. rewrite length_app in Hj.
  destruct (Nat.lt_ge_cases j (List.length kb)) as [Hlt|Hge].
  - destruct (read_string_cut _ _ front j Hk Hlt) as [r Hr].
    exists r. intros B k.
    rewrite firstn_app. replace (j - List.length kb)%nat with 0%nat by lia.
    cbn [firstn]. rewrite app_nil_r.
    apply bind_Raises. exact Hr.
  - destruct (read_string_cut _ _ (front ++ kb) (j - List.length kb) Hv ltac:(lia))
      as [r Hr].
    exists r. intros B k.
    rewrite firstn_app, (firstn_all2 kb) by lia.
    rewrite (app_assoc front kb).
    rewrite (len_app front kb) in Hr.
    assert (Hkh : holds ((front ++ kb) ++ firstn (j - List.length kb) vb) (len front) kb).
    { rewrite <- app_assoc. apply holds_middle. }
    reader_step (read_string_encoded _ _ _ _ Hk Hbom Hkh).
    apply bind_Raises. exact Hr.
Qed.

Lemma read_entries_add (n k : nat) (out : list (str * str)) (self : AssetReader) :
  read_entries (n + S k) out self =
  (out' <- read_entries n out ;;
   key <- read_string ;;
   value <- read_string ;;
   read_entries k (out' ++ [(key, value)])) self.
Proof.
  revert out self. induction n as [|n IH]; intros out self.
  - reflexivity.
  - change (read_entries (S n + S k) out self)
      with ((key <- read_string ;; value <- read_string ;;
             read_entries (n + S k) (out ++ [(key, value)])) self).
    change (read_entries (S n) out)
      with (key <- read_string ;; value <- read_string ;;
            read_entries n (out ++ [(key, value)])).
    unfold bind in *.
    destruct (read_string self) as [key r1|e r1]; [|reflexivity].
    destruct (read_string r1) as [value r2|e r2]; [|reflexivity].
    rewrite IH. reflexivity.
Qed.

Lemma read_entries_encoded_end (entries : list (str * str)) :
  forall (bs data : bytes) (c : Z) (out : list (str * str)),
    concat_fields (map encode_entry entries) = Some bs ->
    Forall (fun kv => starts_with_bom (fst kv) = false /\
                      starts_with_bom (snd kv) = false) entries ->
    holds data c bs ->
    read_entries (List.length entries) out (mkAssetReader data c) =
    Returns (out ++ entries) (mkAssetReader data (c + len bs)).
Proof.
  induction entries as [|kv entries IH]; intros bs data c out Hbs Hbom Hholds.
  - simpl in Hbs. inversion Hbs; subst bs.
    cbn [List.length read_entries ret]. rewrite app_nil_r.
    change (len (@nil byte)) with 0. rewrite Z.add_0_r. reflexivity.
  - cbn [map] in Hbs.
    apply concat_fields_cons in Hbs as (eb & rb & He & Hrest & ->).
    unfold encode_entry in He.
    apply concat_fields_cons in He as (kb & r1 & Hk & He & ->).
    apply concat_fields_cons in He as (vb & r2 & Hv & He & ->).
    simpl in He. inversion He; subst r2. clear He.
    rewrite app_nil_r in *. rewrite <- app_assoc in Hholds.
    inversion Hbom as [|? ? [Hbk Hbv] Hbom']; subst.
    destruct (holds_field_at _ c (len kb) (c + len kb) _ _ Hholds eq_refl eq_refl)
      as [Hkh Hholds1].
    destruct (holds_field_at _ (c + len kb) (len vb) (c + len kb + len vb) _ _
                Hholds1 eq_refl eq_refl) as [Hvh Hholds2].
    cbn [List.length read_entries].
    reader_step (read_string_encoded _ _ data c Hk Hbk Hkh).
    reader_step (read_string_encoded _ _ data (c + len kb) Hv Hbv Hvh).
    rewrite <- surjective_pairing.
    rewrite (IH rb data (c + len kb + len vb) (out ++ [kv]) Hrest Hbom' Hholds2).
    rewrite <- app_assoc, !len_app. cbn [app].
    replace (c + len kb + len vb + len rb) with (c + (len kb + len vb + len rb)) by lia.
    reflexivity.
Qed.

Lemma table_prologue_built
    (m : Meta) (name : str) (count : Z) (entries : list (str * str))
    (data tail : bytes) :
  build_string_table m (asset_guid m) name count entries = Some data ->
  option_map len (build_header m) = Some (data_offset m) ->
  asset_type m = 1 ->
  starts_with_bom (path m) = false ->
  starts_with_bom (asset_guid m) = false ->
  starts_with_bom name = false ->
  exists front eb,
    data = front ++ eb /\
    concat_fields (map encode_entry entries) = Some eb /\
    - 2 ^ 31 <= count < 2 ^ 31 /\
    table_prologue (mkAssetReader (data ++ tail) 0) =
      Returns count (mkAssetReader (data ++ tail) (len front)).
Proof.
  intros Hbuild Hoff Htype Hbp Hbg Hbn.
  unfold build_string_table in Hbuild.
  apply concat_fields_cons in Hbuild as (header & r & Hh & Hbuild & ->).
  apply concat_fields_cons in Hbuild as (payload & r' & Hp & Hbuild & ->).
  simpl in Hbuild. inversion Hbuild; subst r'. clear Hbuild.
  rewrite Hh in Hoff. simpl in Hoff. inversion Hoff as [Hdo]. clear Hoff.
  rewrite app_nil_r.
  unfold build_payload in Hp. cbn [app] in Hp.
  apply concat_fields_cons in Hp as (f1 & r1 & E1 & Hp & ->).
  apply concat_fields_cons in Hp as (gb & r2 & Eg & Hp & ->).
  apply concat_fields_cons in Hp as (f3 & r3 & E3 & Hp & ->).
  apply concat_fields_cons in Hp as (nb & r4 & En & Hp & ->).
  apply concat_fields_cons in Hp as (cb & eb & Ec & Hp & ->).
  inversion E1; subst f1. inversion E3; subst f3. clear E1 E3.
  apply pack_i_Some in Ec as [Hcr ->].
  exists (header ++ zeros 28 ++ gb ++ zeros 12 ++ nb ++ le_bytes 4 count), eb.
  split; [rewrite <- !app_assoc; reflexivity|].
  split; [exact Hp|]. split; [exact Hcr|].
  set (payload := zeros 28 ++ gb ++ zeros 12 ++ nb ++ le_bytes 4 count ++ eb).
  rewrite <- app_assoc.
  set (d := header ++ payload ++ tail).
  pose proof (parse_meta_built m header (payload ++ tail) Hh Hbp Hbg) as Hmeta.
  fold d in Hmeta. apply parse_meta_Ok in Hmeta as [Hv Hg].
  pose proof (holds_middle header payload tail) as Hpl. fold d in Hpl.
  rewrite Hdo in Hpl. unfold payload in Hpl.
  set (o := data_offset m) in *.
  destruct (holds_field_at _ o 28 (o + 28) _ _ Hpl eq_refl eq_refl) as [_ H1].
  destruct (holds_field_at _ (o + 28) (len gb) (o + 28 + len gb) _ _ H1 eq_refl eq_refl)
    as [Hgh H2].
  destruct (holds_field_at _ _ 12 (o + 28 + len gb + 12) _ _ H2 eq_refl eq_refl)
    as [_ H3].
  destruct (holds_field_at _ _ (len nb) (o + 28 + len gb + 12 + len nb) _ _
              H3 eq_refl eq_refl) as [Hnh H4].
  destruct (holds_field_at _ _ 4 (o + 28 + len gb + 12 + len nb + 4) _ _
              H4 eq_refl eq_refl) as [Hch Heh].
  assert (Hfront : len (header ++ zeros 28 ++ gb ++ zeros 12 ++ nb ++ le_bytes 4 count) =
                   o + 28 + len gb + 12 + len nb + 4).
  { rewrite !len_app, len_le_bytes. fold o in Hdo. rewrite Hdo.
    change (len (zeros 28)) with 28. change (len (zeros 12)) with 12. lia. }
  rewrite Hfront.
  unfold table_prologue.
  reader_step Hv. reader_step Hg. rewrite Htype. cbn [Z.eqb Pos.eqb negb].
  unfold bind at 1. cbn [ret].
  reader_step reset_eq. reader_step skip_eq. fold o.
  reader_step (read_string_encoded _ _ d (o + 28) Eg Hbg Hgh).
  assert (Heq : str_eqb (asset_guid m) (asset_guid m) = true)
    by (apply str_eqb_eq; reflexivity).
  rewrite Heq. cbn [negb]. unfold bind at 1. cbn [ret].
  reader_step skip_eq.
  reader_step (read_string_encoded _ _ d (o + 28 + len gb + 12) En Hbn Hnh).
  rewrite read_int_eq.
  rewrite (int_at_holds d _ count Hcr Hch). reflexivity.
Qed.

Lemma parse_table_cut
    (m : Meta) (name : str) (count : Z) (entries : list (str * str))
    (next : str * str) (data nb : bytes) (j : nat) :
  build_string_table m (asset_guid m) name count entries = Some data ->
  option_map len (build_header m) = Some (data_offset m) ->
  asset_type m = 1 ->
  starts_with_bom (path m) = false ->
  starts_with_bom (asset_guid m) = false ->
  starts_with_bom name = false ->
  Forall (fun kv => starts_with_bom (fst kv) = false /\
                    starts_with_bom (snd kv) = false) entries ->
  len entries < count ->
  encode_entry next = Some nb ->
  starts_with_bom (fst next) = false ->
  (j < List.length nb)%nat ->
  parse_string_table (data ++ firstn j nb) = Exception (AssetParseExceptionFrom struct_error).
Proof.
  intros Hbuild Hoff Htype Hbp Hbg Hbn Hbe Hcount Hnext Hbk Hj.
  destruct (table_prologue_built m name count entries data (firstn j nb)
              Hbuild Hoff Htype Hbp Hbg Hbn)
    as (front & eb & -> & Heb & Hcr & Hpro).
  assert (Hh : holds ((front ++ eb) ++ firstn j nb) (len front) eb)
    by (rewrite <- app_assoc; apply holds_middle).
  pose proof (read_entries_encoded_end entries eb _ (len front) [] Heb Hbe Hh) as Hread.
  destruct (read_pair_cut next nb (front ++ eb) j Hnext Hbk Hj) as [r Hpair].
  rewrite (len_app front eb) in Hpair.
  rewrite parse_string_table_prologue. unfold try_parse, bind at 1. rewrite Hpro.
  replace (range count)
    with (List.length entries + S (range count - List.length entries - 1))%nat
    by (unfold range, len in *; lia).
  rewrite read_entries_add. unfold bind at 1. rewrite Hread.
  rewrite Hpair. reflexivity.
Qed.

Lemma read_entries_third_fails
    (self0 self2 r : AssetReader) (out : list (str * str)) (e : exn) :
  read_entries 2 [] self0 = Returns out self2 ->
  (key <- read_string ;; value <- read_string ;; ret (key, value)) self2 = Raises e r ->
  read_entries 3 [] self0 = Raises e r.
Proof.
  intros H2 H3. rewrite read_entries_last. unfold bind at 1. rewrite H2.
  unfold bind in *.
  destruct (read_string self2) as [key r1|e1 r1]; [|inversion H3; reflexivity].
  destruct (read_string r1) as [value r2|e2 r2]; [discriminate|inversion H3; reflexivity].
Qed.

(** C8 (as amended): with fewer than 4 bytes left after the cursor,
    [read_int] and [read_uint] raise [struct.error] (the bounds failure) and
    return nothing. A string table that declares 3 entries and holds 2
    well-formed pairs fails with that error on the third read when fewer than
    4 bytes follow the second pair, and a built table that declares more
    entries than it holds fails with it when it ends anywhere inside the next
    pair, at its first byte or later. Whatever follows the second pair, when
    the third read fails no list is returned: the exception of that read is
    the result. *)
Theorem out_of_bounds_reads_fail
    (self : AssetReader) (data : bytes) (self0 self2 r : AssetReader)
    (out : list (str * str)) (e : exn)
    (m : Meta) (name : str) (count : Z) (entries : list (str * str))
    (next : str * str) (table nb : bytes) (j : nat) :
  (len (__data self) - __cursor self < 4 ->
   read_int self = Raises struct_error self /\
   read_uint self = Raises struct_error self) /\
  (table_prologue (mkAssetReader data 0) = Returns 3 self0 ->
   read_entries 2 [] self0 = Returns out self2 ->
   len (__data self2) - __cursor self2 < 4 ->
   read_entries 3 [] self0 = Raises struct_error self2 /\
   parse_string_table data = Exception (AssetParseExceptionFrom struct_error)) /\
  (build_string_table m (asset_guid m) name count entries = Some table ->
   option_map len (build_header m) = Some (data_offset m) ->
   asset_type m = 1 ->
   starts_with_bom (path m) = false ->
   starts_with_bom (asset_guid m) = false ->
   starts_with_bom name = false ->
   Forall (fun kv => starts_with_bom (fst kv) = false /\
                     starts_with_bom (snd kv) = false) entries ->
   len entries < count ->
   encode_entry next = Some nb ->
   starts_with_bom (fst next) = false ->
   (j < List.length nb)%nat ->
   parse_string_table (table ++ firstn j nb) =
     Exception (AssetParseExceptionFrom struct_error)) /\
  (table_prologue (mkAssetReader data 0) = Returns 3 self0 ->
   read_entries 2 [] self0 = Returns out self2 ->
   (key <- read_string ;; value <- read_string ;; ret (key, value)) self2 = Raises e r ->
   read_entries 3 [] self0 = Raises e r /\
   parse_string_table data = Exception (AssetParseExceptionFrom e)).
Proof.
  split; [|split; [|split]].
  - intros H. split; [apply short_read_int|apply short_read_uint]; exact H.
  - intros Hp H2 Hshort.
    assert (H3 : read_entries 3 [] self0 = Raises struct_error self2).
    { rewrite read_entries_last. unfold bind at 1. rewrite H2.
      apply bind_Raises. apply short_read_string. exact Hshort. }
    split; [exact H3|].
    rewrite parse_string_table_prologue. unfold try_parse, bind. rewrite Hp.
    change (range 3) with 3%nat. rewrite H3. reflexivity.
  - apply parse_table_cut.
  - intros Hp H2 Hthird.
    pose proof (read_entries_third_fails _ _ _ _ _ H2 Hthird) as H3.
    split; [exact H3|].
    rewrite parse_string_table_prologue. unfold try_parse, bind. rewrite Hp.
    change (range 3) with 3%nat. rewrite H3. reflexivity.
Qed.

Lemma out_of_bounds_reads_fail_witness :
  (len [x01; x02; x03] - 0 < 4 /\
   read_int (mkAssetReader [x01; x02; x03] 0) =
     Raises struct_error (mkAssetReader [x01; x02; x03] 0) /\
   read_uint (mkAssetReader [x01; x02; x03] 0) =
     Raises struct_error (mkAssetReader [x01; x02; x03] 0)) /\
  (table_prologue (mkAssetReader short_table_buffer 0) =
     Returns 3 (mkAssetReader short_table_buffer 138) /\
   read_entries 2 [] (mkAssetReader short_table_buffer 138) =
     Returns [scenario_entry; (text "Key2", text "Value2")]
             (mkAssetReader short_table_buffer 178) /\
   len short_table_buffer - 178 < 4 /\
   parse_string_table short_table_buffer =
     Exception (AssetParseExceptionFrom struct_error)) /\
  (build_string_table scenario_meta (text "ABC") (text "Table") 3
     [scenario_entry; (text "Key2", text "Value2")] = Some short_table_buffer /\
   encode_entry third_entry = Some (built (encode_entry third_entry)) /\
   (12 < List.length (built (encode_entry third_entry)))%nat /\
   parse_string_table (cut_table_buffer 12) =
     Exception (AssetParseExceptionFrom struct_error)) /\
  (table_prologue (mkAssetReader zero_tail_table_buffer 0) =
     Returns 3 (mkAssetReader zero_tail_table_buffer 138) /\
   read_entries 2 [] (mkAssetReader zero_tail_table_buffer 138) =
     Returns [scenario_entry; (text "Key2", text "Value2")]
             (mkAssetReader zero_tail_table_buffer 178) /\
   (key <- read_string ;; value <- read_string ;; ret (key, value))
     (mkAssetReader zero_tail_table_buffer 178) =
     Raises (AssetParseException "String not null terminated")
            (mkAssetReader zero_tail_table_buffer 182) /\
   parse_string_table zero_tail_table_buffer =
     Exception (AssetParseExceptionFrom
                  (AssetParseException "String not null terminated"))).
Proof.
  split; [|split; [|split]].
  - split; [vm_compute; reflexivity|].
    apply (proj1 (out_of_bounds_reads_fail
                    (mkAssetReader [x01; x02; x03] 0) [] (mkAssetReader [] 0)
                    (mkAssetReader [] 0) (mkAssetReader [] 0) [] struct_error
                    scenario_meta [] 0 [] third_entry [] [] 0)).
    vm_compute. reflexivity.
  - assert (Hp : table_prologue (mkAssetReader short_table_buffer 0) =
                 Returns 3 (mkAssetReader short_table_buffer 138))
      by (vm_compute; reflexivity).
    assert (He : read_entries 2 [] (mkAssetReader short_table_buffer 138) =
                 Returns [scenario_entry; (text "Key2", text "Value2")]
                         (mkAssetReader short_table_buffer 178))
      by (vm_compute; reflexivity).
    assert (Hs : len short_table_buffer - 178 < 4) by (vm_compute; reflexivity).
    split; [exact Hp|]. split; [exact He|]. split; [exact Hs|].
    exact (proj2 (proj1 (proj2 (out_of_bounds_reads_fail
                    (mkAssetReader [] 0) short_table_buffer
                    (mkAssetReader short_table_buffer 138)
                    (mkAssetReader short_table_buffer 178) (mkAssetReader [] 0)
                    [scenario_entry; (text "Key2", text "Value2")] struct_error
                    scenario_meta [] 0 [] third_entry [] [] 0)) Hp He Hs)).
  - assert (Hb : build_string_table scenario_meta (text "ABC") (text "Table") 3
                   [scenario_entry; (text "Key2", text "Value2")] =
                 Some short_table_buffer)
      by (vm_compute; reflexivity).
    assert (Hn : encode_entry third_entry = Some (built (encode_entry third_entry)))
      by (vm_compute; reflexivity).
    assert (Hj : (12 < List.length (built (encode_entry third_entry)))%nat)
      by (vm_compute; lia).
    split; [exact Hb|]. split; [exact Hn|]. split; [exact Hj|].
    refine (proj1 (proj2 (proj2 (out_of_bounds_reads_fail
                    (mkAssetReader [] 0) [] (mkAssetReader [] 0)
                    (mkAssetReader [] 0) (mkAssetReader [] 0) [] struct_error
                    scenario_meta (text "Table") 3
                    [scenario_entry; (text "Key2", text "Value2")] third_entry
                    short_table_buffer (built (encode_entry third_entry)) 12)))
                  Hb _ _ _ _ _ _ _ Hn _ Hj).
    + vm_compute. reflexivity.
    + reflexivity.
    + reflexivity.
    + reflexivity.
    + reflexivity.
    + repeat constructor.
    + vm_compute. reflexivity.
    + reflexivity.
  - assert (Hp : table_prologue (mkAssetReader zero_tail_table_buffer 0) =
                 Returns 3 (mkAssetReader zero_tail_table_buffer 138))
      by (vm_compute; reflexivity).
    assert (He : read_entries 2 [] (mkAssetReader zero_tail_table_buffer 138) =
                 Returns [scenario_entry; (text "Key2", text "Value2")]
                         (mkAssetReader zero_tail_table_buffer 178))
      by (vm_compute; reflexivity).
    assert (Ht : (key <- read_string ;; value <- read_string ;; ret (key, value))
                   (mkAssetReader zero_tail_table_buffer 178) =
                 Raises (AssetParseException "String not null terminated")
                        (mkAssetReader zero_tail_table_buffer 182))
      by (vm_compute; reflexivity).
    split; [exact Hp|]. split; [exact He|]. split; [exact Ht|].
    exact (proj2 (proj2 (proj2 (proj2 (out_of_bounds_reads_fail
                    (mkAssetReader [] 0) zero_tail_table_buffer
                    (mkAssetReader zero_tail_table_buffer 138)
                    (mkAssetReader zero_tail_table_buffer 178)
                    (mkAssetReader zero_tail_table_buffer 182)
                    [scenario_entry; (text "Key2", text "Value2")]
                    (AssetParseException "String not null terminated")
                    scenario_meta [] 0 [] third_entry [] [] 0))) Hp He Ht)).
Defined.

(** C8 (counterexample): a table that declares 3 entries and holds 2
    well-formed pairs followed by four zero bytes: the third read finds a
    zero length prefix, and the failure is "String not null terminated", not
    the bounds error. *)
Lemma out_of_bounds_zero_tail_counterexample :
  table_prologue (mkAssetReader zero_tail_table_buffer 0) =
    Returns 3 (mkAssetReader zero_tail_table_buffer 138) /\
  read_entries 2 [] (mkAssetReader zero_tail_table_buffer 138) =
    Returns [scenario_entry; (text "Key2", text "Value2")]
            (mkAssetReader zero_tail_table_buffer 178) /\
  len zero_tail_table_buffer = 182 /\
  parse_string_table zero_tail_table_buffer =
    Exception (AssetParseExceptionFrom
                 (AssetParseException "String not null terminated")) /\
  parse_string_table zero_tail_table_buffer <>
    Exception (AssetParseExceptionFrom struct_error).
Proof.
  split; [vm_compute; reflexivity|].
  split; [vm_compute; reflexivity|].
  split; [vm_compute; reflexivity|].
  split; [vm_compute; reflexivity|].
  vm_compute. discriminate.
Qed.

(** * The resolver's last read and its reset *)

Lemma bytes_find_lower (data sub : bytes) (c : Z) : -1 <= bytes_find data sub c.
Proof.
  unfold bytes_find.
  destruct (Z.ltb_spec c 0);
    match goal with |- context [if ?b then _ else _] => destruct b end; try lia;
    match goal with |- context [search ?s ?l] => destruct (search s l) end; lia.
Qed.

Lemma string_at_Ok (data : bytes) (s : Z) (t : str) (q : Z) :
  string_at data s = Ok (t, q) ->
  read_string (mkAssetReader data s) = Returns t (mkAssetReader data q) /\ s + 4 < q.
Proof.
  unfold string_at.
  destruct (read_string (mkAssetReader data s)) as [t' r|e r] eqn:E; [|discriminate].
  intros H. cbn [observe] in H. inversion H; subst.
  destruct (read_string_Returns _ _ _ _ E)
    as (prefix & value & Hat & Hne & _ & _ & _ & _ & ->).
  cbn [__cursor]. split; [reflexivity|].
  pose proof (string_extent_positive prefix Hne (int_at_range _ _ _ Hat)). lia.
Qed.

Lemma get_asset_meta_last_read (data : bytes) (c : Z) (meta : Meta) (self' : AssetReader) :
  get_asset_meta (mkAssetReader data c) = Returns meta self' ->
  exists start q,
    0 < start < q /\
    read_string (mkAssetReader data start) =
      Returns (asset_guid meta) (mkAssetReader data q).
Proof.
  intros E. pose proof (get_asset_meta_resolve_header data c) as Hr.
  rewrite E in Hr. cbn [observe] in Hr. symmetry in Hr.
  unfold resolve_header, resolve_from in Hr.
  destruct (int_at data (c + 4)) as [fv|]; [|discriminate].
  destruct (uint_at data (c + 8)); [|discriminate].
  destruct (uint_at data (c + 12)); [|discriminate].
  destruct (uint_at data (c + 16)) as [cook|]; [|discriminate].
  destruct (uint_at data (cursor_after_cook _ _ _ + 4)); [|discriminate].
  pose proof (bytes_find_lower data anchor_pattern (anchor_search_start c fv cook)) as Ha.
  set (anchor := bytes_find data anchor_pattern (anchor_search_start c fv cook)) in *.
  destruct (uint_at data (anchor + 4)); [|discriminate].
  destruct (string_at data (anchor + 4 + 4)) as [[path_ p]|] eqn:Ep; [|discriminate].
  destruct (int_at data (p + 12)) as [v|]; [|discriminate].
  destruct (string_at data (cursor_before_guid (p + 12) v)) as [[guid_ q]|] eqn:Eg;
    [|discriminate].
  inversion Hr; subst. cbn [asset_guid].
  apply string_at_Ok in Ep as [_ Hp]. apply string_at_Ok in Eg as [Hg Hq].
  exists (cursor_before_guid (p + 12) v), q. split; [|exact Hg].
  unfold cursor_before_guid in *. destruct (v =? 0); lia.
Qed.

(** C9: whenever the header resolver returns, from whatever cursor it was
    started, the cursor of the reader is 0, and it was put there by the final
    [reset]: the read that gave [asset_guid] had left it at a position after
    the start of the buffer. And no method of the reader ([validate],
    [get_asset_meta], [read_int], [read_uint], [read_string], [skip], [reset],
    [find_int]) changes the byte buffer, whether it returns or raises. *)
Theorem reader_leaves_buffer
    (self self' : AssetReader) (meta : Meta) (count position value : Z) :
  (get_asset_meta self = Returns meta self' ->
   __cursor self' = 0 /\
   exists start q,
     0 < start < q /\
     read_string (mkAssetReader (__data self) start) =
       Returns (asset_guid meta) (mkAssetReader (__data self) q) /\
     reset 0 (mkAssetReader (__data self) q) = Returns tt self') /\
  __data (final_reader (validate self)) = __data self /\
  __data (final_reader (get_asset_meta self)) = __data self /\
  __data (final_reader (read_int self)) = __data self /\
  __data (final_reader (read_uint self)) = __data self /\
  __data (final_reader (read_string self)) = __data self /\
  __data (final_reader (skip count self)) = __data self /\
  __data (final_reader (reset position self)) = __data self /\
  __data (final_reader (find_int value self)) = __data self.
Proof.
  split.
  - destruct self as [data c]. intros E.
    destruct (get_asset_meta_last_read _ _ _ _ E) as (start & q & Hq & Hread).
    apply get_asset_meta_Returns in E. subst self'.
    split; [reflexivity|]. exists start, q.
    split; [exact Hq|]. split; [exact Hread|reflexivity].
  - split; [apply keeps_data_validate|].
    split; [apply keeps_data_get_asset_meta|].
    split; [apply keeps_data_read_int|].
    split; [apply keeps_data_read_uint|].
    split; [apply keeps_data_read_string|].
    split; [apply keeps_data_skip|].
    split; [apply keeps_data_reset|apply keeps_data_find_int].
Qed.

Lemma reader_leaves_buffer_witness :
  get_asset_meta (mkAssetReader offset_header_buffer 5) =
    Returns scenario_meta (mkAssetReader offset_header_buffer 0) /\
  __cursor (mkAssetReader offset_header_buffer 0) = 0 /\
  exists start q,
    0 < start < q /\
    read_string (mkAssetReader offset_header_buffer start) =
      Returns (asset_guid scenario_meta) (mkAssetReader offset_header_buffer q) /\
    reset 0 (mkAssetReader offset_header_buffer q) =
      Returns tt (mkAssetReader offset_header_buffer 0).
Proof.
  assert (E : get_asset_meta (mkAssetReader offset_header_buffer 5) =
              Returns scenario_meta (mkAssetReader offset_header_buffer 0))
    by (vm_compute; reflexivity).
  split; [exact E|].
  exact (proj1 (reader_leaves_buffer (mkAssetReader offset_header_buffer 5)
                  (mkAssetReader offset_header_buffer 0) scenario_meta 0 0 0) E).
Defined.
